(** * Eagle-Notifier: schema-driven feature engineering (backend/ml)

    A shallow embedding of [backend/ml/config.py] and
    [backend/ml/features.py].

    - A pandas [Series] of dtype float64 is a list of binary64 floats; the
      missing value is NaN, as in pandas.
    - A [DataFrame] is the ordered list of its labelled columns, all of the
      frame's length ([wf_frame]).  [get_col] is the column of a label that
      occurs once; pandas answers a repeated label with a frame and rejects
      the assignment of that frame to one column, so the theorems that state
      what a stage returns assume [NoDup (columns df)].
    - A Python call that can raise returns an [outcome].
    - Routines of numpy, pandas' datetime accessor and scikit-learn that
      binary64 arithmetic alone does not define are fields of [Kernels]. *)

From Stdlib Require Import List String Ascii ZArith Lia Bool Floats.
From Stdlib Require Import DecimalString DecimalZ DecimalPos.
From Stdlib Require Import Permutation Sorted.
Import ListNotations.

Set Warnings "-inexact-float".
Open Scope string_scope.
Open Scope Z_scope.
Open Scope list_scope.

(** ** Python outcomes *)

Inductive exn : Type :=
| ZeroDivisionError
| ValueError
| KeyError
| OverflowError
| TypeError
| OSError.

Inductive outcome (A : Type) : Type :=
| Returns (a : A)
| Raises (e : exn).

Arguments Returns {A} a.
Arguments Raises {A} e.

Definition bind {A B : Type} (m : outcome A) (k : A -> outcome B) : outcome B :=
  match m with
  | Returns a => k a
  | Raises e => Raises e
  end.

Notation "x <- m ;; k" := (bind m (fun x => k))
  (at level 61, m at next level, right associativity).

(** [for x in xs: st = body(x, st)], stopping at the first exception. *)
Fixpoint for_each {A St : Type} (xs : list A) (body : A -> St -> outcome St)
  (st : St) : outcome St :=
  match xs with
  | [] => Returns st
  | x :: rest => st' <- body x st ;; for_each rest body st'
  end.

(** A list comprehension whose element expression can raise. *)
Fixpoint map_m {A B : Type} (f : A -> outcome B) (xs : list A) : outcome (list B) :=
  match xs with
  | [] => Returns []
  | x :: rest => y <- f x ;; ys <- map_m f rest ;; Returns (y :: ys)
  end.

(** Python's [a // b] on ints: floor division, [ZeroDivisionError] on 0. *)
Definition floordiv (a b : Z) : outcome Z :=
  if b =? 0 then Raises ZeroDivisionError else Returns (a / b).

(** Python's [str] on an int, as used by f-strings. *)
Definition str (z : Z) : string := NilZero.string_of_int (Z.to_int z).

(** ** float64 values *)

Definition isna (x : float) : bool := PrimFloat.is_nan x.
Definition notna (x : float) : bool := negb (isna x).

Definition float_of_nat (n : nat) : float :=
  PrimFloat.of_uint63 (Uint63.of_Z (Z.of_nat n)).

(** Python's [int(x)] on a finite float: truncation toward zero.  (On the
    infinities and NaN Python raises; the only use below is on a finite
    product.) *)
Definition int_of_float (x : float) : Z :=
  match Prim2SF x with
  | S754_finite s m e =>
      let mag := if 0 <=? e then Z.pos m * 2 ^ e else Z.pos m / 2 ^ (- e) in
      if s then - mag else mag
  | _ => 0
  end.

(** Neither NaN nor an infinity. *)
Definition is_finite (x : float) : bool :=
  PrimFloat.ltb (PrimFloat.abs x) infinity.

(** ** pandas Series *)

Definition Series : Type := list float.

Definition cell (s : Series) (i : nat) : float := nth i s nan.

(** [s.shift(periods)] for [0 <= periods < 2^63]; see [check_period]. *)
Definition shift (periods : nat) (s : Series) : Series :=
  repeat nan (Nat.min periods (List.length s))
    ++ firstn (List.length s - periods) s.

(** [s.diff()]: NaN on the first row, [s[i] - s[i-1]] afterwards. *)
Definition diff (s : Series) : Series :=
  map (fun i => match i with
                | O => nan
                | S j => PrimFloat.sub (cell s i) (cell s j)
                end)
      (seq 0 (List.length s)).

(** [fillna(method='ffill')] on one column, [last] being the latest valid
    value seen so far. *)
Fixpoint ffill_from (last : float) (s : Series) : Series :=
  match s with
  | [] => []
  | x :: rest =>
      let y := if isna x then last else x in
      y :: ffill_from y rest
  end.

Definition ffill (s : Series) : Series := ffill_from nan s.

(** [fillna(method='bfill')] on one column. *)
Definition bfill (s : Series) : Series := rev (ffill (rev s)).

(** Elementwise binary operation on two columns. *)
Definition zip_with (f : float -> float -> float) (a b : Series) : Series :=
  map (fun '(x, y) => f x y) (combine a b).

(** [s.pct_change()]: pandas pads missing values forward, then computes
    [data / data.shift(1) - 1]. *)
Definition pct_change (s : Series) : Series :=
  let data := ffill s in
  zip_with (fun a b => PrimFloat.sub (PrimFloat.div a b) 1%float)
    data (shift 1 data).

(** *** Aggregations over the valid observations of a window or column

    The textbook formulas in binary64, each window being aggregated on its
    own.  pandas evaluates the mean and the standard deviation of a rolling
    window with a running update, adding the sample that enters the window
    and removing the one that leaves it; after a sample much larger than the
    others has left, its result can differ from the formula's by whole
    values, not only in the last bits.  The theorems below rest only on the
    number of observations, on the one-observation values and on the order
    of minimum and maximum, where the two agree; none states the value of a
    mean or of a standard deviation over several observations. *)

Definition fsum (xs : list float) : float := fold_left PrimFloat.add xs 0%float.

Definition agg_mean (obs : list float) : float :=
  PrimFloat.div (fsum obs) (float_of_nat (List.length obs)).

(** Sample standard deviation ([ddof=1]): no value below two observations. *)
Definition agg_std (obs : list float) : float :=
  if (List.length obs <=? 1)%nat then nan
  else
    let m := agg_mean obs in
    let ssd := fsum (map (fun x => PrimFloat.mul (PrimFloat.sub x m) (PrimFloat.sub x m)) obs) in
    PrimFloat.sqrt (PrimFloat.div ssd (float_of_nat (List.length obs - 1))).

Definition fmin (a b : float) : float := if PrimFloat.ltb b a then b else a.
Definition fmax (a b : float) : float := if PrimFloat.ltb a b then b else a.

Definition agg_min (obs : list float) : float :=
  match obs with
  | [] => nan
  | x :: rest => fold_left fmin rest x
  end.

Definition agg_max (obs : list float) : float :=
  match obs with
  | [] => nan
  | x :: rest => fold_left fmax rest x
  end.

Fixpoint insert_sorted (x : float) (xs : list float) : list float :=
  match xs with
  | [] => [x]
  | y :: rest => if PrimFloat.leb x y then x :: xs else y :: insert_sorted x rest
  end.

Definition sort_floats (xs : list float) : list float :=
  fold_right insert_sorted [] xs.

Definition agg_median (obs : list float) : float :=
  let sorted := sort_floats obs in
  let n := List.length obs in
  if Nat.even n
  then PrimFloat.div (PrimFloat.add (cell sorted (n / 2 - 1)) (cell sorted (n / 2))) 2%float
  else cell sorted (n / 2).

(** *** Rolling windows *)

(** Rows [i - window + 1 .. i] of [s], clipped at the start of the series. *)
Definition window_at (window : nat) (s : Series) (i : nat) : list float :=
  firstn (Nat.min window (i + 1)) (skipn (i + 1 - window) s).

(** [s.rolling(window, min_periods).agg()]: the aggregate of the
    observations of each trailing window, NaN when there are fewer than
    [min_periods] of them.  pandas replaces the infinities of the column by
    NaN before it aggregates, so the observations of a window are its finite
    values. *)
Definition rolling (window min_periods : nat) (agg : list float -> float)
  (s : Series) : Series :=
  map (fun i =>
         let obs := filter is_finite (window_at window s i) in
         if (List.length obs <? min_periods)%nat then nan else agg obs)
      (seq 0 (List.length s)).

(** The largest row count of pandas' indexers, a C [int64]. *)
Definition int64_max : Z := 2 ^ 63 - 1.

(** [Series.rolling(window=w, min_periods=1)] validates its arguments: the
    window must be an integer [>= 0] and [min_periods <= window]; the
    aggregation then converts the window to [int64], which overflows from
    [2^63]. *)
Definition check_window (window : Z) : outcome nat :=
  if window <? 1 then Raises ValueError
  else if int64_max <? window then Raises OverflowError
  else Returns (Z.to_nat window).

(** [Series.shift(periods)] converts the period to [int64]. *)
Definition check_period (periods : Z) : outcome nat :=
  if int64_max <? periods then Raises OverflowError
  else Returns (Z.to_nat periods).

(** [s.mean()] and [s.std()] of a whole column, skipping missing values. *)
Definition series_mean (s : Series) : float :=
  match filter notna s with
  | [] => nan
  | obs => agg_mean obs
  end.

Definition series_std (s : Series) : float := agg_std (filter notna s).

(** ** pandas DataFrame *)

Definition DataFrame : Type := list (string * Series).

Definition columns (df : DataFrame) : list string := map fst df.

(** [len(df)] *)
Definition nrows (df : DataFrame) : nat :=
  match df with
  | [] => O
  | (_, s) :: _ => List.length s
  end.

Fixpoint get_col (df : DataFrame) (c : string) : option Series :=
  match df with
  | [] => None
  | (k, s) :: rest => if String.eqb k c then Some s else get_col rest c
  end.

(** [c in df.columns] *)
Definition has_col (df : DataFrame) (c : string) : bool :=
  match get_col df c with
  | Some _ => true
  | None => false
  end.

(** [df[c]] where the label is known to be present. *)
Definition loc (df : DataFrame) (c : string) : Series :=
  match get_col df c with
  | Some s => s
  | None => []
  end.

(** [df[c]], raising [KeyError] on an unknown label. *)
Definition getitem (df : DataFrame) (c : string) : outcome Series :=
  match get_col df c with
  | Some s => Returns s
  | None => Raises KeyError
  end.

(** [df[c] = s]: overwrite in place, or append a new last column. *)
Fixpoint set_col (df : DataFrame) (c : string) (s : Series) : DataFrame :=
  match df with
  | [] => [(c, s)]
  | (k, v) :: rest =>
      if String.eqb k c then (k, s) :: rest else (k, v) :: set_col rest c s
  end.

(** [df[names]]: the listed columns, in the listed order. *)
Definition select_cols (df : DataFrame) (names : list string) : outcome DataFrame :=
  map_m (fun c => s <- getitem df c ;; Returns (c, s)) names.

Definition wf_frame (df : DataFrame) : Prop :=
  Forall (fun c => List.length (snd c) = nrows df) df.

(** The cells of row [i], column by column. *)
Definition row (df : DataFrame) (i : nat) : list float :=
  map (fun c => cell (snd c) i) df.

(** Boolean-mask row selection [s[mask]]. *)
Fixpoint keep (mask : list bool) (s : Series) : Series :=
  match mask, s with
  | m :: ms, x :: xs => if m then x :: keep ms xs else keep ms xs
  | _, _ => []
  end.

Definition keep_rows (mask : list bool) (df : DataFrame) : DataFrame :=
  map (fun c => (fst c, keep mask (snd c))) df.

Definition map_cols (f : Series -> Series) (df : DataFrame) : DataFrame :=
  map (fun c => (fst c, f (snd c))) df.

(** [df.dropna(thresh=t)]: keep the rows holding at least [t] values. *)
Definition dropna_thresh (t : Z) (df : DataFrame) : DataFrame :=
  keep_rows
    (map (fun i => t <=? Z.of_nat (List.length (filter notna (row df i))))
         (seq 0 (nrows df)))
    df.

(** [df.dropna()]: keep the rows without any missing value. *)
Definition dropna (df : DataFrame) : DataFrame :=
  keep_rows (map (fun i => forallb notna (row df i)) (seq 0 (nrows df))) df.

(** [df.rename(columns=mapping)] *)
Definition dict_get (d : list (string * string)) (k default : string) : string :=
  match find (fun kv => String.eqb (fst kv) k) d with
  | Some kv => snd kv
  | None => default
  end.

Definition rename (mapping : list (string * string)) (df : DataFrame) : DataFrame :=
  map (fun c => (dict_get mapping (fst c) (fst c), snd c)) df.

(** ** config.py *)

Record ScadaDbConfig : Type := {
  host : string;
  port : Z;
  database : string;
  user : string;
  password : string;
  ssl_mode : string;
  connection_timeout : Z
}.

Record SchemaConfig : Type := {
  continuous_columns : list string;
  boolean_columns : list string;
  column_mapping : list (string * string);
  lag_seconds : list Z;
  rolling_windows : list Z;
  target_column : string;
  timestamp_column : string
}.

Record TrainingConfig : Type := {
  validation_split : float;
  test_split : float
}.

(** A [datetime]: its seconds since the epoch, and whether it carries a UTC
    offset (is aware) or not (is naive).  Python refuses to compare or to
    subtract an aware and a naive datetime. *)
Record datetime : Type := {
  seconds : Z;
  aware : bool
}.

Definition naive (t : Z) : datetime := {| seconds := t; aware := false |}.

(** [a >= b] on datetimes. *)
Definition datetime_ge (a b : datetime) : outcome bool :=
  if Bool.eqb (aware a) (aware b) then Returns (seconds b <=? seconds a)
  else Raises TypeError.

(** [(a - b).days]: the whole days of a [timedelta]. *)
Definition days_between (a b : datetime) : outcome Z :=
  if Bool.eqb (aware a) (aware b) then Returns ((seconds a - seconds b) / 86400)
  else Raises TypeError.

Record DataConfig : Type := {
  start_date : datetime;
  end_date : datetime;
  min_samples : Z;
  max_samples : Z;
  sampling_interval_minutes : Z
}.

Record OrganizationConfig : Type := {
  organization_id : string;
  scada_db : ScadaDbConfig;
  schema : SchemaConfig;
  training : TrainingConfig;
  data : DataConfig
}.

(** [SchemaConfig.get_mapped_column] *)
Definition get_mapped_column (sc : SchemaConfig) (original_name : string) : string :=
  dict_get (column_mapping sc) original_name original_name.

(** f-strings naming the derived columns. *)
Definition lag_name (mapped_col : string) (lag_sec : Z) : string :=
  mapped_col ++ "_lag_" ++ str lag_sec ++ "s".

Definition rolling_name (mapped_col stat : string) (window : Z) : string :=
  mapped_col ++ "_rolling_" ++ stat ++ "_" ++ str window.

(** [SchemaConfig.get_all_feature_columns] *)
Definition get_all_feature_columns (sc : SchemaConfig) : list string :=
  flat_map
    (fun col =>
       let mapped_col := get_mapped_column sc col in
       [mapped_col]
         ++ map (lag_name mapped_col) (lag_seconds sc)
         ++ flat_map
              (fun window =>
                 [rolling_name mapped_col "mean" window;
                  rolling_name mapped_col "std" window;
                  rolling_name mapped_col "min" window;
                  rolling_name mapped_col "max" window])
              (rolling_windows sc))
    (continuous_columns sc)
  ++ map (get_mapped_column sc) (boolean_columns sc).

(** The [schemaConfig] entry of a configuration dict: absent keys are [None]. *)
Record SchemaDict : Type := {
  continuousColumns : option (list string);
  booleanColumns : option (list string);
  columnMapping : option (list (string * string));
  lagSeconds : option (list Z);
  rollingWindows : option (list Z);
  targetColumn : option string;
  timestampColumn : option string
}.

Definition dict_get_or {A : Type} (v : option A) (default : A) : A :=
  match v with
  | Some a => a
  | None => default
  end.

(** [OrganizationConfig._init_schema_config] *)
Definition init_schema_config (d : SchemaDict) : SchemaConfig :=
  {| continuous_columns :=
       dict_get_or (continuousColumns d)
         ["temperature"; "pressure"; "flow_rate"; "vibration";
          "current"; "voltage"; "rpm"; "power_consumption"];
     boolean_columns :=
       dict_get_or (booleanColumns d)
         ["pump_status"; "valve_open"; "alarm_active"; "maintenance_mode"];
     column_mapping := dict_get_or (columnMapping d) [];
     lag_seconds := dict_get_or (lagSeconds d) [60; 120; 300];
     rolling_windows := dict_get_or (rollingWindows d) [5; 10; 20];
     target_column := dict_get_or (targetColumn d) "failure_indicator";
     timestamp_column := dict_get_or (timestampColumn d) "timestamp" |}.

(** Python truthiness of a str and of a list. *)
Definition str_falsy (s : string) : bool := String.eqb s "".
Definition list_falsy {A : Type} (l : list A) : bool :=
  match l with
  | [] => true
  | _ => false
  end.

Definition error_if (cond : bool) (msg : string) : list string :=
  if cond then [msg] else [].

(** [OrganizationConfig.validate]: the list of error messages.  The
    comparison of the two dates is the only step that can raise. *)
Definition validate (c : OrganizationConfig) : outcome (list string) :=
  let errors :=
    error_if (str_falsy (host (scada_db c))) "SCADA database host is required"
    ++ error_if (str_falsy (database (scada_db c))) "SCADA database name is required"
    ++ error_if (str_falsy (user (scada_db c))) "SCADA database user is required"
    ++ error_if (list_falsy (continuous_columns (schema c))
                 && list_falsy (boolean_columns (schema c)))
         "At least one continuous or boolean column must be specified"
    ++ error_if (str_falsy (target_column (schema c))) "Target column is required" in
  dates_inverted <- datetime_ge (start_date (data c)) (end_date (data c)) ;;
  Returns
    (errors
     ++ error_if dates_inverted "Start date must be before end date"
     ++ error_if (min_samples (data c) <=? 0) "Minimum samples must be positive"
     ++ error_if (negb (PrimFloat.ltb 0 (validation_split (training c))
                        && PrimFloat.ltb (validation_split (training c)) 1))
          "Validation split must be between 0 and 1"
     ++ error_if (negb (PrimFloat.ltb 0 (test_split (training c))
                        && PrimFloat.ltb (test_split (training c)) 1))
          "Test split must be between 0 and 1"
     ++ error_if (PrimFloat.leb 1 (PrimFloat.add (validation_split (training c))
                                                 (test_split (training c))))
          "Validation and test splits combined must be less than 1").

(** ** Library kernels

    Routines of numpy, pandas' datetime accessor and scikit-learn used by
    [features.py] that are not expressible with binary64 arithmetic alone.
    A datetime column holds seconds since the epoch; [to_datetime] parses
    one cell of a column that is not yet of datetime dtype. *)

Record Kernels : Type := {
  is_datetime64 : Series -> bool;
  to_datetime : float -> outcome float;
  dt_hour : float -> float;
  dt_dayofweek : float -> float;
  dt_day : float -> float;
  dt_month : float -> float;
  dt_quarter : float -> float;
  total_seconds : float -> float;
  np_sin : float -> float;
  np_cos : float -> float;
  quantile : Series -> float -> float;
  polyfit_slope : list float -> float;
  (* the score one completed call gave a feature column against the target;
     the routine is randomised, and rejects a target that is not made of
     class labels, which [select_features] with this method inherits *)
  mutual_info_classif : Series -> Series -> float
}.

Definition np_pi : float := 0x1.921fb54442d18p+1%float.
Definition eps : float := 1e-8%float.

(** [np.maximum(a, b)] *)
Definition np_maximum (a b : float) : float :=
  if PrimFloat.leb b a || isna a then a else b.

(** ** features.py: the generator stages *)

(** [FeatureEngineer.create_lag_features] *)
Definition create_lag_features (cfg : OrganizationConfig) (df : DataFrame)
  : outcome DataFrame :=
  let sc := schema cfg in
  let sampling_interval := sampling_interval_minutes (data cfg) * 60 in
  lag_periods <-
    map_m (fun lag_sec => q <- floordiv lag_sec sampling_interval ;;
                          Returns (Z.max 1 q))
          (lag_seconds sc) ;;
  for_each (continuous_columns sc)
    (fun col df =>
       let mapped_col := get_mapped_column sc col in
       if has_col df mapped_col then
         for_each (combine (lag_seconds sc) lag_periods)
           (fun '(lag_sec, lag_period) df =>
              let lag_col := lag_name mapped_col lag_sec in
              periods <- check_period lag_period ;;
              Returns (set_col df lag_col (shift periods (loc df mapped_col))))
           df
       else Returns df)
    df.

(** [FeatureEngineer.create_rolling_features] *)
Definition create_rolling_features (cfg : OrganizationConfig) (df : DataFrame)
  : outcome DataFrame :=
  let sc := schema cfg in
  for_each (continuous_columns sc)
    (fun col df =>
       let mapped_col := get_mapped_column sc col in
       if has_col df mapped_col then
         for_each (rolling_windows sc)
           (fun window df =>
              w <- check_window window ;;
              let mean_col := rolling_name mapped_col "mean" window in
              let df := set_col df mean_col (rolling w 1 agg_mean (loc df mapped_col)) in
              let std_col := rolling_name mapped_col "std" window in
              let df := set_col df std_col (rolling w 1 agg_std (loc df mapped_col)) in
              let min_col := rolling_name mapped_col "min" window in
              let max_col := rolling_name mapped_col "max" window in
              let df := set_col df min_col (rolling w 1 agg_min (loc df mapped_col)) in
              let df := set_col df max_col (rolling w 1 agg_max (loc df mapped_col)) in
              let median_col := rolling_name mapped_col "median" window in
              let df := set_col df median_col (rolling w 1 agg_median (loc df mapped_col)) in
              Returns df)
           df
       else Returns df)
    df.

(** [FeatureEngineer.create_rate_of_change_features] *)
Definition create_rate_of_change_features (cfg : OrganizationConfig)
  (df : DataFrame) : DataFrame :=
  let sc := schema cfg in
  fold_left
    (fun df col =>
       let mapped_col := get_mapped_column sc col in
       if has_col df mapped_col then
         let roc_col := (mapped_col ++ "_roc")%string in
         let df := set_col df roc_col (diff (loc df mapped_col)) in
         let acc_col := (mapped_col ++ "_acceleration")%string in
         let df := set_col df acc_col (diff (loc df roc_col)) in
         let pct_col := (mapped_col ++ "_pct_change")%string in
         let df := set_col df pct_col (pct_change (loc df mapped_col)) in
         df
       else df)
    (continuous_columns sc) df.

Definition key_interactions : list (string * string) :=
  [("temperature", "pressure"); ("current", "voltage");
   ("vibration", "rpm"); ("flow_rate", "pressure")].

(** [FeatureEngineer.create_interaction_features] *)
Definition create_interaction_features (cfg : OrganizationConfig)
  (df : DataFrame) : DataFrame :=
  let sc := schema cfg in
  fold_left
    (fun df '(col1_orig, col2_orig) =>
       let col1 := get_mapped_column sc col1_orig in
       let col2 := get_mapped_column sc col2_orig in
       if has_col df col1 && has_col df col2 then
         let mult_col := (col1 ++ "_" ++ col2 ++ "_mult")%string in
         let df := set_col df mult_col (zip_with PrimFloat.mul (loc df col1) (loc df col2)) in
         let ratio_col := (col1 ++ "_" ++ col2 ++ "_ratio")%string in
         let df := set_col df ratio_col
                     (zip_with (fun a b => PrimFloat.div a (PrimFloat.add b eps))
                        (loc df col1) (loc df col2)) in
         let diff_col := (col1 ++ "_" ++ col2 ++ "_diff")%string in
         let df := set_col df diff_col (zip_with PrimFloat.sub (loc df col1) (loc df col2)) in
         df
       else df)
    key_interactions df.

(** [df[cols].agg(axis=1)]: a row-wise aggregate over the valid cells. *)
Definition row_agg (agg : list float -> float) (df : DataFrame)
  (cols : list string) : Series :=
  map (fun i => agg (filter notna (map (fun c => cell (loc df c) i) cols)))
      (seq 0 (nrows df)).

Definition nan_mean (obs : list float) : float :=
  match obs with
  | [] => nan
  | _ => agg_mean obs
  end.

(** [FeatureEngineer.create_statistical_features] *)
Definition create_statistical_features (cfg : OrganizationConfig)
  (df : DataFrame) : DataFrame :=
  let sc := schema cfg in
  let continuous_cols :=
    filter (has_col df) (map (get_mapped_column sc) (continuous_columns sc)) in
  if (2 <=? List.length continuous_cols)%nat then
    let df := set_col df "mean_all_continuous" (row_agg nan_mean df continuous_cols) in
    let df := set_col df "std_all_continuous" (row_agg agg_std df continuous_cols) in
    let df := set_col df "min_all_continuous" (row_agg agg_min df continuous_cols) in
    let df := set_col df "max_all_continuous" (row_agg agg_max df continuous_cols) in
    let df := set_col df "range_all_continuous"
                (zip_with PrimFloat.sub (loc df "max_all_continuous")
                   (loc df "min_all_continuous")) in
    let df := set_col df "cv_all_continuous"
                (zip_with (fun s m => PrimFloat.div s (PrimFloat.add m eps))
                   (loc df "std_all_continuous") (loc df "mean_all_continuous")) in
    df
  else df.

(** [FeatureEngineer.create_time_based_features] *)
Definition create_time_based_features (K : Kernels) (cfg : OrganizationConfig)
  (df : DataFrame) : outcome DataFrame :=
  let timestamp_col := timestamp_column (schema cfg) in
  if has_col df timestamp_col then
    df <- (if negb (is_datetime64 K (loc df timestamp_col))
           then ts <- map_m (to_datetime K) (loc df timestamp_col) ;;
                Returns (set_col df timestamp_col ts)
           else Returns df) ;;
    Returns
      (let cyc f (period : float) (s : Series) : Series :=
         map (fun v => f (PrimFloat.div
                            (PrimFloat.mul (PrimFloat.mul 2 np_pi) v) period)) s in
       let df := set_col df "hour" (map (dt_hour K) (loc df timestamp_col)) in
       let df := set_col df "day_of_week" (map (dt_dayofweek K) (loc df timestamp_col)) in
       let df := set_col df "day_of_month" (map (dt_day K) (loc df timestamp_col)) in
       let df := set_col df "month" (map (dt_month K) (loc df timestamp_col)) in
       let df := set_col df "quarter" (map (dt_quarter K) (loc df timestamp_col)) in
       let df := set_col df "hour_sin" (cyc (np_sin K) 24%float (loc df "hour")) in
       let df := set_col df "hour_cos" (cyc (np_cos K) 24%float (loc df "hour")) in
       let df := set_col df "day_sin" (cyc (np_sin K) 7%float (loc df "day_of_week")) in
       let df := set_col df "day_cos" (cyc (np_cos K) 7%float (loc df "day_of_week")) in
       let df := set_col df "month_sin" (cyc (np_sin K) 12%float (loc df "month")) in
       let df := set_col df "month_cos" (cyc (np_cos K) 12%float (loc df "month")) in
       let start := agg_min (filter notna (loc df timestamp_col)) in
       let df := set_col df "time_since_start"
                   (map (fun t => total_seconds K (PrimFloat.sub t start))
                        (loc df timestamp_col)) in
       df)
  else Returns df.

(** [FeatureEngineer.create_anomaly_features] *)
Definition create_anomaly_features (cfg : OrganizationConfig) (df : DataFrame)
  : DataFrame :=
  let sc := schema cfg in
  fold_left
    (fun df col =>
       let mapped_col := get_mapped_column sc col in
       if has_col df mapped_col then
         let mean_val := series_mean (loc df mapped_col) in
         let std_val := series_std (loc df mapped_col) in
         let z_score_col := (mapped_col ++ "_z_score")%string in
         let df := set_col df z_score_col
                     (map (fun x => PrimFloat.div (PrimFloat.sub x mean_val)
                                      (PrimFloat.add std_val eps))
                          (loc df mapped_col)) in
         let anomaly_col := (mapped_col ++ "_anomaly")%string in
         let df := set_col df anomaly_col
                     (map (fun z => if PrimFloat.ltb 3 (PrimFloat.abs z)
                                    then 1%float else 0%float)
                          (loc df z_score_col)) in
         let rolling_mean := rolling 20 1 agg_mean (loc df mapped_col) in
         let distance_col := (mapped_col ++ "_distance_from_mean")%string in
         let df := set_col df distance_col
                     (zip_with (fun x m => PrimFloat.abs (PrimFloat.sub x m))
                        (loc df mapped_col) rolling_mean) in
         df
       else df)
    (continuous_columns sc) df.

(** [FeatureEngineer.create_domain_specific_features] *)
Definition create_domain_specific_features (K : Kernels)
  (cfg : OrganizationConfig) (df : DataFrame) : DataFrame :=
  let sc := schema cfg in
  let current_col := get_mapped_column sc "current" in
  let voltage_col := get_mapped_column sc "voltage" in
  let df :=
    if has_col df current_col && has_col df voltage_col then
      let df := set_col df "power"
                  (zip_with PrimFloat.mul (loc df current_col) (loc df voltage_col)) in
      set_col df "power_factor"
        (zip_with (fun p cv => PrimFloat.div p (PrimFloat.add cv eps))
           (loc df "power")
           (zip_with PrimFloat.mul (loc df current_col) (loc df voltage_col)))
    else df in
  let temp_col := get_mapped_column sc "temperature" in
  let df :=
    if has_col df temp_col then
      let df := set_col df "temp_efficiency"
                  (map (fun t => PrimFloat.div 1 (PrimFloat.add t eps))
                       (loc df temp_col)) in
      let normal_temp := quantile K (loc df temp_col) 0.5%float in
      set_col df "temp_stress"
        (map (fun t => np_maximum 0 (PrimFloat.sub t normal_temp)) (loc df temp_col))
    else df in
  let vibration_col := get_mapped_column sc "vibration" in
  let df :=
    if has_col df vibration_col then
      let max_vibration := quantile K (loc df vibration_col) 0.95%float in
      let df := set_col df "vibration_health"
                  (map (fun v => PrimFloat.sub 1
                                   (PrimFloat.div v (PrimFloat.add max_vibration eps)))
                       (loc df vibration_col)) in
      set_col df "vibration_trend"
        (rolling 10 10
           (fun x => if (1 <? List.length x)%nat then polyfit_slope K x else 0%float)
           (loc df vibration_col))
    else df in
  let flow_col := get_mapped_column sc "flow_rate" in
  let pressure_col := get_mapped_column sc "pressure" in
  let df :=
    if has_col df flow_col && has_col df pressure_col then
      let df := set_col df "flow_efficiency"
                  (zip_with (fun f p => PrimFloat.div f (PrimFloat.add p eps))
                     (loc df flow_col) (loc df pressure_col)) in
      set_col df "hydraulic_power"
        (zip_with PrimFloat.mul (loc df flow_col) (loc df pressure_col))
    else df in
  df.

(** The eight generator stages in the order [engineer_features] runs them. *)
Definition run_generators (K : Kernels) (cfg : OrganizationConfig)
  (df : DataFrame) : outcome DataFrame :=
  df <- create_time_based_features K cfg df ;;
  df <- create_lag_features cfg df ;;
  df <- create_rolling_features cfg df ;;
  let df := create_rate_of_change_features cfg df in
  let df := create_interaction_features cfg df in
  let df := create_statistical_features cfg df in
  let df := create_anomaly_features cfg df in
  let df := create_domain_specific_features K cfg df in
  Returns df.

(** ** features.py: cleaning, selection, orchestration *)

(** The data-cleaning block of [engineer_features]:
    [dropna(thresh=int(len(df.columns) * 0.7))], forward fill, backward fill,
    [dropna()]. *)
Definition clean_data (df : DataFrame) : DataFrame :=
  let thresh :=
    int_of_float (PrimFloat.mul (float_of_nat (List.length (columns df))) 0.7%float) in
  let df := dropna_thresh thresh df in
  let df := map_cols bfill (map_cols ffill df) in
  dropna df.

(** scikit-learn's [f_oneway] on the per-class samples of one feature. *)
Definition f_oneway (args : list (list float)) : float :=
  let n_classes := List.length args in
  let n_samples := fold_left Nat.add (map (@List.length float) args) O in
  let sq x := PrimFloat.mul x x in
  let ss_alldata := fsum (map (fun a => fsum (map sq a)) args) in
  let sums_args := map fsum args in
  let square_of_sums_alldata := sq (fsum sums_args) in
  let sstot := PrimFloat.sub ss_alldata
                 (PrimFloat.div square_of_sums_alldata (float_of_nat n_samples)) in
  let ssbn :=
    PrimFloat.sub
      (fsum (map (fun a => PrimFloat.div (sq (fsum a)) (float_of_nat (List.length a))) args))
      (PrimFloat.div square_of_sums_alldata (float_of_nat n_samples)) in
  let sswn := PrimFloat.sub sstot ssbn in
  let msb := PrimFloat.div ssbn (float_of_nat (n_classes - 1)) in
  let msw := PrimFloat.div sswn (float_of_nat (n_samples - n_classes)) in
  PrimFloat.div msb msw.

Fixpoint dedup_sorted (xs : list float) : list float :=
  match xs with
  | [] => []
  | x :: rest =>
      match rest with
      | [] => [x]
      | y :: _ => if PrimFloat.eqb x y then dedup_sorted rest else x :: dedup_sorted rest
      end
  end.

(** [np.unique(y)] *)
Definition np_unique (y : Series) : list float := dedup_sorted (sort_floats y).

(** scikit-learn's [f_classif] score of one feature column against [y]. *)
Definition f_classif (x y : Series) : float :=
  f_oneway
    (map (fun k => map fst (filter (fun p => PrimFloat.eqb (snd p) k) (combine x y)))
         (np_unique y)).

(** [np.finfo(np.float64).min] *)
Definition float64_min : float := (-0x1.fffffffffffffp+1023)%float.

Definition clean_nans (scores : list float) : list float :=
  map (fun x => if isna x then float64_min else x) scores.

Fixpoint insert_by_score (p : nat * float) (l : list (nat * float))
  : list (nat * float) :=
  match l with
  | [] => [p]
  | q :: rest =>
      if PrimFloat.leb (snd p) (snd q) then p :: l else q :: insert_by_score p rest
  end.

(** [np.argsort(scores, kind="mergesort")]: the indices in ascending order
    of score, ties in index order. *)
Definition argsort (scores : list float) : list nat :=
  map fst (fold_right insert_by_score []
             (combine (seq 0 (List.length scores)) scores)).

Definition lastn {A : Type} (k : nat) (l : list A) : list A :=
  skipn (List.length l - k) l.

(** [SelectKBest.fit]: input validation, then the scores of every feature. *)
Definition fit (score_func : Series -> Series -> float) (k : Z)
  (X : DataFrame) (y : Series) : outcome (list float) :=
  if (List.length y =? 0)%nat || list_falsy X
     || negb (forallb (fun c => forallb is_finite (snd c)) X && forallb is_finite y)
  then Raises ValueError
  else if (k <? 0) || (Z.of_nat (List.length X) <? k) then Raises ValueError
  else Returns (map (fun c => score_func (snd c) y) X).

(** [SelectKBest._get_support_mask] *)
Definition get_support_mask (k : Z) (scores : list float) : list bool :=
  if k =? 0 then map (fun _ => false) scores
  else
    let top := lastn (Z.to_nat k) (argsort (clean_nans scores)) in
    map (fun i => existsb (Nat.eqb i) top) (seq 0 (List.length scores)).

(** [[xs[i] for i in get_support(indices=True)]] *)
Fixpoint take_masked {A : Type} (mask : list bool) (xs : list A) : list A :=
  match mask, xs with
  | m :: ms, x :: rest => if m then x :: take_masked ms rest else take_masked ms rest
  | _, _ => []
  end.

(** [FeatureEngineer.select_features] *)
Definition select_features (K : Kernels) (cfg : OrganizationConfig)
  (df : DataFrame) (target_col : string) (feature_columns : list string)
  (k : Z) (method : string) : outcome (DataFrame * list string) :=
  X <- select_cols df feature_columns ;;
  y <- getitem df target_col ;;
  let mask :=
    map (fun i => negb (existsb isna (row X i) || isna (cell y i)))
        (seq 0 (List.length y)) in
  let X_clean := keep_rows mask X in
  let y_clean := keep mask y in
  score_func <-
    (if String.eqb method "f_classif" then Returns f_classif
     else if String.eqb method "mutual_info" then Returns (mutual_info_classif K)
     else Raises ValueError) ;;
  let k' := Z.min k (Z.of_nat (List.length feature_columns)) in
  scores <- fit score_func k' X_clean y_clean ;;
  let selected_features := take_masked (get_support_mask k' scores) feature_columns in
  df_selected <-
    select_cols df (selected_features ++ [target_col; timestamp_column (schema cfg)]) ;;
  Returns (df_selected, selected_features).

(** [FeatureEngineer.engineer_features] *)
Definition engineer_features (K : Kernels) (cfg : OrganizationConfig)
  (df : DataFrame) (include_selection : bool) (max_features : Z)
  : outcome (DataFrame * list string) :=
  let sc := schema cfg in
  let df := rename (column_mapping sc) df in
  df <- run_generators K cfg df ;;
  let df := clean_data df in
  let exclude_cols := [target_column sc; timestamp_column sc] in
  let feature_columns :=
    filter (fun col => negb (existsb (String.eqb col) exclude_cols)) (columns df) in
  if include_selection && (max_features <? Z.of_nat (List.length feature_columns)) then
    select_features K cfg df (target_column sc) feature_columns max_features "f_classif"
  else Returns (df, feature_columns).

(** * Example data and proof-support definitions *)

(** Kernels used to run the model on the example tables below.  Datetime
    columns are taken as already parsed; the other entries are simple
    stand-ins, and every theorem holds for all kernels. *)
Definition example_kernels : Kernels :=
  {| is_datetime64 := fun _ => true;
     to_datetime := fun t => Returns t;
     dt_hour := fun _ => 0%float;
     dt_dayofweek := fun _ => 0%float;
     dt_day := fun _ => 1%float;
     dt_month := fun _ => 1%float;
     dt_quarter := fun _ => 1%float;
     total_seconds := fun d => d;
     np_sin := fun x => x;
     np_cos := fun x => x;
     quantile := fun s _ => agg_median (filter notna s);
     polyfit_slope := fun _ => 0%float;
     mutual_info_classif := fun _ _ => 0%float |}.

(** ** Column writes

    The lag, rolling and rate-of-change stages are sequences of guarded
    column assignments [if src in df.columns: df[dst] = f(df[src])]. *)

Record write : Type := {
  w_src : string;
  w_dst : string;
  w_fun : Series -> Series
}.

Fixpoint exec_writes (ws : list write) (df : DataFrame) : DataFrame :=
  match ws with
  | [] => df
  | w :: rest =>
      exec_writes rest
        (match get_col df (w_src w) with
         | Some s => set_col df (w_dst w) (w_fun w s)
         | None => df
         end)
  end.

(** The mapped names of the declared continuous columns. *)
Definition mapped_columns (sc : SchemaConfig) : list string :=
  map (get_mapped_column sc) (continuous_columns sc).

(** The sample count derived from a lag in seconds. *)
Definition lag_period (cfg : OrganizationConfig) (lag_sec : Z) : nat :=
  Z.to_nat (Z.max 1 (lag_sec / (sampling_interval_minutes (data cfg) * 60))).

(** Every configured lag gives a period that fits [int64]. *)
Definition lag_periods_fit (cfg : OrganizationConfig) : Prop :=
  Forall (fun lag_sec =>
            lag_sec / (sampling_interval_minutes (data cfg) * 60) <= int64_max)
         (lag_seconds (schema cfg)).

(** Every configured window is a row count that pandas accepts. *)
Definition windows_fit (sc : SchemaConfig) : Prop :=
  Forall (fun window => 1 <= window <= int64_max) (rolling_windows sc).

Definition lag_writes (cfg : OrganizationConfig) : list write :=
  flat_map
    (fun mapped_col =>
       map (fun lag_sec =>
              {| w_src := mapped_col;
                 w_dst := lag_name mapped_col lag_sec;
                 w_fun := shift (lag_period cfg lag_sec) |})
           (lag_seconds (schema cfg)))
    (mapped_columns (schema cfg)).

Definition rolling_stats : list (string * (list float -> float)) :=
  [("mean", agg_mean); ("std", agg_std); ("min", agg_min); ("max", agg_max);
   ("median", agg_median)].

Definition window_writes (mapped_col : string) (window : Z) : list write :=
  map (fun st =>
         {| w_src := mapped_col;
            w_dst := rolling_name mapped_col (fst st) window;
            w_fun := rolling (Z.to_nat window) 1 (snd st) |})
      rolling_stats.

Definition rolling_writes (sc : SchemaConfig) : list write :=
  flat_map
    (fun mapped_col => flat_map (window_writes mapped_col) (rolling_windows sc))
    (mapped_columns sc).

Definition roc_stats : list (string * (Series -> Series)) :=
  [("_roc", diff); ("_acceleration", fun s => diff (diff s));
   ("_pct_change", pct_change)].

Definition roc_writes (sc : SchemaConfig) : list write :=
  flat_map
    (fun mapped_col =>
       map (fun st =>
              {| w_src := mapped_col;
                 w_dst := (mapped_col ++ fst st)%string;
                 w_fun := snd st |})
           roc_stats)
    (mapped_columns sc).

(** No derived column name is the name of a declared continuous column
    (the schema has no naming collision). *)
Definition dst_fresh (ws : list write) (sc : SchemaConfig) : Prop :=
  forall w, In w ws -> ~ In (w_dst w) (mapped_columns sc).

Definition lag_names_fresh (cfg : OrganizationConfig) : Prop :=
  forall col lag_sec,
    In col (continuous_columns (schema cfg)) ->
    In lag_sec (lag_seconds (schema cfg)) ->
    ~ In (lag_name (get_mapped_column (schema cfg) col) lag_sec)
         (mapped_columns (schema cfg)).

Definition chars (s : string) : list ascii := list_ascii_of_string s.

(** Example configuration and tables. *)
Definition example_schema : SchemaConfig :=
  {| continuous_columns := ["x"];
     boolean_columns := [];
     column_mapping := [];
     lag_seconds := [300; 900];
     rolling_windows := [2];
     target_column := "y";
     timestamp_column := "timestamp" |}.

Definition example_config : OrganizationConfig :=
  {| organization_id := "org";
     scada_db := {| host := "localhost"; port := 5432; database := "scada";
                    user := "postgres"; password := "";
                    ssl_mode := "prefer"; connection_timeout := 30 |};
     schema := example_schema;
     training := {| validation_split := 0.2%float; test_split := 0.1%float |};
     data := {| start_date := naive 0; end_date := naive 86400;
                min_samples := 1000;
                max_samples := 100000; sampling_interval_minutes := 5 |} |}.

Definition example_table : DataFrame :=
  [("x", [1; 2; 4; 0; 3]%float); ("y", [0; 1; 0; 1; 1]%float)].

Definition numeric_chars : list ascii := chars "0123456789-".

Definition stat_names : list string := map fst rolling_stats.

Definition rolling_names_fresh (sc : SchemaConfig) : Prop :=
  forall col stat window,
    In col (continuous_columns sc) ->
    In stat stat_names ->
    In window (rolling_windows sc) ->
    ~ In (rolling_name (get_mapped_column sc col) stat window) (mapped_columns sc).

(** The observations of the trailing window ending at row [i]: its finite
    values. *)
Definition valid_obs (window : nat) (s : Series) (i : nat) : list float :=
  filter is_finite (window_at window s i).

(** One guarded assignment whose source column is present. *)
Definition apply_write (w : write) (df : DataFrame) : DataFrame :=
  set_col df (w_dst w) (w_fun w (loc df (w_src w))).

Definition roc_suffixes : list string := map fst roc_stats.

Definition roc_names_fresh (sc : SchemaConfig) : Prop :=
  forall col suffix,
    In col (continuous_columns sc) ->
    In suffix roc_suffixes ->
    ~ In (get_mapped_column sc col ++ suffix)%string (mapped_columns sc).

(** A table whose column [x] holds a zero followed by a non-zero reading. *)
Definition zero_then_one_table : DataFrame :=
  [("x", [0; 1]%float); ("y", [0; 1]%float)].

(** A zero divisor of the quotient that the interaction stage guards. *)
Definition zero_pressure_table : DataFrame :=
  [("temperature", [1; 2]%float); ("pressure", [0; 0]%float)].

(** The timed example with a zero among its readings. *)
Definition zero_reading_table : DataFrame :=
  [("timestamp", [0; 300; 600; 900; 1200; 1500]%float);
   ("x", [1; 0; 4; 3; 5; 7]%float);
   ("y", [0; 1; 0; 1; 1; 0]%float)].

(** Every column of [df] is still a column of [df']. *)
Definition extends (df df' : DataFrame) : Prop :=
  forall c, In c (columns df) -> In c (columns df').

(** The columns of [out] that [df] does not have. *)
Definition added_columns (df out : DataFrame) : list string :=
  filter (fun c => negb (has_col df c)) (columns out).

(** The four statistics listed by [get_all_feature_columns]. *)
Definition listed_stats : list string := ["mean"; "std"; "min"; "max"].

(** The mapped names of all declared columns. *)
Definition declared_columns (sc : SchemaConfig) : list string :=
  map (get_mapped_column sc) (continuous_columns sc ++ boolean_columns sc).

(** No declared column bears the name of a listed derived feature. *)
Definition declared_names_fresh (sc : SchemaConfig) : Prop :=
  forall name col,
    In name (declared_columns sc) ->
    In col (continuous_columns sc) ->
    (forall lag_sec, In lag_sec (lag_seconds sc) ->
                     name <> lag_name (get_mapped_column sc col) lag_sec) /\
    (forall stat window, In stat listed_stats -> In window (rolling_windows sc) ->
                         name <> rolling_name (get_mapped_column sc col) stat window).

(** The names [get_all_feature_columns] lists for one continuous column. *)
Definition listed_features (sc : SchemaConfig) (mapped_col : string) : list string :=
  [mapped_col]
    ++ map (lag_name mapped_col) (lag_seconds sc)
    ++ flat_map
         (fun window => map (fun stat => rolling_name mapped_col stat window) listed_stats)
         (rolling_windows sc).

(** Every column of the frame has [n] rows. *)
Definition has_rows (n : nat) (df : DataFrame) : Prop :=
  Forall (fun c => List.length (snd c) = n) df.

(** No cell of the frame is missing. *)
Definition all_valid (df : DataFrame) : Prop :=
  Forall (fun c => forallb notna (snd c) = true) df.

(** The row threshold of the cleaning step for a frame of [n] columns. *)
Definition row_threshold (n : nat) : Z :=
  int_of_float (PrimFloat.mul (float_of_nat n) 0.7%float).

(** A table with gaps: the second row holds one value out of three. *)
Definition sparse_table : DataFrame :=
  [("a", [1; nan; 3; 4]%float);
   ("b", [nan; nan; 5; nan]%float);
   ("c", [7; 8; nan; 9]%float)].

(** The candidate-feature test of [engineer_features]: the column is
    neither the target nor the timestamp column. *)
Definition is_candidate (sc : SchemaConfig) (col : string) : bool :=
  negb (existsb (String.eqb col) [target_column sc; timestamp_column sc]).

(** A table with a timestamp column, on which the selection step runs. *)
Definition timed_table : DataFrame :=
  [("timestamp", [0; 300; 600; 900; 1200; 1500]%float);
   ("x", [1; 2; 4; 3; 5; 7]%float);
   ("y", [0; 1; 0; 1; 1; 0]%float)].

(** A single reading: every lagged and differenced feature is missing. *)
Definition single_row_table : DataFrame :=
  [("x", [1]%float); ("y", [0]%float)].

(** What the generator stages make of [single_row_table]. *)
Definition single_row_generated : DataFrame :=
  Eval vm_compute in
    match run_generators example_kernels example_config single_row_table with
    | Returns g => g
    | Raises _ => []
    end.


(** The rows [select_features] keeps: no missing feature and no missing target. *)
Definition eligible_mask (X : DataFrame) (y : Series) : list bool :=
  map (fun i => negb (existsb isna (row X i) || isna (cell y i)))
      (seq 0 (List.length y)).


(** Three features of increasing relevance to the target [y]. *)
Definition scored_table : DataFrame :=
  [("timestamp", [0; 300; 600; 900]%float);
   ("a", [1; 2; 1; 2]%float);
   ("b", [1; 2; 5; 7]%float);
   ("c", [1; 1.5; 7; 7.5]%float);
   ("y", [0; 0; 1; 1]%float)].

(** The example configuration with another sampling interval, and with
    other rolling windows. *)
Definition with_sampling_interval (cfg : OrganizationConfig) (minutes : Z)
  : OrganizationConfig :=
  {| organization_id := organization_id cfg;
     scada_db := scada_db cfg;
     schema := schema cfg;
     training := training cfg;
     data := {| start_date := start_date (data cfg);
                end_date := end_date (data cfg);
                min_samples := min_samples (data cfg);
                max_samples := max_samples (data cfg);
                sampling_interval_minutes := minutes |} |}.

Definition with_rolling_windows (cfg : OrganizationConfig) (windows : list Z)
  : OrganizationConfig :=
  {| organization_id := organization_id cfg;
     scada_db := scada_db cfg;
     schema := {| continuous_columns := continuous_columns (schema cfg);
                  boolean_columns := boolean_columns (schema cfg);
                  column_mapping := column_mapping (schema cfg);
                  lag_seconds := lag_seconds (schema cfg);
                  rolling_windows := windows;
                  target_column := target_column (schema cfg);
                  timestamp_column := timestamp_column (schema cfg) |};
     training := training cfg;
     data := data cfg |}.

(** * Further definitions: the rest of [config.py] and [features.py] *)

(** A table one column of which holds no value at all. *)
Definition empty_column_table : DataFrame :=
  [("a", [1; 2]%float); ("b", [nan; nan]%float); ("c", [3; 4]%float)].

(** ** Python string operations *)

Fixpoint is_prefix (p s : list ascii) : bool :=
  match p, s with
  | [], _ => true
  | a :: p', b :: s' => Ascii.eqb a b && is_prefix p' s'
  | _ :: _, [] => false
  end.

(** [sub in s] *)
Fixpoint contains_chars (sub s : list ascii) : bool :=
  is_prefix sub s
  || match s with
     | [] => false
     | _ :: rest => contains_chars sub rest
     end.

Definition str_contains (sub s : string) : bool :=
  contains_chars (chars sub) (chars s).

(** [s.endswith(suffix)] *)
Definition str_endswith (s suffix : string) : bool :=
  is_prefix (rev (chars suffix)) (rev (chars s)).

(** [s.startswith(prefix)] *)
Definition str_startswith (s prefix : string) : bool :=
  is_prefix (chars prefix) (chars s).

(** [s.replace(old, new)] for a non-empty [old]: the occurrences of [old]
    are replaced from left to right, without overlap; [skip] counts the
    characters of a matched occurrence still to be passed over. *)
Fixpoint replace_chars (old new : list ascii) (skip : nat) (s : list ascii)
  : list ascii :=
  match s with
  | [] => []
  | c :: rest =>
      match skip with
      | S k => replace_chars old new k rest
      | O =>
          if is_prefix old s
          then new ++ replace_chars old new (List.length old - 1) rest
          else c :: replace_chars old new 0 rest
      end
  end.

(** With an empty [old], Python inserts [new] before every character and at
    the end. *)
Definition str_replace (s old new : string) : string :=
  match chars old with
  | [] =>
      string_of_list_ascii
        (flat_map (fun c => chars new ++ [c]) (chars s) ++ chars new)
  | _ =>
      string_of_list_ascii (replace_chars (chars old) (chars new) 0 (chars s))
  end.

(** ** config.py: [ConfigManager] and the built-in defaults *)

(** [posixpath.join(a, b)] *)
Definition path_join (a b : string) : string :=
  if str_startswith b "/" then b
  else if str_falsy a || str_endswith a "/" then (a ++ b)%string
  else (a ++ "/" ++ b)%string.

(** The f-string [f'{organization_id}_config.json']. *)
Definition config_file_name (organization_id : string) : string :=
  (organization_id ++ "_config.json")%string.

(** [ConfigManager.get_config_path] *)
Definition get_config_path (config_dir organization_id : string) : string :=
  path_join config_dir (config_file_name organization_id).

(** [ConfigManager.list_organizations], [listing] being the result of
    [os.listdir(self.config_dir)]. *)
Definition list_organizations (listing : list string) : list string :=
  map (fun filename => str_replace filename "_config.json" "")
      (filter (fun filename => str_endswith filename "_config.json") listing).

(** ** config.py: configuration dicts

    A configuration dict is a JSON object as [json.load] returns it. *)

#[local] Unset Elimination Schemes.

Inductive json : Type :=
| JNull
| JBool (b : bool)
| JInt (z : Z)
| JFloat (x : float)
| JStr (s : string)
| JList (l : list json)
| JDict (d : list (string * json)).

#[local] Set Elimination Schemes.

Definition jdict : Type := list (string * json).

(** [d.get(k)] *)
Fixpoint jget (d : jdict) (k : string) : option json :=
  match d with
  | [] => None
  | (k', v) :: rest => if String.eqb k' k then Some v else jget rest k
  end.

(** Python truthiness of a JSON value. *)
Definition json_truthy (v : json) : bool :=
  match v with
  | JNull => false
  | JBool b => b
  | JInt z => negb (z =? 0)
  | JFloat x => negb (PrimFloat.eqb x 0%float)
  | JStr s => negb (str_falsy s)
  | JList l => negb (list_falsy l)
  | JDict d => negb (list_falsy d)
  end.

(** The result of building a configuration from a dict.  Python stores
    whatever value the dict holds under a key; [Dynamic] stands for the
    configurations that hold a value of another type than the dataclass
    field declares, which the typed records of this development do not
    represent. *)
Inductive loaded (A : Type) : Type :=
| Loaded (a : A)
| LoadRaises (e : exn)
| Dynamic.

Arguments Loaded {A} a.
Arguments LoadRaises {A} e.
Arguments Dynamic {A}.

Definition lbind {A B : Type} (m : loaded A) (k : A -> loaded B) : loaded B :=
  match m with
  | Loaded a => k a
  | LoadRaises e => LoadRaises e
  | Dynamic => Dynamic
  end.

Notation "x <~ m ;; k" := (lbind m (fun x => k))
  (at level 61, m at next level, right associativity).

Definition of_outcome {A : Type} (m : outcome A) : loaded A :=
  match m with
  | Returns a => Loaded a
  | Raises e => LoadRaises e
  end.

Fixpoint lmap_m {A B : Type} (f : A -> loaded B) (xs : list A) : loaded (list B) :=
  match xs with
  | [] => Loaded []
  | x :: rest => y <~ f x ;; ys <~ lmap_m f rest ;; Loaded (y :: ys)
  end.

(** Typed readings of a JSON value. *)
Definition read_str (v : json) : loaded string :=
  match v with
  | JStr s => Loaded s
  | _ => Dynamic
  end.

Definition read_int (v : json) : loaded Z :=
  match v with
  | JInt z => Loaded z
  | _ => Dynamic
  end.

Definition read_float (v : json) : loaded float :=
  match v with
  | JFloat x => Loaded x
  | _ => Dynamic
  end.

Definition read_list {A : Type} (read : json -> loaded A) (v : json)
  : loaded (list A) :=
  match v with
  | JList l => lmap_m read l
  | _ => Dynamic
  end.

Definition read_str_dict (v : json) : loaded (list (string * string)) :=
  match v with
  | JDict d => lmap_m (fun kv => s <~ read_str (snd kv) ;; Loaded (fst kv, s)) d
  | _ => Dynamic
  end.

(** [d.get(k)] read at the field's type; [None] when the key is absent. *)
Definition opt_field {A : Type} (read : json -> loaded A) (d : jdict) (k : string)
  : loaded (option A) :=
  match jget d k with
  | None => Loaded None
  | Some v => a <~ read v ;; Loaded (Some a)
  end.

(** [d.get(k, default)] read at the field's type. *)
Definition field {A : Type} (read : json -> loaded A) (d : jdict) (k : string)
  (default : A) : loaded A :=
  v <~ opt_field read d k ;; Loaded (dict_get_or v default).

(** [self.config_dict.get(k, {})] *)
Definition section (config_dict : jdict) (k : string) : loaded jdict :=
  match jget config_dict k with
  | None => Loaded []
  | Some (JDict s) => Loaded s
  | Some _ => Dynamic
  end.

(** What the configuration code asks of its environment: [os.getenv],
    Python's [int] on a string, [datetime.now()] (a naive datetime, given by
    its seconds), the ISO format of datetimes, and whether [open(path, 'w')]
    succeeds (it raises for a path in a missing directory, among others). *)
Record Environment : Type := {
  getenv : string -> option string;
  py_int : string -> outcome Z;
  now : Z;
  isoformat : datetime -> string;
  fromisoformat : string -> outcome datetime;
  open_for_writing : string -> outcome unit
}.

(** [os.getenv(name, default)] *)
Definition getenv_or (E : Environment) (name default : string) : string :=
  dict_get_or (getenv E name) default.

(** [OrganizationConfig._init_scada_db_config]; the fallback of the port is
    evaluated, and can raise, whether or not the dict holds a port. *)
Definition init_scada_db_config (E : Environment) (config_dict : jdict)
  : loaded ScadaDbConfig :=
  db_config <~ section config_dict "scadaDbConfig" ;;
  h <~ field read_str db_config "host" (getenv_or E "SCADA_DB_HOST" "localhost") ;;
  default_port <~ of_outcome (py_int E (getenv_or E "SCADA_DB_PORT" "5432")) ;;
  p <~ field read_int db_config "port" default_port ;;
  d <~ field read_str db_config "database" (getenv_or E "SCADA_DB_NAME" "scada") ;;
  u <~ field read_str db_config "user" (getenv_or E "SCADA_DB_USER" "postgres") ;;
  pw <~ field read_str db_config "password" (getenv_or E "SCADA_DB_PASSWORD" "") ;;
  sm <~ field read_str db_config "sslMode" "prefer" ;;
  ct <~ field read_int db_config "connectionTimeout" 30 ;;
  Loaded {| host := h; port := p; database := d; user := u; password := pw;
            ssl_mode := sm; connection_timeout := ct |}.

(** The [schemaConfig] entry read at the types of [SchemaConfig]. *)
Definition schema_dict_of_json (schema_config : jdict) : loaded SchemaDict :=
  cc <~ opt_field (read_list read_str) schema_config "continuousColumns" ;;
  bc <~ opt_field (read_list read_str) schema_config "booleanColumns" ;;
  cm <~ opt_field read_str_dict schema_config "columnMapping" ;;
  ls <~ opt_field (read_list read_int) schema_config "lagSeconds" ;;
  rw <~ opt_field (read_list read_int) schema_config "rollingWindows" ;;
  tc <~ opt_field read_str schema_config "targetColumn" ;;
  ts <~ opt_field read_str schema_config "timestampColumn" ;;
  Loaded {| continuousColumns := cc; booleanColumns := bc; columnMapping := cm;
            lagSeconds := ls; rollingWindows := rw; targetColumn := tc;
            timestampColumn := ts |}.

(** [OrganizationConfig._init_schema_config] on a configuration dict. *)
Definition init_schema_config_of (config_dict : jdict) : loaded SchemaConfig :=
  schema_config <~ section config_dict "schemaConfig" ;;
  d <~ schema_dict_of_json schema_config ;;
  Loaded (init_schema_config d).

(** [OrganizationConfig._init_training_config]; [lgbParams], when present,
    is merged into the LightGBM parameters, which the record leaves out. *)
Definition init_training_config (config_dict : jdict) : loaded TrainingConfig :=
  training_config <~ section config_dict "trainingConfig" ;;
  vs <~ field read_float training_config "validationSplit" 0.2%float ;;
  ts <~ field read_float training_config "testSplit" 0.1%float ;;
  _ <~ match jget training_config "lgbParams" with
       | None => Loaded tt
       | Some (JDict _) => Loaded tt
       | Some _ => Dynamic
       end ;;
  Loaded {| validation_split := vs; test_split := ts |}.

Definition seconds_per_day : Z := 86400.

(** [OrganizationConfig._init_data_config] *)
Definition init_data_config (E : Environment) (config_dict : jdict)
  : loaded DataConfig :=
  data_config <~ section config_dict "dataConfig" ;;
  let end_date := naive (now E) in
  let start_date := naive (now E - 365 * seconds_per_day) in
  start_date <~
    match jget data_config "startDate" with
    | None => Loaded start_date
    | Some v => s <~ read_str v ;;
                of_outcome (fromisoformat E (str_replace s "Z" "+00:00"))
    end ;;
  end_date <~
    match jget data_config "endDate" with
    | None => Loaded end_date
    | Some v => s <~ read_str v ;;
                of_outcome (fromisoformat E (str_replace s "Z" "+00:00"))
    end ;;
  mn <~ field read_int data_config "minSamples" 1000 ;;
  mx <~ field read_int data_config "maxSamples" 100000 ;;
  si <~ field read_int data_config "samplingIntervalMinutes" 5 ;;
  Loaded {| start_date := start_date; end_date := end_date; min_samples := mn;
            max_samples := mx; sampling_interval_minutes := si |}.

(** [OrganizationConfig.__init__] *)
Definition organization_config_of (E : Environment) (organization_id : string)
  (config_dict : jdict) : loaded OrganizationConfig :=
  db <~ init_scada_db_config E config_dict ;;
  sc <~ init_schema_config_of config_dict ;;
  tr <~ init_training_config config_dict ;;
  dc <~ init_data_config E config_dict ;;
  Loaded {| organization_id := organization_id; scada_db := db; schema := sc;
            training := tr; data := dc |}.

(** [DataConfig.get_date_range_days] *)
Definition get_date_range_days (dc : DataConfig) : outcome Z :=
  days_between (end_date dc) (start_date dc).

(** [OrganizationConfig.to_dict], for the fields the records hold: the
    entries of each section are those of [dataclasses.asdict], under the
    names of the dataclass fields. *)
Definition to_dict (E : Environment) (c : OrganizationConfig) : jdict :=
  [("organizationId", JStr (organization_id c));
   ("scadaDbConfig",
    JDict [("host", JStr (host (scada_db c)));
           ("port", JInt (port (scada_db c)));
           ("database", JStr (database (scada_db c)));
           ("user", JStr (user (scada_db c)));
           ("password", JStr (password (scada_db c)));
           ("ssl_mode", JStr (ssl_mode (scada_db c)));
           ("connection_timeout", JInt (connection_timeout (scada_db c)))]);
   ("schemaConfig",
    JDict [("continuous_columns", JList (map JStr (continuous_columns (schema c))));
           ("boolean_columns", JList (map JStr (boolean_columns (schema c))));
           ("column_mapping",
            JDict (map (fun kv => (fst kv, JStr (snd kv))) (column_mapping (schema c))));
           ("lag_seconds", JList (map JInt (lag_seconds (schema c))));
           ("rolling_windows", JList (map JInt (rolling_windows (schema c))));
           ("target_column", JStr (target_column (schema c)));
           ("timestamp_column", JStr (timestamp_column (schema c)))]);
   ("trainingConfig",
    JDict [("validation_split", JFloat (validation_split (training c)));
           ("test_split", JFloat (test_split (training c)))]);
   ("dataConfig",
    JDict [("start_date", JStr (isoformat E (start_date (data c))));
           ("end_date", JStr (isoformat E (end_date (data c))));
           ("min_samples", JInt (min_samples (data c)));
           ("max_samples", JInt (max_samples (data c)));
           ("sampling_interval_minutes", JInt (sampling_interval_minutes (data c)))])].

(** [OrganizationConfig.load_from_file], on the dict that [json.load]
    returned. *)
Definition load_from_dict (E : Environment) (config_dict : jdict)
  : loaded OrganizationConfig :=
  match jget config_dict "organizationId" with
  | None => LoadRaises ValueError
  | Some v =>
      if json_truthy v
      then organization_id <~ read_str v ;;
           organization_config_of E organization_id config_dict
      else LoadRaises ValueError
  end.

(** A file system holding JSON documents: [save_to_file] stores the dict,
    [json.load] of a file that [json.dump] wrote returning the dict that
    was dumped. *)
Definition files : Type := list (string * jdict).

Fixpoint read_file (fs : files) (path : string) : option jdict :=
  match fs with
  | [] => None
  | (p, d) :: rest => if String.eqb p path then Some d else read_file rest path
  end.

(** [ConfigManager.save_config]: [save_to_file] opens the file for writing,
    which can raise, and dumps the dict into it. *)
Definition save_config (E : Environment) (config_dir : string)
  (config : OrganizationConfig) (fs : files) : outcome files :=
  let config_path := get_config_path config_dir (organization_id config) in
  _ <- open_for_writing E config_path ;;
  Returns ((config_path, to_dict E config) :: fs).

(** [ConfigManager.load_config]: the file when it exists, the defaults
    otherwise. *)
Definition load_config (E : Environment) (config_dir organization_id : string)
  (fs : files) : loaded OrganizationConfig :=
  match read_file fs (get_config_path config_dir organization_id) with
  | Some config_dict => load_from_dict E config_dict
  | None => organization_config_of E organization_id []
  end.


(** The three built-in defaults. *)
Definition manufacturing_defaults : jdict :=
  [("schemaConfig",
    JDict [("continuousColumns",
            JList (map JStr ["temperature"; "pressure"; "flow_rate"; "vibration";
                             "current"; "voltage"; "rpm"; "power_consumption"]));
           ("booleanColumns",
            JList (map JStr ["pump_status"; "valve_open"; "alarm_active";
                             "maintenance_mode"]));
           ("lagSeconds", JList (map JInt [60; 120; 300]));
           ("rollingWindows", JList (map JInt [5; 10; 20]))]);
   ("trainingConfig",
    JDict [("lgbParams",
            JDict [("num_leaves", JInt 31);
                   ("learning_rate", JFloat 0.05%float);
                   ("num_iterations", JInt 200)])])].

Definition power_generation_defaults : jdict :=
  [("schemaConfig",
    JDict [("continuousColumns",
            JList (map JStr ["generator_temp"; "turbine_speed"; "power_output";
                             "fuel_flow"; "exhaust_temp"; "oil_pressure";
                             "coolant_temp"]));
           ("booleanColumns",
            JList (map JStr ["generator_online"; "turbine_running";
                             "fault_detected"]));
           ("lagSeconds", JList (map JInt [30; 60; 180]));
           ("rollingWindows", JList (map JInt [3; 6; 12]))])].

Definition water_treatment_defaults : jdict :=
  [("schemaConfig",
    JDict [("continuousColumns",
            JList (map JStr ["ph_level"; "turbidity"; "chlorine_level";
                             "flow_rate"; "pressure"; "temperature";
                             "conductivity"]));
           ("booleanColumns",
            JList (map JStr ["pump_running"; "filter_active";
                             "chemical_feed_on"]));
           ("lagSeconds", JList (map JInt [120; 300; 600]));
           ("rollingWindows", JList (map JInt [10; 20; 40]))])].

Definition DEFAULT_CONFIGS : list (string * jdict) :=
  [("manufacturing", manufacturing_defaults);
   ("power_generation", power_generation_defaults);
   ("water_treatment", water_treatment_defaults)].

(** [get_default_config_for_type]:
    [DEFAULT_CONFIGS.get(organization_type, DEFAULT_CONFIGS['manufacturing'])] *)
Definition get_default_config_for_type (organization_type : string) : jdict :=
  match find (fun kv => String.eqb (fst kv) organization_type) DEFAULT_CONFIGS with
  | Some kv => snd kv
  | None => manufacturing_defaults
  end.

(** [ConfigManager.create_default_config]: the configuration is built and
    validated, the validation errors, if any, are logged as one warning, and
    the configuration is saved and returned.  The result holds the
    configuration, the logged warnings and the file system after the
    save. *)
Definition create_default_config (E : Environment) (config_dir : string)
  (organization_id : string) (overrides : option jdict) (fs : files)
  : loaded (OrganizationConfig * list (list string) * files) :=
  let config_dict := dict_get_or overrides [] in
  config <~ organization_config_of E organization_id config_dict ;;
  errors <~ of_outcome (validate config) ;;
  let log := if list_falsy errors then [] else [errors] in
  fs' <~ of_outcome (save_config E config_dir config fs) ;;
  Loaded (config, log, fs').

(** The schema without any override. *)
Definition no_overrides : SchemaDict :=
  {| continuousColumns := None; booleanColumns := None; columnMapping := None;
     lagSeconds := None; rollingWindows := None; targetColumn := None;
     timestampColumn := None |}.

Definition default_training : TrainingConfig :=
  {| validation_split := 0.2%float; test_split := 0.1%float |}.

(** The data section without any override: the last 365 days. *)
Definition default_data (E : Environment) : DataConfig :=
  {| start_date := naive (now E - 365 * seconds_per_day);
     end_date := naive (now E);
     min_samples := 1000; max_samples := 100000; sampling_interval_minutes := 5 |}.

(** An environment without variables, for the examples. *)
Definition example_environment : Environment :=
  {| getenv := fun _ => None;
     py_int := fun s => if String.eqb s "5432" then Returns 5432 else Raises ValueError;
     now := 1700000000;
     isoformat := fun t => str (seconds t);
     fromisoformat := fun _ => Raises ValueError;
     open_for_writing := fun _ => Returns tt |}.



(** ** Checking a schema for name collisions *)

Definition lag_names (sc : SchemaConfig) : list string :=
  flat_map (fun col => map (lag_name (get_mapped_column sc col)) (lag_seconds sc))
           (continuous_columns sc).

Definition rolling_names (sc : SchemaConfig) : list string :=
  flat_map
    (fun col =>
       flat_map
         (fun window =>
            map (fun stat => rolling_name (get_mapped_column sc col) stat window)
                stat_names)
         (rolling_windows sc))
    (continuous_columns sc).

Definition roc_names (sc : SchemaConfig) : list string :=
  flat_map
    (fun col => map (fun suffix => (get_mapped_column sc col ++ suffix)%string)
                    roc_suffixes)
    (continuous_columns sc).

(** Whether the table holds one of the declared continuous columns, under
    its mapped name. *)
Definition declared_column_present (sc : SchemaConfig) (df : DataFrame) : bool :=
  existsb (fun col => has_col df (get_mapped_column sc col)) (continuous_columns sc).

(** Whether some configured lag gives a period that does not fit [int64]. *)
Definition lag_period_overflows (cfg : OrganizationConfig) : bool :=
  existsb (fun lag_sec =>
             int64_max <? lag_sec / (sampling_interval_minutes (data cfg) * 60))
          (lag_seconds (schema cfg)).



(** None of [names] is the mapped name of a declared continuous column. *)
Definition names_fresh_b (sc : SchemaConfig) (names : list string) : bool :=
  forallb (fun n => negb (existsb (String.eqb n) (mapped_columns sc))) names.

Fixpoint distinct_b (l : list string) : bool :=
  match l with
  | [] => true
  | x :: rest => negb (existsb (String.eqb x) rest) && distinct_b rest
  end.

(** A configuration on which the generators are well defined: a positive
    sampling interval, lag periods and windows that are row counts pandas
    accepts, a target, and no collision between derived and declared
    names. *)
Definition well_formed_b (cfg : OrganizationConfig) : bool :=
  let sc := schema cfg in
  negb (list_falsy (continuous_columns sc))
  && negb (str_falsy (target_column sc))
  && (0 <? sampling_interval_minutes (data cfg))
  && forallb (fun lag_sec =>
                lag_sec / (sampling_interval_minutes (data cfg) * 60) <=? int64_max)
             (lag_seconds sc)
  && forallb (fun w => (1 <=? w) && (w <=? int64_max)) (rolling_windows sc)
  && names_fresh_b sc (lag_names sc)
  && names_fresh_b sc (rolling_names sc)
  && names_fresh_b sc (roc_names sc)
  && distinct_b (get_all_feature_columns sc).

(** The example configuration with the default lags of the manufacturing
    schema. *)
Definition short_lag_config : OrganizationConfig :=
  {| organization_id := organization_id example_config;
     scada_db := scada_db example_config;
     schema := {| continuous_columns := ["x"];
                  boolean_columns := [];
                  column_mapping := [];
                  lag_seconds := [60; 120; 300];
                  rolling_windows := [2];
                  target_column := "y";
                  timestamp_column := "timestamp" |};
     training := training example_config;
     data := data example_config |}.

(** ** features.py: [select_features] *)

(** The conditions under which the selection goes through: every candidate
    and the target are columns of the table, and so is the timestamp
    column; there is at least one candidate; [k] is not negative; at least
    one row has no missing candidate and no missing target; and no infinity
    occurs in those rows. *)
Definition selection_inputs_ok (cfg : OrganizationConfig) (df : DataFrame)
  (target_col : string) (feature_columns : list string) (k : Z) : Prop :=
  exists X y,
    select_cols df feature_columns = Returns X /\
    getitem df target_col = Returns y /\
    In (timestamp_column (schema cfg)) (columns df) /\
    feature_columns <> [] /\
    0 <= k /\
    keep (eligible_mask X y) y <> [] /\
    (forall c x, In c (keep_rows (eligible_mask X y) X) -> In x (snd c) ->
                 is_finite x = true) /\
    (forall x, In x (keep (eligible_mask X y) y) -> is_finite x = true).

(** ** features.py: [create_feature_summary] *)

Record FeatureSummary : Type := {
  total_features : nat;
  total_samples : nat;
  feature_types : list (string * nat);
  missing_values : list (string * float);
  target_distribution : list (float * nat)
}.

(** [any(word in col for word in words)] *)
Definition any_word (words : list string) (col : string) : bool :=
  existsb (fun word => str_contains word col) words.

Definition time_words : list string := ["hour"; "day"; "month"; "sin"; "cos"].

Definition domain_words : list string := ["power"; "efficiency"; "health"; "stress"].

Definition base_words : list string :=
  ["_lag_"; "_rolling_"; "_mult"; "_ratio"; "_diff"; "anomaly"; "z_score";
   "hour"; "day"; "month"; "sin"; "cos"; "power"; "efficiency"; "health"; "stress"].

(** The tests that sort a feature name into the categories of the summary. *)
Definition feature_categories : list (string * (string -> bool)) :=
  [("lag", str_contains "_lag_");
   ("rolling", str_contains "_rolling_");
   ("interaction",
    fun col => str_contains "_mult" col || str_contains "_ratio" col
               || str_contains "_diff" col);
   ("time", any_word time_words);
   ("anomaly", fun col => str_contains "anomaly" col || str_contains "z_score" col);
   ("domain", any_word domain_words);
   ("base", fun col => negb (any_word base_words col))].

(** [d[k] = v] on a dict in insertion order. *)
Fixpoint dict_insert {V : Type} (d : list (string * V)) (k : string) (v : V)
  : list (string * V) :=
  match d with
  | [] => [(k, v)]
  | (k', v') :: rest =>
      if String.eqb k' k then (k', v) :: rest else (k', v') :: dict_insert rest k v
  end.

(** [df[col].isna().sum() / len(df) * 100] *)
Definition missing_pct (s : Series) (n : nat) : float :=
  PrimFloat.mul
    (PrimFloat.div (float_of_nat (List.length (filter isna s))) (float_of_nat n))
    100%float.

(** [create_feature_summary]; [value_counts] is the pandas routine of that
    name followed by [to_dict]. *)
Definition create_feature_summary (value_counts : Series -> list (float * nat))
  (df : DataFrame) (feature_columns : list string) (target_col : string)
  : outcome FeatureSummary :=
  missing <-
    for_each feature_columns
      (fun col missing =>
         s <- getitem df col ;;
         let pct := missing_pct s (nrows df) in
         Returns (if PrimFloat.ltb 0 pct then dict_insert missing col pct
                  else missing))
      [] ;;
  Returns
    {| total_features := List.length feature_columns;
       total_samples := nrows df;
       feature_types :=
         map (fun cat => (fst cat, List.length (filter (snd cat) feature_columns)))
             feature_categories;
       missing_values := missing;
       target_distribution :=
         if has_col df target_col then value_counts (loc df target_col) else [] |}.

(** ** features.py: scaling and feature importance *)

(** [df[keys] = values], the columns of a two-dimensional array being
    assigned in turn; pandas rejects an array with another number of
    columns than keys, or with another number of rows than the frame. *)
Definition assign_columns (df : DataFrame) (keys : list string)
  (values : list Series) : outcome DataFrame :=
  if negb (List.length keys =? List.length values)%nat
     || negb (forallb (fun s => (List.length s =? nrows df)%nat) values)
  then Raises ValueError
  else Returns (fold_left (fun d kv => set_col d (fst kv) (snd kv))
                          (combine keys values) df).

(** [FeatureEngineer.apply_feature_scaling].  [fit_transform] stands for
    the [fit_transform] of the scikit-learn scaler of the given kind, and
    returns the columns of the scaled array; the fitted scaler that the
    function also returns is represented by its kind. *)
Definition apply_feature_scaling
  (fit_transform : string -> DataFrame -> outcome (list Series))
  (df : DataFrame) (feature_columns : list string) (scaler_type : string)
  : outcome (DataFrame * string) :=
  scaler <-
    (if String.eqb scaler_type "standard" then Returns "standard"
     else if String.eqb scaler_type "minmax" then Returns "minmax"
     else if String.eqb scaler_type "robust" then Returns "robust"
     else Raises ValueError) ;;
  X <- select_cols df feature_columns ;;
  scaled_features <- fit_transform scaler X ;;
  df_scaled <- assign_columns df feature_columns scaled_features ;;
  Returns (df_scaled, scaler).

(** A trained model, by the attribute that [get_feature_importance] finds
    on it: [feature_importances_], else [feature_importance] (asked for the
    gain), else neither. *)
Inductive trained_model : Type :=
| SklearnModel (feature_importances_ : list float)
| LightGBMModel (feature_importance_gain : list float)
| OtherModel.

(** [dict(pairs)]: a later pair replaces the value of an earlier one with
    the same key. *)
Definition dict_of_pairs {V : Type} (pairs : list (string * V)) : list (string * V) :=
  fold_left (fun d kv => dict_insert d (fst kv) (snd kv)) pairs [].

Fixpoint insert_by_importance (p : string * float) (l : list (string * float))
  : list (string * float) :=
  match l with
  | [] => [p]
  | q :: rest =>
      if PrimFloat.ltb (snd p) (snd q) then q :: insert_by_importance p rest
      else p :: l
  end.

(** [sorted(items, key=lambda x: x[1], reverse=True)]: by decreasing value,
    items of equal value in their original order.  (Python's sort and this
    one agree on values that are totally ordered, hence when no value is
    NaN.) *)
Definition sorted_by_importance (items : list (string * float))
  : list (string * float) :=
  fold_right insert_by_importance [] items.

(** [FeatureEngineer.get_feature_importance] *)
Definition get_feature_importance (model : trained_model)
  (feature_names : list string) : list (string * float) :=
  match model with
  | SklearnModel importances | LightGBMModel importances =>
      let importance_dict := dict_of_pairs (combine feature_names importances) in
      dict_of_pairs (sorted_by_importance importance_dict)
  | OtherModel => []
  end.

(** Order of two (name, importance) items: the first is at least as
    important as the second. *)
Definition importance_ge (p q : string * float) : Prop :=
  PrimFloat.leb (snd q) (snd p) = true.


(** * Properties *)

(** ** Missing values *)

Lemma isna_nan : isna nan = true.
Proof. reflexivity. Qed.

Lemma isna_true_iff (x : float) : isna x = true <-> x = nan.
Proof.
  split; [| intros ->; reflexivity].
  unfold isna, PrimFloat.is_nan. rewrite eqb_spec. intros H.
  apply Prim2SF_inj. change (Prim2SF nan) with S754_nan.
  destruct (Prim2SF x) as [s | s | | s m e]; try reflexivity; simpl in H.
  - discriminate.
  - destruct s; discriminate.
  - unfold SFeqb, SFcompare in H.
    rewrite Z.compare_refl in H.
    assert (Hc : PosDef.Pos.compare_cont Eq m m = Eq) by apply Pos.compare_refl.
    rewrite Hc in H. destruct s; discriminate.
Qed.

Lemma notna_true_iff (x : float) : notna x = true <-> x <> nan.
Proof.
  unfold notna. rewrite negb_true_iff. split.
  - intros H E. apply isna_true_iff in E. congruence.
  - intros H. destruct (isna x) eqn:E; [| reflexivity].
    apply isna_true_iff in E. contradiction.
Qed.

Lemma sub_nan_r (x : float) : PrimFloat.sub x nan = nan.
Proof.
  apply Prim2SF_inj. rewrite sub_spec.
  change (Prim2SF nan) with S754_nan.
  destruct (Prim2SF x) as [s | s | | s m e]; reflexivity.
Qed.

Lemma sub_nan_l (x : float) : PrimFloat.sub nan x = nan.
Proof.
  apply Prim2SF_inj. rewrite sub_spec.
  change (Prim2SF nan) with S754_nan. reflexivity.
Qed.

Lemma div_nan_r (x : float) : PrimFloat.div x nan = nan.
Proof.
  apply Prim2SF_inj. rewrite div_spec.
  change (Prim2SF nan) with S754_nan.
  destruct (Prim2SF x) as [s | s | | s m e]; reflexivity.
Qed.

(** Rounding a non-negative mantissa never yields NaN. *)
Lemma shr_1_nonneg (mrs : shr_record) : 0 <= shr_m mrs -> 0 <= shr_m (shr_1 mrs).
Proof.
  destruct mrs as [m r s]. simpl. intros H.
  destruct m as [| p | p]; [simpl; lia | | lia].
  destruct p; simpl; lia.
Qed.

Lemma iter_shr_1_nonneg (p : positive) (mrs : shr_record) :
  0 <= shr_m mrs -> 0 <= shr_m (iter_pos shr_1 p mrs).
Proof.
  revert mrs. induction p as [p IH | p IH |]; intros mrs H; simpl.
  - apply IH, IH, shr_1_nonneg, H.
  - apply IH, IH, H.
  - apply shr_1_nonneg, H.
Qed.

Lemma shr_fexp_nonneg (m e : Z) (l : location) :
  0 <= m -> 0 <= shr_m (fst (shr_fexp prec emax m e l)).
Proof.
  intros H. unfold shr_fexp, shr.
  assert (H0 : 0 <= shr_m (shr_record_of_loc m l)).
  { destruct l as [| []]; simpl; assumption. }
  destruct (fexp prec emax (Zdigits2 m + e) - e); simpl; try assumption.
  now apply iter_shr_1_nonneg.
Qed.

Lemma round_nearest_even_nonneg (m : Z) (l : location) :
  0 <= m -> 0 <= round_nearest_even m l.
Proof.
  intros H. unfold round_nearest_even.
  destruct l as [| []]; try lia. destruct (IntDef.Z.even m); lia.
Qed.

Lemma binary_round_aux_not_nan (sx : bool) (mx ex : Z) (lx : location) :
  0 <= mx -> binary_round_aux prec emax sx mx ex lx <> S754_nan.
Proof.
  intros H. unfold binary_round_aux.
  pose proof (shr_fexp_nonneg mx ex lx H) as H1.
  destruct (shr_fexp prec emax mx ex lx) as [mrs' e']. simpl in H1.
  pose proof (shr_fexp_nonneg _ e' loc_Exact
                (round_nearest_even_nonneg _ (loc_of_shr_record mrs') H1)) as H2.
  destruct (shr_fexp prec emax _ e' loc_Exact) as [mrs'' e'']. simpl in H2.
  destruct (shr_m mrs''); try discriminate; [| lia].
  destruct (e'' <=? emax - prec); discriminate.
Qed.

Lemma div_one_not_nan (x : float) :
  x <> nan -> PrimFloat.div x 1%float <> nan.
Proof.
  intros Hx E. apply (f_equal Prim2SF) in E. rewrite div_spec in E.
  change (Prim2SF nan) with S754_nan in E.
  assert (Hx' : Prim2SF x <> S754_nan).
  { intros H. apply Hx. apply Prim2SF_inj. exact H. }
  change (Prim2SF 1) with (S754_finite false 4503599627370496 (-52)) in E.
  destruct (Prim2SF x) as [s | s | | s m e]; try discriminate; [contradiction |].
  unfold SF64div, SFdiv in E.
  destruct (SFdiv_core_binary prec emax (Z.pos m) e 4503599627370496 (-52))
    as [[mz ez] lz] eqn:Ec.
  revert E. apply binary_round_aux_not_nan.
  unfold SFdiv_core_binary in Ec.
  match type of Ec with
  | context [IntDef.Z.div_eucl ?a ?b] =>
      pose proof (Z.div_eucl_eq a b) as Hd;
      pose proof (Z.mod_pos_bound a b) as Hm;
      assert (Ha : 0 <= a);
      [| change (IntDef.Z.div_eucl a b) with (Z.div_eucl a b) in Ec;
         unfold Z.modulo in Hm;
         destruct (Z.div_eucl a b) as [q r] eqn:Eq ]
  end.
  - match goal with |- 0 <= match ?s with _ => _ end => destruct s end; try lia.
    apply Z.shiftl_nonneg. lia.
  - injection Ec as <- _ _. 
    assert (0 < 4503599627370496) by lia. specialize (Hd ltac:(lia)). specialize (Hm ltac:(lia)). nia.
Qed.

Lemma add_zero_not_nan (x : float) : x <> nan -> PrimFloat.add 0%float x <> nan.
Proof.
  intros Hx E. apply (f_equal Prim2SF) in E. rewrite add_spec in E.
  change (Prim2SF nan) with S754_nan in E.
  change (Prim2SF 0) with (S754_zero false) in E.
  assert (Hx' : Prim2SF x <> S754_nan).
  { intros H. apply Hx. apply Prim2SF_inj. exact H. }
  destruct (Prim2SF x) as [s | s | | s m e]; simpl in E; try discriminate.
  - destruct s; discriminate.
  - contradiction.
Qed.

(** Division by one is exact on the finite values. *)
Lemma div_eucl_multiple (a q d : Z) :
  d <> 0 -> a = q * d -> Z.div_eucl a d = (q, 0).
Proof.
  intros Hd ->. rewrite (surjective_pairing (Z.div_eucl _ _)).
  change (fst (Z.div_eucl (q * d) d)) with ((q * d) / d).
  change (snd (Z.div_eucl (q * d) d)) with ((q * d) mod d).
  rewrite Z.div_mul by assumption. rewrite Z.mod_mul by assumption. reflexivity.
Qed.

Lemma SFdiv_one (s : bool) (m : positive) (e : Z) :
  bounded prec emax m e = true ->
  SFdiv prec emax (S754_finite s m e) (S754_finite false 4503599627370496 (-52))
  = S754_finite s m e.
Proof.
  unfold bounded, canonical_mantissa. intros H.
  apply andb_true_iff in H. destruct H as [Hc He].
  apply Z.eqb_eq in Hc. apply Z.leb_le in He.
  unfold fexp, emin in Hc. change prec with 53 in *. change emax with 1024 in *.
  unfold SFdiv, SFdiv_core_binary.
  change (Zdigits2 4503599627370496) with 53.
  change (Zdigits2 (Z.pos m)) with (Z.pos (digits2_pos m)).
  set (D := Z.pos (digits2_pos m)) in *.
  assert (HD : 0 < D) by (unfold D; lia).
  unfold fexp, emin. change prec with 53. change emax with 1024.
  rewrite xorb_false_r.
  destruct (Z.eq_dec e (-1074)) as [-> | Hne].
  - replace (Z.min (Z.max (D + -1074 - (53 + -52) - 53) (3 - 1024 - 53)) (-1074 - -52))
      with (-1074) by lia.
    change (-1074 - -52 - -1074) with 52.
    rewrite Z.shiftl_mul_pow2 by lia.
    rewrite (div_eucl_multiple _ (Z.pos m)) by (discriminate || reflexivity).
    change (new_location 4503599627370496 0) with loc_Exact.
    unfold binary_round_aux, shr_fexp.
    change (Zdigits2 (Z.pos m)) with D.
    unfold fexp, emin. change prec with 53. change emax with 1024.
    replace (Z.max (D + -1074 - 53) (3 - 1024 - 53) - -1074) with 0 by lia.
    cbn [shr shr_record_of_loc shr_m loc_of_shr_record round_nearest_even].
    change (Zdigits2 (Z.pos m)) with D.
    replace (Z.max (D + -1074 - 53) (3 - 1024 - 53) - -1074) with 0 by lia.
    cbn [shr shr_record_of_loc shr_m]. reflexivity.
  - assert (HD53 : D = 53) by lia.
    replace (Z.min (Z.max (D + e - (53 + -52) - 53) (3 - 1024 - 53)) (e - -52))
      with (e - 1) by lia.
    replace (e - -52 - (e - 1)) with 53 by lia.
    rewrite Z.shiftl_mul_pow2 by lia.
    rewrite (div_eucl_multiple _ (Z.pos m~0)) by (discriminate || lia).
    change (new_location 4503599627370496 0) with loc_Exact.
    unfold binary_round_aux, shr_fexp.
    change (Zdigits2 (Z.pos m~0)) with (Z.pos (Pos.succ (digits2_pos m))).
    rewrite Pos2Z.inj_succ. fold D.
    unfold fexp, emin. change prec with 53. change emax with 1024.
    replace (Z.max (Z.succ D + (e - 1) - 53) (3 - 1024 - 53) - (e - 1)) with 1 by lia.
    cbn [shr shr_record_of_loc shr_m loc_of_shr_record round_nearest_even
         iter_pos shr_1 orb].
    change (Zdigits2 (Z.pos m)) with D.
    replace (e - 1 + 1) with e by lia.
    replace (Z.max (D + e - 53) (3 - 1024 - 53) - e) with 0 by lia.
    cbn [shr shr_record_of_loc shr_m].
    destruct (Z.leb_spec e (1024 - 53)); [reflexivity | lia].
Qed.

Lemma is_finite_cases (x : float) :
  is_finite x = true ->
  (exists s, Prim2SF x = S754_zero s) \/ (exists s m e, Prim2SF x = S754_finite s m e).
Proof.
  unfold is_finite. rewrite ltb_spec, abs_spec.
  change (Prim2SF infinity) with (S754_infinity false).
  destruct (Prim2SF x) as [s | s | | s m e]; try discriminate; eauto.
Qed.

Lemma is_finite_notna (x : float) : is_finite x = true -> notna x = true.
Proof.
  intros Hx. apply notna_true_iff. intros ->. discriminate Hx.
Qed.

Lemma is_finite_infinity : is_finite infinity = false.
Proof. reflexivity. Qed.

Lemma div_one_exact (x : float) :
  is_finite x = true -> PrimFloat.div x 1%float = x.
Proof.
  intros Hx. apply Prim2SF_inj. rewrite div_spec.
  change (Prim2SF 1) with (S754_finite false 4503599627370496 (-52)).
  pose proof (Prim2SF_valid x) as Hv.
  destruct (is_finite_cases x Hx) as [[s E] | [s [m [e E]]]]; rewrite E in *.
  - simpl. now rewrite xorb_false_r.
  - apply SFdiv_one. exact Hv.
Qed.

Lemma SFcompare_refl_finite (s : bool) (m : positive) (e : Z) :
  SFcompare (S754_finite s m e) (S754_finite s m e) = Some Eq.
Proof.
  unfold SFcompare. destruct s; rewrite Z.compare_refl;
    try rewrite Pos.compare_cont_refl; try rewrite Pos.compare_refl; reflexivity.
Qed.

(** Adding a finite value to zero gives that value (a negative zero
    becoming the positive one). *)
Lemma add_zero_finite (x : float) :
  is_finite x = true ->
  is_finite (PrimFloat.add 0%float x) = true /\
  PrimFloat.eqb (PrimFloat.add 0%float x) x = true.
Proof.
  intros Hx. unfold is_finite in *.
  rewrite eqb_spec. rewrite !ltb_spec, !abs_spec in *. rewrite add_spec.
  change (Prim2SF 0) with (S754_zero false).
  change (Prim2SF infinity) with (S754_infinity false) in *.
  destruct (Prim2SF x) as [s | s | | s m e]; try discriminate.
  - destruct s; split; reflexivity.
  - split; [exact Hx |]. unfold SF64add, SFadd, SFeqb.
    now rewrite SFcompare_refl_finite.
Qed.

(** ** Series *)

Lemma length_shift (p : nat) (s : Series) : List.length (shift p s) = List.length s.
Proof.
  unfold shift. rewrite length_app, repeat_length, length_firstn. lia.
Qed.

Lemma cell_shift (p : nat) (s : Series) (i : nat) :
  (i < List.length s)%nat ->
  cell (shift p s) i = if (i <? p)%nat then nan else cell s (i - p).
Proof.
  intros Hi. unfold shift, cell.
  destruct (Nat.ltb_spec i p) as [Hlt | Hge].
  - rewrite app_nth1 by (rewrite repeat_length; lia).
    apply nth_repeat.
  - rewrite app_nth2 by (rewrite repeat_length; lia).
    rewrite repeat_length.
    replace (Nat.min p (List.length s)) with p by lia.
    rewrite nth_firstn.
    destruct (Nat.ltb_spec (i - p) (List.length s - p)); [reflexivity | lia].
Qed.

Lemma length_diff (s : Series) : List.length (diff s) = List.length s.
Proof. unfold diff. now rewrite length_map, length_seq. Qed.

Lemma cell_map_seq (f : nat -> float) (n i : nat) :
  (i < n)%nat -> cell (map f (seq 0 n)) i = f i.
Proof.
  intros Hi. unfold cell.
  rewrite (nth_indep _ nan (f 0%nat)) by (rewrite length_map, length_seq; lia).
  rewrite (map_nth f (seq 0 n) 0%nat i), seq_nth by lia. reflexivity.
Qed.

Lemma length_rolling (w mp : nat) (agg : list float -> float) (s : Series) :
  List.length (rolling w mp agg s) = List.length s.
Proof. unfold rolling. now rewrite length_map, length_seq. Qed.

(** ** Frames *)

Lemma get_set_same (df : DataFrame) (c : string) (s : Series) :
  get_col (set_col df c s) c = Some s.
Proof.
  induction df as [| [k v] rest IH]; simpl.
  - now rewrite String.eqb_refl.
  - destruct (String.eqb k c) eqn:E; simpl; rewrite E; auto.
Qed.

Lemma get_set_other (df : DataFrame) (c c' : string) (s : Series) :
  c <> c' -> get_col (set_col df c s) c' = get_col df c'.
Proof.
  intros Hne. induction df as [| [k v] rest IH]; simpl.
  - apply String.eqb_neq in Hne. now rewrite Hne.
  - destruct (String.eqb k c) eqn:E; simpl.
    + apply String.eqb_eq in E. subst k.
      apply String.eqb_neq in Hne. now rewrite Hne.
    + now rewrite IH.
Qed.

Lemma has_col_iff (df : DataFrame) (c : string) :
  has_col df c = true <-> In c (columns df).
Proof.
  unfold has_col. induction df as [| [k v] rest IH]; simpl.
  - split; [discriminate | tauto].
  - destruct (String.eqb k c) eqn:E.
    + apply String.eqb_eq in E. tauto.
    + apply String.eqb_neq in E. rewrite IH. split; [tauto |].
      intros [H | H]; [contradiction | assumption].
Qed.

Lemma get_col_some_iff (df : DataFrame) (c : string) :
  (exists s, get_col df c = Some s) <-> In c (columns df).
Proof.
  rewrite <- has_col_iff. unfold has_col.
  destruct (get_col df c); split; eauto; try discriminate.
  intros [s Hs]. discriminate.
Qed.

Lemma loc_get (df : DataFrame) (c : string) (s : Series) :
  get_col df c = Some s -> loc df c = s.
Proof. unfold loc. now intros ->. Qed.

Lemma columns_set (df : DataFrame) (c : string) (s : Series) :
  columns (set_col df c s)
  = if has_col df c then columns df else columns df ++ [c].
Proof.
  unfold has_col. induction df as [| [k v] rest IH]; simpl; [reflexivity |].
  destruct (String.eqb k c) eqn:E; simpl; [reflexivity |].
  rewrite IH. now destruct (get_col rest c).
Qed.

Lemma in_columns_set (df : DataFrame) (c c' : string) (s : Series) :
  In c' (columns (set_col df c s)) <-> c' = c \/ In c' (columns df).
Proof.
  rewrite columns_set. destruct (has_col df c) eqn:E.
  - apply has_col_iff in E. split; [tauto |]. intros [-> | H]; assumption.
  - rewrite in_app_iff. simpl. intuition.
Qed.

Lemma has_col_set (df : DataFrame) (c c' : string) (s : Series) :
  has_col df c' = true -> has_col (set_col df c s) c' = true.
Proof.
  rewrite !has_col_iff, in_columns_set. tauto.
Qed.

(** ** Sequences of column writes *)

Lemma exec_writes_app (a b : list write) (df : DataFrame) :
  exec_writes (a ++ b) df = exec_writes b (exec_writes a df).
Proof.
  revert df. induction a as [| w a IH]; intros df; simpl; [reflexivity |].
  apply IH.
Qed.

Lemma exec_writes_absent (ws : list write) (df : DataFrame) :
  (forall w, In w ws -> get_col df (w_src w) = None) ->
  exec_writes ws df = df.
Proof.
  induction ws as [| w ws IH]; intros H; simpl; [reflexivity |].
  rewrite (H w) by (left; reflexivity).
  apply IH. intros w' Hw'. apply H. now right.
Qed.

Lemma exec_writes_columns (ws : list write) (df : DataFrame) (c : string) :
  In c (columns df) -> In c (columns (exec_writes ws df)).
Proof.
  revert df. induction ws as [| w ws IH]; intros df H; simpl; [assumption |].
  apply IH. destruct (get_col df (w_src w)); [| assumption].
  apply in_columns_set. now right.
Qed.

(** A label that no write targets keeps its column. *)
Lemma exec_writes_frame (ws : list write) (df : DataFrame) (c : string) :
  (forall w, In w ws -> w_dst w <> c) ->
  get_col (exec_writes ws df) c = get_col df c.
Proof.
  revert df. induction ws as [| w ws IH]; intros df H; simpl; [reflexivity |].
  rewrite IH by (intros w' Hw'; apply H; now right).
  destruct (get_col df (w_src w)); [| reflexivity].
  apply get_set_other. apply H. now left.
Qed.

Lemma in_dst_dec (ws : list write) (c : string) :
  (exists w, In w ws /\ w_dst w = c) \/ (forall w, In w ws -> w_dst w <> c).
Proof.
  induction ws as [| w ws IH].
  - right. intros w [].
  - destruct (string_dec (w_dst w) c) as [E | N].
    + left. exists w. split; [now left | assumption].
    + destruct IH as [[w' [Hin Hd]] | Hn].
      * left. exists w'. split; [now right | assumption].
      * right. intros w' [<- | Hin]; auto.
Qed.

(** When no write targets a source column and equal targets mean equal
    source and function, every write's target ends up holding the function
    applied to its source column, as it stood in the input frame. *)
Lemma exec_writes_get (ws : list write) :
  (forall w w', In w ws -> In w' ws -> w_dst w <> w_src w') ->
  (forall w w', In w ws -> In w' ws -> w_dst w = w_dst w' ->
                w_src w = w_src w' /\ forall s, w_fun w s = w_fun w' s) ->
  forall (df : DataFrame) (w : write) (s : Series),
    In w ws -> get_col df (w_src w) = Some s ->
    get_col (exec_writes ws df) (w_dst w) = Some (w_fun w s).
Proof.
  induction ws as [| w0 ws IH]; intros Hsrc Hinj df w s Hin Hget; [destruct Hin |].
  assert (Hsrc' : forall a b, In a ws -> In b ws -> w_dst a <> w_src b)
    by (intros a b Ha Hb; apply Hsrc; now right).
  assert (Hinj' : forall a b, In a ws -> In b ws -> w_dst a = w_dst b ->
                  w_src a = w_src b /\ forall s, w_fun a s = w_fun b s)
    by (intros a b Ha Hb; apply Hinj; now right).
  simpl.
  set (df1 := match get_col df (w_src w0) with
              | Some s0 => set_col df (w_dst w0) (w_fun w0 s0)
              | None => df
              end).
  assert (Hget1 : get_col df1 (w_src w) = Some s).
  { unfold df1. destruct (get_col df (w_src w0)); [| assumption].
    rewrite get_set_other; [assumption |].
    apply Hsrc; [now left | assumption]. }
  destruct (in_dst_dec ws (w_dst w)) as [[w' [Hin' Hd]] | Hn].
  - destruct (Hinj w' w) as [Hs Hf]; [now right | assumption | assumption |].
    rewrite <- Hd, <- Hf. apply IH; auto. now rewrite Hs.
  - rewrite exec_writes_frame by assumption.
    destruct Hin as [-> | Hin]; [| exfalso; exact (Hn w Hin eq_refl)].
    unfold df1. rewrite Hget. apply get_set_same.
Qed.

(** ** Column names *)

Lemma chars_app (a b : string) : chars (a ++ b) = chars a ++ chars b.
Proof.
  unfold chars. induction a as [| c a IH]; simpl; [reflexivity |].
  now rewrite IH.
Qed.

Lemma chars_inj (a b : string) : chars a = chars b -> a = b.
Proof.
  unfold chars. intros H.
  rewrite <- (string_of_list_ascii_of_string a), <- (string_of_list_ascii_of_string b).
  now rewrite H.
Qed.

Lemma append_inv_tail (a b t : string) : (a ++ t = b ++ t)%string -> a = b.
Proof.
  intros H. apply chars_inj. apply (f_equal chars) in H.
  rewrite !chars_app in H. now apply app_inv_tail in H.
Qed.

(** Splitting at the last occurrence of a separator is unambiguous. *)
Lemma sep_split (c : ascii) (a a' b b' : list ascii) :
  ~ In c b -> ~ In c b' -> a ++ c :: b = a' ++ c :: b' -> a = a' /\ b = b'.
Proof.
  intros Hb Hb'. revert a'.
  induction a as [| x a IH]; intros [| y a'] H; simpl in H.
  - injection H as H. auto.
  - injection H as Hc H. subst b. exfalso. apply Hb.
    apply in_or_app. right. now left.
  - injection H as Hc H. subst b'. exfalso. apply Hb'.
    apply in_or_app. right. now left.
  - injection H as Hx H. subst y. destruct (IH a' H) as [-> ->]. auto.
Qed.

Lemma uint_chars (d : Decimal.uint) :
  Forall (fun c => In c numeric_chars) (chars (NilEmpty.string_of_uint d)).
Proof.
  induction d; simpl; constructor; try assumption;
    unfold numeric_chars; simpl; tauto.
Qed.

Lemma str_chars (z : Z) : Forall (fun c => In c numeric_chars) (chars (str z)).
Proof.
  unfold str.
  assert (Hu : forall d, Forall (fun c => In c numeric_chars)
                           (chars (NilZero.string_of_uint d))).
  { intros d. destruct d; try apply uint_chars.
    simpl. constructor; [unfold numeric_chars; simpl; tauto | constructor]. }
  destruct (Z.to_int z) as [d | d]; simpl.
  - apply Hu.
  - constructor; [unfold numeric_chars; simpl; tauto | apply Hu].
Qed.

Lemma str_no_char (z : Z) (c : ascii) :
  ~ In c numeric_chars -> ~ In c (chars (str z)).
Proof.
  intros Hc Hin. pose proof (str_chars z) as H.
  rewrite Forall_forall in H. exact (Hc (H c Hin)).
Qed.

Lemma str_inj (a b : Z) : str a = str b -> a = b.
Proof.
  unfold str. intros H.
  assert (Hn : forall z, Z.to_int z <> Decimal.Pos Decimal.Nil
                         /\ Z.to_int z <> Decimal.Neg Decimal.Nil).
  { intros [| p | p]; simpl; split; try discriminate;
      intros E; injection E as E; exact (Unsigned.to_uint_nonnil p E). }
  pose proof (NilZero.isi (Z.to_int a) (proj1 (Hn a)) (proj2 (Hn a))) as Ha.
  pose proof (NilZero.isi (Z.to_int b) (proj1 (Hn b)) (proj2 (Hn b))) as Hb.
  rewrite H in Ha. rewrite Ha in Hb. injection Hb as Hb.
  rewrite <- (DecimalZ.of_to a), <- (DecimalZ.of_to b). now rewrite Hb.
Qed.

Lemma underscore_not_numeric : ~ In "_"%char numeric_chars.
Proof.
  unfold numeric_chars. simpl. intros H.
  repeat (destruct H as [H | H]; [discriminate |]). exact H.
Qed.

Lemma chars_lag_name (m : string) (L : Z) :
  chars (lag_name m L)
  = (chars m ++ chars "_lag") ++ "_"%char :: (chars (str L) ++ chars "s").
Proof.
  unfold lag_name. rewrite !chars_app. rewrite <- app_assoc. reflexivity.
Qed.

Lemma lag_name_inj (m m' : string) (L L' : Z) :
  lag_name m L = lag_name m' L' -> m = m' /\ L = L'.
Proof.
  intros H. apply (f_equal chars) in H. rewrite !chars_lag_name in H.
  apply sep_split in H.
  - destruct H as [Hm HL].
    apply app_inv_tail in Hm. apply app_inv_tail in HL.
    split; [now apply chars_inj | apply str_inj; now apply chars_inj].
  - intros Hin. apply in_app_or in Hin. destruct Hin as [Hin | Hin].
    + exact (str_no_char _ _ underscore_not_numeric Hin).
    + simpl in Hin. destruct Hin as [Hin | []]. discriminate.
  - intros Hin. apply in_app_or in Hin. destruct Hin as [Hin | Hin].
    + exact (str_no_char _ _ underscore_not_numeric Hin).
    + simpl in Hin. destruct Hin as [Hin | []]. discriminate.
Qed.

Lemma chars_rolling_name (m stat : string) (w : Z) :
  chars (rolling_name m stat w)
  = (chars m ++ chars "_rolling_" ++ chars stat) ++ "_"%char :: chars (str w).
Proof.
  unfold rolling_name. rewrite !chars_app. rewrite <- !app_assoc. reflexivity.
Qed.

Lemma rolling_name_split (m m' stat stat' : string) (w w' : Z) :
  rolling_name m stat w = rolling_name m' stat' w' ->
  chars m ++ chars "_rolling_" ++ chars stat
  = chars m' ++ chars "_rolling_" ++ chars stat' /\ w = w'.
Proof.
  intros H. apply (f_equal chars) in H. rewrite !chars_rolling_name in H.
  apply sep_split in H; try (apply str_no_char; exact underscore_not_numeric).
  destruct H as [Hm Hw]. split; [assumption |].
  apply str_inj. now apply chars_inj.
Qed.

(** Two rolling names agree only for the same column, statistic and window. *)
Lemma rolling_name_inj (m m' stat stat' : string) (w w' : Z) :
  In stat stat_names -> In stat' stat_names ->
  rolling_name m stat w = rolling_name m' stat' w' ->
  m = m' /\ stat = stat' /\ w = w'.
Proof.
  intros Hs Hs' H. apply rolling_name_split in H. destruct H as [H ->].
  apply (f_equal (@rev ascii)) in H. rewrite !rev_app_distr in H.
  assert (E : stat = stat').
  { unfold stat_names in Hs, Hs'. simpl in Hs, Hs'.
    repeat (destruct Hs as [<- | Hs]; [| try contradiction]);
      repeat (destruct Hs' as [<- | Hs']; [| try contradiction]);
      try reflexivity; simpl in H; exfalso; congruence. }
  subst stat'. split; [| auto].
  rewrite <- !rev_app_distr in H.
  apply (f_equal (@rev ascii)) in H. rewrite !rev_involutive in H.
  rewrite !app_assoc in H. apply app_inv_tail in H. apply app_inv_tail in H.
  now apply chars_inj.
Qed.

(** ** The lag stage *)

Lemma map_m_lag_periods (itv : Z) (ls : list Z) :
  itv <> 0 ->
  map_m (fun lag_sec => q <- floordiv lag_sec itv ;; Returns (Z.max 1 q)) ls
  = Returns (map (fun lag_sec => Z.max 1 (lag_sec / itv)) ls).
Proof.
  intros Hz. induction ls as [| l ls IH]; simpl; [reflexivity |].
  unfold floordiv at 1. apply Z.eqb_neq in Hz. rewrite Hz. simpl.
  rewrite IH. reflexivity.
Qed.

Lemma check_period_fits (periods : Z) :
  periods <= int64_max -> check_period periods = Returns (Z.to_nat periods).
Proof.
  intros H. unfold check_period.
  destruct (Z.ltb_spec int64_max periods); [lia | reflexivity].
Qed.

Lemma check_period_overflows (periods : Z) :
  int64_max < periods -> check_period periods = Raises OverflowError.
Proof.
  intros H. unfold check_period.
  destruct (Z.ltb_spec int64_max periods); [reflexivity | lia].
Qed.

Lemma lag_inner_loop (cfg : OrganizationConfig) (m : string) (ls : list Z)
  (df : DataFrame) :
  Forall (fun lag_sec =>
            lag_sec / (sampling_interval_minutes (data cfg) * 60) <= int64_max) ls ->
  has_col df m = true ->
  for_each
    (combine ls (map (fun lag_sec =>
                        Z.max 1 (lag_sec / (sampling_interval_minutes (data cfg) * 60))) ls))
    (fun '(lag_sec, lag_period) df =>
       periods <- check_period lag_period ;;
       Returns (set_col df (lag_name m lag_sec) (shift periods (loc df m))))
    df
  = Returns (exec_writes
               (map (fun lag_sec =>
                       {| w_src := m; w_dst := lag_name m lag_sec;
                          w_fun := shift (lag_period cfg lag_sec) |}) ls)
               df).
Proof.
  intros Hfit. revert df.
  induction Hfit as [| l ls Hl Hfit IH]; intros df Hm; [reflexivity |].
  cbn [map combine for_each exec_writes w_src w_dst w_fun].
  rewrite check_period_fits by (unfold int64_max in *; lia).
  cbn [bind].
  unfold has_col in Hm.
  destruct (get_col df m) as [s |] eqn:E; [| discriminate].
  rewrite (loc_get _ _ _ E).
  rewrite IH; [reflexivity |].
  apply has_col_set. unfold has_col. now rewrite E.
Qed.

Lemma create_lag_features_writes (cfg : OrganizationConfig) (df : DataFrame) :
  sampling_interval_minutes (data cfg) <> 0 ->
  lag_periods_fit cfg ->
  create_lag_features cfg df = Returns (exec_writes (lag_writes cfg) df).
Proof.
  intros Hz Hfit. unfold create_lag_features, lag_writes, mapped_columns.
  rewrite map_m_lag_periods by lia. simpl.
  generalize (continuous_columns (schema cfg)) as cols. intros cols. revert df.
  induction cols as [| c cols IH]; intros df; simpl; [reflexivity |].
  rewrite exec_writes_app.
  destruct (has_col df (get_mapped_column (schema cfg) c)) eqn:E.
  - rewrite lag_inner_loop by assumption. simpl. apply IH.
  - simpl. rewrite (exec_writes_absent (map _ (lag_seconds (schema cfg)))); [apply IH |].
    intros w Hw. apply in_map_iff in Hw. destruct Hw as [l [<- _]]. simpl.
    unfold has_col in E. now destruct (get_col df _).
Qed.

Lemma in_lag_writes (cfg : OrganizationConfig) (w : write) :
  In w (lag_writes cfg) <->
  exists col lag_sec,
    In col (continuous_columns (schema cfg)) /\
    In lag_sec (lag_seconds (schema cfg)) /\
    w = {| w_src := get_mapped_column (schema cfg) col;
           w_dst := lag_name (get_mapped_column (schema cfg) col) lag_sec;
           w_fun := shift (lag_period cfg lag_sec) |}.
Proof.
  unfold lag_writes, mapped_columns. rewrite in_flat_map. split.
  - intros [m [Hm Hw]]. apply in_map_iff in Hm. destruct Hm as [col [<- Hcol]].
    apply in_map_iff in Hw. destruct Hw as [l [<- Hl]]. eauto.
  - intros [col [l [Hcol [Hl ->]]]].
    exists (get_mapped_column (schema cfg) col). split.
    + now apply in_map.
    + apply in_map_iff. eauto.
Qed.

(** C2: for every continuous column present in the table and every
    configured lag in seconds, the lag stage derives the period
    [p = max(1, lag_seconds // sampling_interval_seconds)] and produces the
    column named after the lag in seconds whose entry at row [i] is the base
    column's value at row [i - p] for [i >= p] and is missing for [i < p].
    The table's labels are distinct, the sampling interval is non-zero,
    every configured lag gives a period below [2^63], and no derived name is
    the name of a declared column. *)
Theorem lag_feature_values (cfg : OrganizationConfig) (df : DataFrame)
  (col : string) (lag_sec : Z) (base : Series) :
  NoDup (columns df) ->
  sampling_interval_minutes (data cfg) <> 0 ->
  lag_periods_fit cfg ->
  lag_names_fresh cfg ->
  In col (continuous_columns (schema cfg)) ->
  In lag_sec (lag_seconds (schema cfg)) ->
  get_col df (get_mapped_column (schema cfg) col) = Some base ->
  let mapped_col := get_mapped_column (schema cfg) col in
  let p := Z.to_nat (Z.max 1 (lag_sec / (sampling_interval_minutes (data cfg) * 60))) in
  exists out lag_col,
    create_lag_features cfg df = Returns out /\
    get_col out mapped_col = Some base /\
    get_col out (lag_name mapped_col lag_sec) = Some lag_col /\
    List.length lag_col = List.length base /\
    forall i, (i < List.length base)%nat ->
      ((p <= i)%nat -> cell lag_col i = cell base (i - p)) /\
      ((i < p)%nat -> isna (cell lag_col i) = true).
Proof.
  intros _ Hz Hfit Hfresh Hcol Hlag Hbase mapped_col p.
  exists (exec_writes (lag_writes cfg) df), (shift p base).
  split; [now apply create_lag_features_writes |].
  split.
  { rewrite exec_writes_frame; [assumption |].
    intros w Hw E. apply in_lag_writes in Hw.
    destruct Hw as [c [l [Hc [Hl ->]]]]. simpl in E.
    apply (Hfresh c l Hc Hl). rewrite E.
    unfold mapped_columns. now apply in_map. }
  split.
  { set (w := {| w_src := mapped_col; w_dst := lag_name mapped_col lag_sec;
                 w_fun := shift (lag_period cfg lag_sec) |}).
    change (get_col (exec_writes (lag_writes cfg) df) (w_dst w) = Some (w_fun w base)).
    apply exec_writes_get.
    - intros a b Ha Hb E. apply in_lag_writes in Ha, Hb.
      destruct Ha as [c [l [Hc [Hl ->]]]]. destruct Hb as [c' [l' [Hc' [Hl' ->]]]].
      simpl in E. apply (Hfresh c l Hc Hl). rewrite E.
      unfold mapped_columns. now apply in_map.
    - intros a b Ha Hb E. apply in_lag_writes in Ha, Hb.
      destruct Ha as [c [l [Hc [Hl ->]]]]. destruct Hb as [c' [l' [Hc' [Hl' ->]]]].
      simpl in *. apply lag_name_inj in E. destruct E as [-> ->]. auto.
    - apply in_lag_writes. exists col, lag_sec. auto.
    - exact Hbase. }
  split; [apply length_shift |].
  intros i Hi. rewrite cell_shift by assumption. split; intros Hp.
  - destruct (Nat.ltb_spec i p); [lia | reflexivity].
  - destruct (Nat.ltb_spec i p); [reflexivity | lia].
Qed.

Lemma lag_feature_values_witness :
  exists out lag_col,
    create_lag_features example_config example_table = Returns out /\
    get_col out "x" = Some [1; 2; 4; 0; 3]%float /\
    get_col out "x_lag_900s" = Some lag_col /\
    List.length lag_col = 5%nat /\
    forall i, (i < 5)%nat ->
      ((3 <= i)%nat -> cell lag_col i = cell [1; 2; 4; 0; 3]%float (i - 3)) /\
      ((i < 3)%nat -> isna (cell lag_col i) = true).
Proof.
  apply (lag_feature_values example_config example_table "x" 900
           [1; 2; 4; 0; 3]%float).
  - repeat constructor; simpl; intuition discriminate.
  - discriminate.
  - repeat constructor; vm_compute; discriminate.
  - intros col l [<- | []] [<- | [<- | []]]; vm_compute;
      intros [H | []]; discriminate.
  - simpl. auto.
  - simpl. auto.
  - reflexivity.
Defined.

(** ** The rolling stage *)

Lemma exec_write_present (w : write) (df : DataFrame) :
  has_col df (w_src w) = true ->
  match get_col df (w_src w) with
  | Some s => set_col df (w_dst w) (w_fun w s)
  | None => df
  end = apply_write w df.
Proof.
  unfold has_col, apply_write, loc.
  destruct (get_col df (w_src w)); [reflexivity | discriminate].
Qed.

Lemma has_col_apply_write (w : write) (df : DataFrame) (c : string) :
  has_col df c = true -> has_col (apply_write w df) c = true.
Proof. apply has_col_set. Qed.

Lemma exec_writes_columns_has (ws : list write) (df : DataFrame) (c : string) :
  has_col df c = true -> has_col (exec_writes ws df) c = true.
Proof. rewrite !has_col_iff. apply exec_writes_columns. Qed.

Lemma exec_writes_present_all (ws : list write) (df : DataFrame) (m : string) :
  (forall w, In w ws -> w_src w = m) ->
  has_col df m = true ->
  exec_writes ws df = fold_left (fun d w => apply_write w d) ws df.
Proof.
  revert df. induction ws as [| w ws IH]; intros df Hsrc Hm; [reflexivity |].
  cbn [exec_writes fold_left].
  rewrite exec_write_present by (rewrite Hsrc; [exact Hm | now left]).
  apply IH.
  - intros w' Hw'. apply Hsrc. now right.
  - now apply has_col_apply_write.
Qed.

Lemma check_window_fits (window : Z) :
  1 <= window <= int64_max -> check_window window = Returns (Z.to_nat window).
Proof.
  intros H. unfold check_window.
  destruct (Z.ltb_spec window 1); [lia |].
  destruct (Z.ltb_spec int64_max window); [lia | reflexivity].
Qed.

Lemma rolling_inner_loop (m : string) (ws : list Z) (df : DataFrame) :
  Forall (fun w => 1 <= w <= int64_max) ws ->
  has_col df m = true ->
  for_each ws
    (fun window df =>
       w <- check_window window ;;
       let df := set_col df (rolling_name m "mean" window) (rolling w 1 agg_mean (loc df m)) in
       let df := set_col df (rolling_name m "std" window) (rolling w 1 agg_std (loc df m)) in
       let df := set_col df (rolling_name m "min" window) (rolling w 1 agg_min (loc df m)) in
       let df := set_col df (rolling_name m "max" window) (rolling w 1 agg_max (loc df m)) in
       let df := set_col df (rolling_name m "median" window)
                   (rolling w 1 agg_median (loc df m)) in
       Returns df)
    df
  = Returns (exec_writes (flat_map (window_writes m) ws) df).
Proof.
  intros Hws Hm.
  match goal with |- for_each _ ?b _ = _ => set (body := b) end.
  assert (Hbody : forall window df,
             1 <= window <= int64_max -> has_col df m = true ->
             body window df = Returns (exec_writes (window_writes m window) df)).
  { intros window d Hw Hd. unfold body. rewrite check_window_fits by assumption.
    cbn [bind]. f_equal.
    rewrite (exec_writes_present_all _ d m); [reflexivity | | exact Hd].
    intros w Hw'. apply in_map_iff in Hw'. now destruct Hw' as [st [<- _]]. }
  clearbody body. revert df Hm.
  induction Hws as [| w ws Hw _ IH]; intros df Hm; [reflexivity |].
  cbn [for_each flat_map]. rewrite exec_writes_app.
  rewrite Hbody by assumption. cbn [bind].
  apply IH. apply exec_writes_columns_has. exact Hm.
Qed.

Lemma create_rolling_features_writes (cfg : OrganizationConfig) (df : DataFrame) :
  windows_fit (schema cfg) ->
  create_rolling_features cfg df
  = Returns (exec_writes (rolling_writes (schema cfg)) df).
Proof.
  intros Hws. unfold create_rolling_features, rolling_writes, mapped_columns.
  generalize (continuous_columns (schema cfg)) as cols. intros cols. revert df.
  induction cols as [| c cols IH]; intros df; [reflexivity |].
  cbn [for_each map flat_map]. rewrite exec_writes_app.
  destruct (has_col df (get_mapped_column (schema cfg) c)) eqn:E.
  - rewrite rolling_inner_loop by assumption. cbn [bind]. apply IH.
  - cbn [bind].
    rewrite (exec_writes_absent (flat_map _ (rolling_windows (schema cfg))));
      [apply IH |].
    intros w Hw. apply in_flat_map in Hw. destruct Hw as [win [_ Hw]].
    apply in_map_iff in Hw. destruct Hw as [st [<- _]]. simpl.
    unfold has_col in E. now destruct (get_col df _).
Qed.

Lemma in_rolling_writes (sc : SchemaConfig) (w : write) :
  In w (rolling_writes sc) <->
  exists col window st,
    In col (continuous_columns sc) /\
    In window (rolling_windows sc) /\
    In st rolling_stats /\
    w = {| w_src := get_mapped_column sc col;
           w_dst := rolling_name (get_mapped_column sc col) (fst st) window;
           w_fun := rolling (Z.to_nat window) 1 (snd st) |}.
Proof.
  unfold rolling_writes, mapped_columns. rewrite in_flat_map. split.
  - intros [m [Hm Hw]]. apply in_map_iff in Hm. destruct Hm as [col [<- Hcol]].
    apply in_flat_map in Hw. destruct Hw as [win [Hwin Hw]].
    apply in_map_iff in Hw. destruct Hw as [st [<- Hst]].
    exists col, win, st. auto.
  - intros [col [win [st [Hcol [Hwin [Hst ->]]]]]].
    exists (get_mapped_column sc col). split; [now apply in_map |].
    apply in_flat_map. exists win. split; [assumption |].
    apply in_map_iff. eauto.
Qed.

Lemma rolling_stats_fst_inj (st st' : string * (list float -> float)) :
  In st rolling_stats -> In st' rolling_stats -> fst st = fst st' -> st = st'.
Proof.
  unfold rolling_stats. simpl. intros H H' E.
  repeat (destruct H as [<- | H]; [| try contradiction]);
    repeat (destruct H' as [<- | H']; [| try contradiction]);
    try reflexivity; simpl in E; discriminate.
Qed.

(** Under a collision-free schema each rolling column holds its statistic
    of the base column of the input table. *)
Lemma rolling_feature_column (cfg : OrganizationConfig) (df : DataFrame)
  (col : string) (window : Z) (st : string * (list float -> float))
  (base : Series) :
  rolling_names_fresh (schema cfg) ->
  In col (continuous_columns (schema cfg)) ->
  In window (rolling_windows (schema cfg)) ->
  In st rolling_stats ->
  get_col df (get_mapped_column (schema cfg) col) = Some base ->
  get_col (exec_writes (rolling_writes (schema cfg)) df)
    (rolling_name (get_mapped_column (schema cfg) col) (fst st) window)
  = Some (rolling (Z.to_nat window) 1 (snd st) base).
Proof.
  intros Hfresh Hcol Hwin Hst Hbase.
  set (w := {| w_src := get_mapped_column (schema cfg) col;
               w_dst := rolling_name (get_mapped_column (schema cfg) col) (fst st) window;
               w_fun := rolling (Z.to_nat window) 1 (snd st) |}).
  change (get_col (exec_writes (rolling_writes (schema cfg)) df) (w_dst w)
          = Some (w_fun w base)).
  assert (Hname : forall s, In s rolling_stats -> In (fst s) stat_names)
    by (intros s Hs; unfold stat_names; now apply in_map).
  apply exec_writes_get.
  - intros a b Ha Hb E. apply in_rolling_writes in Ha, Hb.
    destruct Ha as [c [wi [s [Hc [Hwi [Hs ->]]]]]].
    destruct Hb as [c' [wi' [s' [Hc' [Hwi' [Hs' ->]]]]]].
    simpl in E. apply (Hfresh c (fst s) wi Hc (Hname s Hs) Hwi). rewrite E.
    unfold mapped_columns. now apply in_map.
  - intros a b Ha Hb E. apply in_rolling_writes in Ha, Hb.
    destruct Ha as [c [wi [s [Hc [Hwi [Hs ->]]]]]].
    destruct Hb as [c' [wi' [s' [Hc' [Hwi' [Hs' ->]]]]]].
    cbn [w_src w_dst w_fun] in *.
    apply rolling_name_inj in E; [| now apply Hname | now apply Hname].
    destruct E as [-> [E ->]].
    apply rolling_stats_fst_inj in E; [| assumption | assumption].
    subst s'. auto.
  - apply in_rolling_writes. exists col, window, st. auto.
  - exact Hbase.
Qed.

Lemma cell_rolling (w mp : nat) (agg : list float -> float) (s : Series) (i : nat) :
  (i < List.length s)%nat ->
  cell (rolling w mp agg s) i
  = if (List.length (valid_obs w s i) <? mp)%nat then nan else agg (valid_obs w s i).
Proof.
  intros Hi. unfold rolling. now rewrite cell_map_seq.
Qed.

Lemma window_at_first (w : nat) (x : float) (rest : Series) :
  (1 <= w)%nat -> window_at w (x :: rest) 0 = [x].
Proof.
  intros Hw. unfold window_at.
  replace (0 + 1 - w)%nat with 0%nat by lia.
  replace (Nat.min w (0 + 1)) with 1%nat by lia. reflexivity.
Qed.

Lemma agg_std_below_two (obs : list float) :
  (List.length obs < 2)%nat -> agg_std obs = nan.
Proof.
  intros H. unfold agg_std.
  destruct (Nat.leb_spec (List.length obs) 1); [reflexivity | lia].
Qed.

Lemma agg_mean_single_defined (x : float) :
  notna x = true -> notna (agg_mean [x]) = true.
Proof.
  rewrite !notna_true_iff. intros Hx. unfold agg_mean, fsum. cbn [fold_left List.length].
  change (float_of_nat 1) with 1%float.
  apply div_one_not_nan. now apply add_zero_not_nan.
Qed.

(** The mean of one finite sample is that sample. *)
Lemma agg_mean_single (x : float) :
  is_finite x = true -> PrimFloat.eqb (agg_mean [x]) x = true.
Proof.
  intros Hx. unfold agg_mean, fsum. cbn [fold_left List.length].
  change (float_of_nat 1) with 1%float.
  destruct (add_zero_finite x Hx) as [Hf He].
  now rewrite div_one_exact.
Qed.

Lemma valid_obs_first (w : nat) (x : float) (rest : Series) :
  (1 <= w)%nat ->
  valid_obs w (x :: rest) 0 = if is_finite x then [x] else [].
Proof.
  intros Hw. unfold valid_obs. now rewrite window_at_first.
Qed.

(** C5: for every continuous column and every configured window the rolling
    standard deviation is missing wherever the trailing window holds fewer
    than two samples, in particular at the first row, while mean, min and
    max are defined there from the single sample: the mean equals it, and
    the minimum and the maximum are it.  A sample is a finite value: pandas
    counts neither a missing nor an infinite reading, and where the first
    reading is one of these the three statistics are missing as well.  The
    table's labels are distinct, every window is a row count between 1 and
    [2^63 - 1], and no derived name is the name of a declared column. *)
Theorem rolling_std_missing_below_two_samples (cfg : OrganizationConfig)
  (df : DataFrame) (col : string) (window : Z) (base : Series) :
  NoDup (columns df) ->
  windows_fit (schema cfg) ->
  rolling_names_fresh (schema cfg) ->
  In col (continuous_columns (schema cfg)) ->
  In window (rolling_windows (schema cfg)) ->
  get_col df (get_mapped_column (schema cfg) col) = Some base ->
  let mapped_col := get_mapped_column (schema cfg) col in
  exists out mean_col std_col min_col max_col,
    create_rolling_features cfg df = Returns out /\
    get_col out (rolling_name mapped_col "mean" window) = Some mean_col /\
    get_col out (rolling_name mapped_col "std" window) = Some std_col /\
    get_col out (rolling_name mapped_col "min" window) = Some min_col /\
    get_col out (rolling_name mapped_col "max" window) = Some max_col /\
    (forall i, (i < List.length base)%nat ->
               (List.length (valid_obs (Z.to_nat window) base i) < 2)%nat ->
               isna (cell std_col i) = true) /\
    (forall x rest, base = x :: rest ->
       isna (cell std_col 0) = true /\
       (is_finite x = true ->
        notna (cell mean_col 0) = true /\
        PrimFloat.eqb (cell mean_col 0) x = true /\
        cell min_col 0 = x /\
        cell max_col 0 = x) /\
       (is_finite x = false ->
        isna (cell mean_col 0) = true /\
        isna (cell min_col 0) = true /\
        isna (cell max_col 0) = true)).
Proof.
  intros _ Hws Hfresh Hcol Hwin Hbase mapped_col.
  assert (Hw1 : (1 <= Z.to_nat window)%nat).
  { unfold windows_fit in Hws. rewrite Forall_forall in Hws.
    specialize (Hws window Hwin). lia. }
  exists (exec_writes (rolling_writes (schema cfg)) df),
    (rolling (Z.to_nat window) 1 agg_mean base),
    (rolling (Z.to_nat window) 1 agg_std base),
    (rolling (Z.to_nat window) 1 agg_min base),
    (rolling (Z.to_nat window) 1 agg_max base).
  split; [now apply create_rolling_features_writes |].
  split; [apply (rolling_feature_column cfg df col window ("mean", agg_mean));
          unfold rolling_stats; simpl; auto |].
  split; [apply (rolling_feature_column cfg df col window ("std", agg_std));
          unfold rolling_stats; simpl; auto |].
  split; [apply (rolling_feature_column cfg df col window ("min", agg_min));
          unfold rolling_stats; simpl; auto |].
  split; [apply (rolling_feature_column cfg df col window ("max", agg_max));
          unfold rolling_stats; simpl; auto 6 |].
  split.
  - intros i Hi Hobs. rewrite cell_rolling by assumption.
    destruct (List.length (valid_obs (Z.to_nat window) base i) <? 1)%nat;
      [reflexivity |].
    now rewrite agg_std_below_two.
  - intros x rest ->.
    rewrite !cell_rolling by (simpl; lia).
    rewrite valid_obs_first by assumption. split; [| split].
    + destruct (is_finite x); reflexivity.
    + intros Hx. rewrite Hx. cbn [List.length Nat.ltb Nat.leb].
      split; [apply agg_mean_single_defined; now apply is_finite_notna |].
      split; [now apply agg_mean_single |]. auto.
    + intros Hx. rewrite Hx. cbn [List.length Nat.ltb Nat.leb]. auto.
Qed.

Lemma rolling_std_missing_below_two_samples_witness :
  exists out std_col mean_col,
    create_rolling_features example_config example_table = Returns out /\
    get_col out "x_rolling_std_2" = Some std_col /\
    get_col out "x_rolling_mean_2" = Some mean_col /\
    isna (cell std_col 0) = true /\
    notna (cell mean_col 0) = true /\
    PrimFloat.eqb (cell mean_col 0) 1 = true.
Proof.
  destruct (rolling_std_missing_below_two_samples example_config example_table
              "x" 2 [1; 2; 4; 0; 3]%float)
    as (out & mean_col & std_col & min_col & max_col
        & Hout & Hmean & Hstd & _ & _ & _ & Hfirst).
  - repeat constructor; simpl; intuition discriminate.
  - repeat constructor; vm_compute; discriminate.
  - intros col stat window [<- | []] Hstat [<- | []].
    unfold stat_names in Hstat. simpl in Hstat.
    repeat (destruct Hstat as [<- | Hstat]; [vm_compute; intros [H | []]; discriminate |]).
    destruct Hstat.
  - simpl. auto.
  - simpl. auto.
  - reflexivity.
  - destruct (Hfirst 1%float [2; 4; 0; 3]%float eq_refl) as [Hs [Hm _]].
    destruct (Hm eq_refl) as [Hd [He _]].
    exists out, std_col, mean_col. auto 7.
Defined.

(** ** The rate-of-change stage *)

Lemma cell_zip_with (f : float -> float -> float) (a b : Series) (i : nat) :
  (i < List.length a)%nat -> (i < List.length b)%nat ->
  cell (zip_with f a b) i = f (cell a i) (cell b i).
Proof.
  unfold zip_with, cell. revert b i.
  induction a as [| x a IH]; intros [| y b] i Ha Hb; simpl in *; try lia.
  destruct i as [| i]; [reflexivity |]. apply IH; lia.
Qed.

Lemma length_zip_with (f : float -> float -> float) (a b : Series) :
  List.length (zip_with f a b) = Nat.min (List.length a) (List.length b).
Proof. unfold zip_with. now rewrite length_map, length_combine. Qed.

Lemma length_ffill_from (l : float) (s : Series) :
  List.length (ffill_from l s) = List.length s.
Proof.
  revert l. induction s as [| x s IH]; intros l; simpl; [reflexivity |].
  now rewrite IH.
Qed.

Lemma cell_ffill_from_valid (l : float) (s : Series) (i : nat) :
  notna (cell s i) = true -> cell (ffill_from l s) i = cell s i.
Proof.
  unfold cell. revert l i. induction s as [| x s IH]; intros l i H.
  - destruct i; discriminate H.
  - destruct i as [| i]; simpl in *.
    + unfold notna in H. apply negb_true_iff in H. now rewrite H.
    + now apply IH.
Qed.

Lemma length_pct_change (s : Series) : List.length (pct_change s) = List.length s.
Proof.
  unfold pct_change. rewrite length_zip_with, length_shift.
  unfold ffill. rewrite length_ffill_from. lia.
Qed.

Lemma cell_pct_change (s : Series) (i : nat) :
  (i < List.length s)%nat ->
  cell (pct_change s) i
  = PrimFloat.sub
      (PrimFloat.div (cell (ffill s) i)
         (if (i <? 1)%nat then nan else cell (ffill s) (i - 1)))
      1%float.
Proof.
  intros Hi. unfold pct_change.
  assert (Hl : List.length (ffill s) = List.length s)
    by (unfold ffill; apply length_ffill_from).
  rewrite cell_zip_with by (rewrite ?length_shift; lia).
  rewrite cell_shift by lia. reflexivity.
Qed.

Lemma cell_diff (s : Series) (i : nat) :
  (i < List.length s)%nat ->
  cell (diff s) i
  = match i with
    | O => nan
    | S j => PrimFloat.sub (cell s i) (cell s j)
    end.
Proof. intros Hi. unfold diff. now rewrite cell_map_seq. Qed.

Lemma chars_length (s : string) : List.length (chars s) = String.length s.
Proof. unfold chars. induction s; simpl; congruence. Qed.

Lemma append_suffix_neq (m t : string) : t <> "" -> (m ++ t)%string <> m.
Proof.
  intros Ht E. apply (f_equal chars) in E. rewrite chars_app in E.
  apply (f_equal (@List.length ascii)) in E. rewrite length_app in E.
  destruct t; [contradiction | simpl in E; lia].
Qed.

Lemma create_rate_of_change_features_writes (cfg : OrganizationConfig)
  (df : DataFrame) :
  create_rate_of_change_features cfg df = exec_writes (roc_writes (schema cfg)) df.
Proof.
  unfold create_rate_of_change_features, roc_writes, mapped_columns.
  generalize (continuous_columns (schema cfg)) as cols. intros cols. revert df.
  induction cols as [| c cols IH]; intros df; [reflexivity |].
  cbn [fold_left map flat_map]. rewrite exec_writes_app, IH. f_equal.
  set (m := get_mapped_column (schema cfg) c).
  destruct (has_col df m) eqn:E.
  - rewrite (exec_writes_present_all _ df m);
      [| intros w Hw; apply in_map_iff in Hw; now destruct Hw as [st [<- _]]
       | exact E].
    unfold roc_stats. cbn [map fold_left fst snd]. unfold apply_write.
    cbn [w_src w_dst w_fun].
    assert (Hroc : loc (set_col df (m ++ "_roc") (diff (loc df m))) (m ++ "_roc")
                   = diff (loc df m)).
    { unfold loc at 1. now rewrite get_set_same. }
    assert (Hm : loc (set_col df (m ++ "_roc") (diff (loc df m))) m = loc df m).
    { unfold loc at 1 3. rewrite get_set_other; [reflexivity |].
      apply append_suffix_neq. discriminate. }
    rewrite Hroc, Hm. reflexivity.
  - rewrite exec_writes_absent; [reflexivity |].
    intros w Hw. apply in_map_iff in Hw. destruct Hw as [st [<- _]]. simpl.
    unfold has_col in E. now destruct (get_col df m).
Qed.

Lemma in_roc_writes (sc : SchemaConfig) (w : write) :
  In w (roc_writes sc) <->
  exists col st,
    In col (continuous_columns sc) /\ In st roc_stats /\
    w = {| w_src := get_mapped_column sc col;
           w_dst := (get_mapped_column sc col ++ fst st)%string;
           w_fun := snd st |}.
Proof.
  unfold roc_writes, mapped_columns. rewrite in_flat_map. split.
  - intros [m [Hm Hw]]. apply in_map_iff in Hm. destruct Hm as [col [<- Hcol]].
    apply in_map_iff in Hw. destruct Hw as [st [<- Hst]]. eauto.
  - intros [col [st [Hcol [Hst ->]]]].
    exists (get_mapped_column sc col). split; [now apply in_map |].
    apply in_map_iff. eauto.
Qed.

Lemma roc_name_inj (m m' : string) (st st' : string * (Series -> Series)) :
  In st roc_stats -> In st' roc_stats ->
  (m ++ fst st = m' ++ fst st')%string -> m = m' /\ st = st'.
Proof.
  intros Hs Hs' H.
  assert (E : st = st').
  { apply (f_equal chars) in H. rewrite !chars_app in H.
    apply (f_equal (@rev ascii)) in H. rewrite !rev_app_distr in H.
    unfold roc_stats in Hs, Hs'. simpl in Hs, Hs'.
    repeat (destruct Hs as [<- | Hs]; [| try contradiction]);
      repeat (destruct Hs' as [<- | Hs']; [| try contradiction]);
      try reflexivity; simpl in H; exfalso; congruence. }
  subst st'. split; [| reflexivity]. now apply append_inv_tail in H.
Qed.

Lemma roc_feature_column (cfg : OrganizationConfig) (df : DataFrame)
  (col : string) (st : string * (Series -> Series)) (base : Series) :
  roc_names_fresh (schema cfg) ->
  In col (continuous_columns (schema cfg)) ->
  In st roc_stats ->
  get_col df (get_mapped_column (schema cfg) col) = Some base ->
  get_col (create_rate_of_change_features cfg df)
    (get_mapped_column (schema cfg) col ++ fst st)%string
  = Some (snd st base).
Proof.
  intros Hfresh Hcol Hst Hbase. rewrite create_rate_of_change_features_writes.
  set (w := {| w_src := get_mapped_column (schema cfg) col;
               w_dst := (get_mapped_column (schema cfg) col ++ fst st)%string;
               w_fun := snd st |}).
  change (get_col (exec_writes (roc_writes (schema cfg)) df) (w_dst w)
          = Some (w_fun w base)).
  assert (Hname : forall s, In s roc_stats -> In (fst s) roc_suffixes)
    by (intros s Hs; unfold roc_suffixes; now apply in_map).
  apply exec_writes_get.
  - intros a b Ha Hb E. apply in_roc_writes in Ha, Hb.
    destruct Ha as [c [s [Hc [Hs ->]]]]. destruct Hb as [c' [s' [Hc' [Hs' ->]]]].
    cbn [w_src w_dst] in E. apply (Hfresh c (fst s) Hc (Hname s Hs)). rewrite E.
    unfold mapped_columns. now apply in_map.
  - intros a b Ha Hb E. apply in_roc_writes in Ha, Hb.
    destruct Ha as [c [s [Hc [Hs ->]]]]. destruct Hb as [c' [s' [Hc' [Hs' ->]]]].
    cbn [w_src w_dst w_fun] in *.
    apply roc_name_inj in E; [| assumption | assumption].
    destruct E as [-> ->]. auto.
  - apply in_roc_writes. exists col, st. auto.
  - exact Hbase.
Qed.

(** What the rate-of-change stage computes: the percentage change at row
    [i >= 1] is [d[i] / d[i-1] - 1] where [d] is the column with its missing
    values padded forward, hence [value[i] / value[i-1] - 1] whenever both
    values are present; the first row of the first difference, the second
    difference and the percentage change is missing. *)
Lemma rate_of_change_columns (cfg : OrganizationConfig) (df : DataFrame)
  (col : string) (base : Series) :
  NoDup (columns df) ->
  roc_names_fresh (schema cfg) ->
  In col (continuous_columns (schema cfg)) ->
  get_col df (get_mapped_column (schema cfg) col) = Some base ->
  let mapped_col := get_mapped_column (schema cfg) col in
  let out := create_rate_of_change_features cfg df in
  exists roc acc pct,
    get_col out (mapped_col ++ "_roc")%string = Some roc /\
    get_col out (mapped_col ++ "_acceleration")%string = Some acc /\
    get_col out (mapped_col ++ "_pct_change")%string = Some pct /\
    ((0 < List.length base)%nat ->
     isna (cell roc 0) = true /\ isna (cell acc 0) = true /\
     isna (cell pct 0) = true) /\
    forall i, (1 <= i < List.length base)%nat ->
      cell roc i = PrimFloat.sub (cell base i) (cell base (i - 1)) /\
      cell acc i = PrimFloat.sub (cell roc i) (cell roc (i - 1)) /\
      cell pct i
      = PrimFloat.sub
          (PrimFloat.div (cell (ffill base) i) (cell (ffill base) (i - 1))) 1%float /\
      (notna (cell base i) = true -> notna (cell base (i - 1)) = true ->
       cell pct i
       = PrimFloat.sub (PrimFloat.div (cell base i) (cell base (i - 1))) 1%float).
Proof.
  intros _ Hfresh Hcol Hbase mapped_col out.
  exists (diff base), (diff (diff base)), (pct_change base).
  split; [apply (roc_feature_column cfg df col ("_roc", diff));
          unfold roc_stats; simpl; auto |].
  split; [apply (roc_feature_column cfg df col
                   ("_acceleration", fun s => diff (diff s)));
          unfold roc_stats; simpl; auto |].
  split; [apply (roc_feature_column cfg df col ("_pct_change", pct_change));
          unfold roc_stats; simpl; auto |].
  split.
  - intros Hn. rewrite !cell_diff by (rewrite ?length_diff; lia).
    rewrite cell_pct_change by lia. cbn [Nat.ltb Nat.leb].
    rewrite div_nan_r, sub_nan_l. auto.
  - intros i [Hi Hlt]. destruct i as [| j]; [lia |].
    rewrite !cell_diff by (rewrite ?length_diff; lia).
    rewrite cell_pct_change by lia.
    replace (S j - 1)%nat with j by lia.
    destruct (Nat.ltb_spec (S j) 1); [lia |].
    repeat split; try reflexivity.
    intros Hv Hp. unfold ffill. now rewrite !cell_ffill_from_valid.
Qed.

(** C6, on a zero reading.  The claim has the percentage change missing
    after a zero; [pct_change()] is called without a guard, and on the
    column [0, 1] gives an infinity at row 1, which is not missing.  The
    quotients of the sibling stages add [1e-8] to their divisor: on a zero
    divisor the ratio of the interaction stage is finite.  The infinity
    survives the cleaning step, and makes the selection step, hence
    [engineer_features], raise on a table that it handles when the reading
    is not zero. *)
Theorem pct_change_after_zero_is_infinite :
  (exists base pct,
     get_col zero_then_one_table "x" = Some base /\
     get_col (create_rate_of_change_features example_config zero_then_one_table)
       "x_pct_change" = Some pct /\
     cell base 0 = 0%float /\
     cell pct 0 = nan /\
     cell pct 1 = infinity /\
     isna (cell pct 1) = false) /\
  (exists divisor ratio,
     get_col zero_pressure_table "pressure" = Some divisor /\
     get_col (create_interaction_features example_config zero_pressure_table)
       "temperature_pressure_ratio" = Some ratio /\
     cell divisor 0 = 0%float /\
     is_finite (cell ratio 0) = true) /\
  (exists out names pct,
     engineer_features example_kernels example_config zero_reading_table false 3
     = Returns (out, names) /\
     get_col out "x_pct_change" = Some pct /\
     cell pct 2 = infinity) /\
  engineer_features example_kernels example_config zero_reading_table true 3
  = Raises ValueError /\
  (exists out names,
     engineer_features example_kernels example_config timed_table true 3
     = Returns (out, names)).
Proof.
  split; [exists [0; 1]%float, [nan; infinity]; repeat split |].
  split; [eexists; eexists; repeat split; vm_compute; reflexivity |].
  split; [eexists; eexists; eexists; split; [vm_compute; reflexivity |];
          split; reflexivity |].
  split; [vm_compute; reflexivity |].
  eexists. eexists. vm_compute. reflexivity.
Qed.

(** ** Stages only add columns *)

Lemma extends_refl (df : DataFrame) : extends df df.
Proof. intros c H. exact H. Qed.

Lemma extends_trans (a b c : DataFrame) : extends a b -> extends b c -> extends a c.
Proof. intros H1 H2 x Hx. apply H2, H1, Hx. Qed.

Lemma extends_set (df : DataFrame) (c : string) (s : Series) :
  extends df (set_col df c s).
Proof. intros x Hx. apply in_columns_set. now right. Qed.

Lemma extends_set_trans (df df' : DataFrame) (c : string) (s : Series) :
  extends df df' -> extends df (set_col df' c s).
Proof. intros H. eapply extends_trans; [exact H | apply extends_set]. Qed.

Lemma in_set_col (df : DataFrame) (c : string) (s : Series) :
  In c (columns (set_col df c s)).
Proof. apply in_columns_set. now left. Qed.

Create HintDb frames.

#[local] Hint Resolve extends_refl extends_set extends_set_trans in_set_col : frames.

(** Column preservation along a chain of [let]-bound assignments. *)
Ltac solve_extends :=
  lazymatch goal with
  | |- extends ?a ?a => apply extends_refl
  | |- extends ?a (if ?b then _ else _) => destruct b; solve_extends
  | |- extends ?a (set_col _ _ _) => apply extends_set_trans; solve_extends
  | |- extends ?a (let x := ?v in @?body x) =>
      first
        [ apply (extends_trans a v);
          [ solve_extends
          | change (extends v (body v)); generalize v;
            let d := fresh "d" in intro d; cbv beta; solve_extends ]
        | change (extends a (body v)); cbv beta; solve_extends ]
  end.

Lemma for_each_extends {A : Type} (xs : list A)
  (body : A -> DataFrame -> outcome DataFrame) (df out : DataFrame) :
  (forall x d d', body x d = Returns d' -> extends d d') ->
  for_each xs body df = Returns out -> extends df out.
Proof.
  intros Hbody. revert df. induction xs as [| x xs IH]; intros df H; simpl in H.
  - injection H as <-. apply extends_refl.
  - destruct (body x df) as [d' |] eqn:E; simpl in H; [| discriminate].
    eapply extends_trans; [eapply Hbody; exact E | now apply IH].
Qed.

(** What one iteration establishes for its element survives the loop. *)
Lemma for_each_establishes {A : Type} (xs : list A)
  (body : A -> DataFrame -> outcome DataFrame)
  (pre post : A -> DataFrame -> Prop) (df out : DataFrame) :
  (forall x d d', body x d = Returns d' -> extends d d') ->
  (forall x d d', extends d d' -> pre x d -> pre x d') ->
  (forall x d d', extends d d' -> post x d -> post x d') ->
  (forall x d d', body x d = Returns d' -> pre x d -> post x d') ->
  for_each xs body df = Returns out ->
  forall x, In x xs -> pre x df -> post x out.
Proof.
  intros Hext Hpre Hpost Hbody. revert df.
  induction xs as [| y xs IH]; intros df H x Hin Hp; [destruct Hin |].
  simpl in H. destruct (body y df) as [d' |] eqn:E; simpl in H; [| discriminate].
  destruct Hin as [-> | Hin].
  - eapply Hpost; [eapply for_each_extends; eassumption |].
    eapply Hbody; eassumption.
  - eapply IH; try eassumption. eapply Hpre; [eapply Hext; exact E | exact Hp].
Qed.

Lemma fold_left_extends {A : Type} (xs : list A)
  (body : DataFrame -> A -> DataFrame) (df : DataFrame) :
  (forall x d, extends d (body d x)) -> extends df (fold_left body xs df).
Proof.
  intros Hbody. revert df. induction xs as [| x xs IH]; intros df; simpl.
  - apply extends_refl.
  - eapply extends_trans; [apply Hbody | apply IH].
Qed.

Lemma has_col_extends (df df' : DataFrame) (c : string) :
  extends df df' -> has_col df c = true -> has_col df' c = true.
Proof. rewrite !has_col_iff. intros H. apply H. Qed.

Lemma map_m_length {A B : Type} (f : A -> outcome B) (xs : list A) (ys : list B) :
  map_m f xs = Returns ys -> List.length ys = List.length xs.
Proof.
  revert ys. induction xs as [| x xs IH]; intros ys H; simpl in H.
  - now injection H as <-.
  - destruct (f x); simpl in H; [| discriminate].
    destruct (map_m f xs); simpl in H; [| discriminate].
    injection H as <-. simpl. f_equal. now apply IH.
Qed.

Lemma in_combine_left {A B : Type} (xs : list A) (ys : list B) (x : A) :
  List.length ys = List.length xs -> In x xs -> exists y, In (x, y) (combine xs ys).
Proof.
  revert ys. induction xs as [| a xs IH]; intros [| b ys] Hl Hin;
    simpl in *; try discriminate; try contradiction.
  destruct Hin as [-> | Hin].
  - exists b. now left.
  - destruct (IH ys) as [y Hy]; [congruence | assumption |]. exists y. now right.
Qed.

Lemma create_time_based_features_extends (K : Kernels) (cfg : OrganizationConfig)
  (df out : DataFrame) :
  create_time_based_features K cfg df = Returns out -> extends df out.
Proof.
  unfold create_time_based_features.
  destruct (has_col df (timestamp_column (schema cfg)));
    [| intros H; injection H as <-; apply extends_refl].
  match goal with
  | |- bind ?m _ = _ -> _ =>
      assert (Hconv : forall d, m = Returns d -> extends df d);
      [| destruct m as [d |]; [specialize (Hconv d eq_refl) | discriminate]]
  end.
  { intros d. destruct (negb (is_datetime64 K _)).
    - destruct (map_m (to_datetime K) _); simpl; [| discriminate].
      intros H. injection H as <-. apply extends_set.
    - intros H. injection H as <-. apply extends_refl. }
  cbn [bind]. intros H.
  apply (extends_trans df d out Hconv).
  apply (f_equal (fun o => match o with Returns x => x | Raises _ => d end)) in H.
  rewrite <- H. clear H Hconv. solve_extends.
Qed.

Lemma lag_step_returns (m lag_col : string) (lag_period : Z) (d d' : DataFrame) :
  (periods <- check_period lag_period ;;
   Returns (set_col d lag_col (shift periods (loc d m)))) = Returns d' ->
  exists periods, d' = set_col d lag_col (shift periods (loc d m)).
Proof.
  destruct (check_period lag_period) as [periods |]; simpl; [| discriminate].
  intros H. injection H as <-. now exists periods.
Qed.

Lemma create_lag_features_extends (cfg : OrganizationConfig) (df out : DataFrame) :
  create_lag_features cfg df = Returns out -> extends df out.
Proof.
  unfold create_lag_features. destruct (map_m _ _) as [periods |]; simpl;
    [| discriminate].
  apply for_each_extends. intros col d d'.
  destruct (has_col d _); [| intros H; injection H as <-; apply extends_refl].
  apply for_each_extends. intros [l p] e e' H.
  apply lag_step_returns in H. destruct H as [periods' ->].
  apply extends_set.
Qed.

Lemma create_lag_features_names (cfg : OrganizationConfig) (df out : DataFrame)
  (col : string) (lag_sec : Z) :
  create_lag_features cfg df = Returns out ->
  In col (continuous_columns (schema cfg)) ->
  In lag_sec (lag_seconds (schema cfg)) ->
  In (get_mapped_column (schema cfg) col) (columns df) ->
  In (lag_name (get_mapped_column (schema cfg) col) lag_sec) (columns out).
Proof.
  unfold create_lag_features.
  destruct (map_m _ _) as [periods |] eqn:Ep; simpl; [| discriminate].
  apply map_m_length in Ep.
  intros H Hcol Hlag Hin.
  destruct (in_combine_left _ _ lag_sec Ep Hlag) as [p Hp].
  refine (for_each_establishes _ _
            (fun col d => In (get_mapped_column (schema cfg) col) (columns d))
            (fun col d => In (lag_name (get_mapped_column (schema cfg) col) lag_sec)
                            (columns d))
            df out _ _ _ _ H col Hcol Hin).
  - intros c d d'.
    destruct (has_col d _); [| intros H'; injection H' as <-; apply extends_refl].
    apply for_each_extends. intros [l q] e e' H'.
    apply lag_step_returns in H'. destruct H' as [periods' ->].
    apply extends_set.
  - intros c d d' He. apply He.
  - intros c d d' He. apply He.
  - intros c d d' H' Hpre. apply has_col_iff in Hpre. rewrite Hpre in H'.
    refine (for_each_establishes _ _ (fun _ _ => True)
              (fun lp d => In (lag_name (get_mapped_column (schema cfg) c) (fst lp))
                              (columns d))
              d d' _ _ _ _ H' (lag_sec, p) Hp I).
    + intros [l q] e e' H''. apply lag_step_returns in H''.
      destruct H'' as [periods' ->]. apply extends_set.
    + auto.
    + intros lp e e' He. apply He.
    + intros [l q] e e' H'' _. apply lag_step_returns in H''.
      destruct H'' as [periods' ->]. apply in_set_col.
Qed.

Lemma rolling_window_step_extends (m : string) (window : Z) (d d' : DataFrame) :
  (w <- check_window window ;;
   let df := set_col d (rolling_name m "mean" window) (rolling w 1 agg_mean (loc d m)) in
   let df := set_col df (rolling_name m "std" window) (rolling w 1 agg_std (loc df m)) in
   let df := set_col df (rolling_name m "min" window) (rolling w 1 agg_min (loc df m)) in
   let df := set_col df (rolling_name m "max" window) (rolling w 1 agg_max (loc df m)) in
   let df := set_col df (rolling_name m "median" window)
               (rolling w 1 agg_median (loc df m)) in
   Returns df) = Returns d' ->
  extends d d' /\
  forall stat, In stat stat_names -> In (rolling_name m stat window) (columns d').
Proof.
  destruct (check_window window) as [w |]; simpl; [| discriminate].
  intros H. injection H as <-. split; [auto 10 with frames |].
  intros stat Hs. unfold stat_names in Hs. simpl in Hs.
  repeat (destruct Hs as [<- | Hs];
          [repeat (first [apply in_set_col | apply extends_set]) |]).
  destruct Hs.
Qed.

Lemma create_rolling_features_extends (cfg : OrganizationConfig)
  (df out : DataFrame) :
  create_rolling_features cfg df = Returns out -> extends df out.
Proof.
  unfold create_rolling_features.
  apply for_each_extends. intros col d d'.
  destruct (has_col d _); [| intros H; injection H as <-; apply extends_refl].
  apply for_each_extends. intros w e e' H.
  now apply rolling_window_step_extends in H.
Qed.

Lemma create_rolling_features_names (cfg : OrganizationConfig)
  (df out : DataFrame) (col stat : string) (window : Z) :
  create_rolling_features cfg df = Returns out ->
  In col (continuous_columns (schema cfg)) ->
  In stat stat_names ->
  In window (rolling_windows (schema cfg)) ->
  In (get_mapped_column (schema cfg) col) (columns df) ->
  In (rolling_name (get_mapped_column (schema cfg) col) stat window) (columns out).
Proof.
  unfold create_rolling_features. intros H Hcol Hstat Hwin Hin.
  refine (for_each_establishes _ _
            (fun col d => In (get_mapped_column (schema cfg) col) (columns d))
            (fun col d => In (rolling_name (get_mapped_column (schema cfg) col)
                               stat window) (columns d))
            df out _ _ _ _ H col Hcol Hin).
  - intros c d d'.
    destruct (has_col d _); [| intros H'; injection H' as <-; apply extends_refl].
    apply for_each_extends. intros w e e' H'.
    now apply rolling_window_step_extends in H'.
  - intros c d d' He. apply He.
  - intros c d d' He. apply He.
  - intros c d d' H' Hpre. apply has_col_iff in Hpre. rewrite Hpre in H'.
    refine (for_each_establishes _ _ (fun _ _ => True)
              (fun w d => In (rolling_name (get_mapped_column (schema cfg) c) stat w)
                             (columns d))
              d d' _ _ _ _ H' window Hwin I).
    + intros w e e' H''. now apply rolling_window_step_extends in H''.
    + auto.
    + intros w e e' He. apply He.
    + intros w e e' H'' _. apply rolling_window_step_extends in H''.
      now apply H''.
Qed.

Lemma create_rate_of_change_features_extends (cfg : OrganizationConfig)
  (df : DataFrame) : extends df (create_rate_of_change_features cfg df).
Proof.
  unfold create_rate_of_change_features. apply fold_left_extends.
  intros col d. solve_extends.
Qed.

Lemma create_interaction_features_extends (cfg : OrganizationConfig)
  (df : DataFrame) : extends df (create_interaction_features cfg df).
Proof.
  unfold create_interaction_features. apply fold_left_extends.
  intros [c1 c2] d. solve_extends.
Qed.

Lemma create_statistical_features_extends (cfg : OrganizationConfig)
  (df : DataFrame) : extends df (create_statistical_features cfg df).
Proof.
  unfold create_statistical_features. solve_extends.
Qed.

Lemma create_anomaly_features_extends (cfg : OrganizationConfig)
  (df : DataFrame) : extends df (create_anomaly_features cfg df).
Proof.
  unfold create_anomaly_features. apply fold_left_extends.
  intros col d. solve_extends.
Qed.

Lemma create_domain_specific_features_extends (K : Kernels)
  (cfg : OrganizationConfig) (df : DataFrame) :
  extends df (create_domain_specific_features K cfg df).
Proof.
  unfold create_domain_specific_features. solve_extends.
Qed.

(** The stages that follow the rolling stage keep every column. *)
Lemma later_stages_extend (K : Kernels) (cfg : OrganizationConfig) (df : DataFrame) :
  extends df
    (create_domain_specific_features K cfg
       (create_anomaly_features cfg
          (create_statistical_features cfg
             (create_interaction_features cfg
                (create_rate_of_change_features cfg df))))).
Proof.
  eapply extends_trans; [apply create_rate_of_change_features_extends |].
  eapply extends_trans; [apply create_interaction_features_extends |].
  eapply extends_trans; [apply create_statistical_features_extends |].
  eapply extends_trans; [apply create_anomaly_features_extends |].
  apply create_domain_specific_features_extends.
Qed.

Lemma run_generators_stages (K : Kernels) (cfg : OrganizationConfig)
  (df out : DataFrame) :
  run_generators K cfg df = Returns out ->
  exists d1 d2 d3,
    create_time_based_features K cfg df = Returns d1 /\
    create_lag_features cfg d1 = Returns d2 /\
    create_rolling_features cfg d2 = Returns d3 /\
    out = create_domain_specific_features K cfg
            (create_anomaly_features cfg
               (create_statistical_features cfg
                  (create_interaction_features cfg
                     (create_rate_of_change_features cfg d3)))).
Proof.
  unfold run_generators. intros H.
  destruct (create_time_based_features K cfg df) as [d1 |] eqn:E1; simpl in H;
    [| discriminate].
  destruct (create_lag_features cfg d1) as [d2 |] eqn:E2; simpl in H;
    [| discriminate].
  destruct (create_rolling_features cfg d2) as [d3 |] eqn:E3; simpl in H;
    [| discriminate].
  injection H as <-. exists d1, d2, d3. auto.
Qed.

Lemma run_generators_extends (K : Kernels) (cfg : OrganizationConfig)
  (df out : DataFrame) :
  run_generators K cfg df = Returns out -> extends df out.
Proof.
  intros H. apply run_generators_stages in H.
  destruct H as (d1 & d2 & d3 & H1 & H2 & H3 & ->).
  eapply extends_trans; [eapply create_time_based_features_extends; exact H1 |].
  eapply extends_trans; [eapply create_lag_features_extends; exact H2 |].
  eapply extends_trans; [eapply create_rolling_features_extends; exact H3 |].
  apply later_stages_extend.
Qed.

(** ** The feature enumeration *)

Lemma get_all_feature_columns_eq (sc : SchemaConfig) :
  get_all_feature_columns sc
  = flat_map (listed_features sc) (mapped_columns sc)
      ++ map (get_mapped_column sc) (boolean_columns sc).
Proof.
  unfold get_all_feature_columns, mapped_columns. f_equal.
  induction (continuous_columns sc) as [| c cs IH]; [reflexivity |].
  cbn [flat_map map]. rewrite IH. reflexivity.
Qed.

Lemma in_listed_features (sc : SchemaConfig) (m x : string) :
  In x (listed_features sc m) <->
  x = m
  \/ (exists lag_sec, In lag_sec (lag_seconds sc) /\ x = lag_name m lag_sec)
  \/ (exists stat window,
        In stat listed_stats /\ In window (rolling_windows sc) /\
        x = rolling_name m stat window).
Proof.
  unfold listed_features. rewrite !in_app_iff, in_map_iff, in_flat_map.
  change (In x [m]) with (m = x \/ False).
  split.
  - intros [[H | []] | [[l [H Hl]] | [w [Hw H]]]]; auto.
    + right. left. eauto.
    + apply in_map_iff in H. destruct H as [st [H Hst]]. right. right.
      exists st, w. auto.
  - intros [H | [[l [Hl H]] | [st [w [Hst [Hw H]]]]]]; auto.
    + right. left. eauto.
    + right. right. exists w. split; [assumption |].
      apply in_map_iff. eauto.
Qed.

Lemma listed_stats_named (stat : string) : In stat listed_stats -> In stat stat_names.
Proof.
  unfold listed_stats, stat_names. simpl. intuition.
Qed.

Lemma lag_rolling_distinct (m m' stat : string) (L w : Z) :
  lag_name m L <> rolling_name m' stat w.
Proof.
  intros H. apply (f_equal chars) in H.
  rewrite chars_lag_name, chars_rolling_name in H.
  assert (Hs : ~ In "s"%char numeric_chars).
  { unfold numeric_chars. simpl. intros F.
    repeat (destruct F as [F | F]; [discriminate |]). exact F. }
  apply sep_split in H.
  - destruct H as [_ H]. apply (str_no_char w _ Hs). rewrite <- H.
    apply in_or_app. right. now left.
  - intros Hin. apply in_app_or in Hin. destruct Hin as [Hin | Hin].
    + exact (str_no_char _ _ underscore_not_numeric Hin).
    + simpl in Hin. destruct Hin as [Hin | []]. discriminate.
  - apply str_no_char. exact underscore_not_numeric.
Qed.

Lemma NoDup_flat_map {A B : Type} (g : A -> list B) (xs : list A) :
  NoDup xs ->
  (forall x, In x xs -> NoDup (g x)) ->
  (forall x y b, In x xs -> In y xs -> In b (g x) -> In b (g y) -> x = y) ->
  NoDup (flat_map g xs).
Proof.
  intros Hnd. induction Hnd as [| x xs Hx Hnd IH]; intros Hg Hdis; simpl.
  - constructor.
  - apply NoDup_app.
    + apply Hg. now left.
    + apply IH.
      * intros y Hy. apply Hg. now right.
      * intros y z b Hy Hz. apply Hdis; now right.
    + intros b Hb Hb'. apply in_flat_map in Hb'. destruct Hb' as [y [Hy Hb']].
      apply Hx. rewrite (Hdis x y b); auto; [now left | now right].
Qed.

Lemma NoDup_app_disjoint {A : Type} (a b : list A) (x : A) :
  NoDup (a ++ b) -> In x a -> In x b -> False.
Proof.
  induction a as [| y a IH]; intros Hnd Ha Hb; [destruct Ha |].
  simpl in Hnd. inversion Hnd as [| ? ? Hy Hnd']; subst.
  destruct Ha as [-> | Ha].
  - apply Hy. apply in_or_app. now right.
  - now apply IH.
Qed.

Section Enumeration.
Variable sc : SchemaConfig.
Hypothesis Hdeclared : NoDup (declared_columns sc).
Hypothesis Hlags : NoDup (lag_seconds sc).
Hypothesis Hwindows : NoDup (rolling_windows sc).
Hypothesis Hfresh : declared_names_fresh sc.

Lemma mapped_is_declared (m : string) :
  In m (mapped_columns sc) -> In m (declared_columns sc).
Proof.
  unfold mapped_columns, declared_columns. rewrite map_app, in_app_iff. auto.
Qed.

Lemma mapped_not_lag (x m : string) (L : Z) :
  In x (declared_columns sc) -> In m (mapped_columns sc) ->
  In L (lag_seconds sc) -> x <> lag_name m L.
Proof.
  intros Hx Hm HL. unfold mapped_columns in Hm. apply in_map_iff in Hm.
  destruct Hm as [col [<- Hcol]].
  destruct (Hfresh x col Hx Hcol) as [H _]. now apply H.
Qed.

Lemma mapped_not_rolling (x m stat : string) (w : Z) :
  In x (declared_columns sc) -> In m (mapped_columns sc) ->
  In stat listed_stats -> In w (rolling_windows sc) ->
  x <> rolling_name m stat w.
Proof.
  intros Hx Hm Hs Hw. unfold mapped_columns in Hm. apply in_map_iff in Hm.
  destruct Hm as [col [<- Hcol]].
  destruct (Hfresh x col Hx Hcol) as [_ H]. now apply H.
Qed.

Lemma listed_features_owner (m m' x : string) :
  In m (mapped_columns sc) -> In m' (mapped_columns sc) ->
  In x (listed_features sc m) -> In x (listed_features sc m') -> m = m'.
Proof.
  intros Hm Hm' Hx Hx'.
  pose proof (mapped_is_declared m Hm) as Hd.
  pose proof (mapped_is_declared m' Hm') as Hd'.
  apply in_listed_features in Hx, Hx'.
  destruct Hx as [-> | [[L [HL ->]] | [st [w [Hst [Hw ->]]]]]];
    destruct Hx' as [E | [[L' [HL' E]] | [st' [w' [Hst' [Hw' E]]]]]].
  - exact E.
  - exfalso. exact (mapped_not_lag _ _ _ Hd Hm' HL' E).
  - exfalso. exact (mapped_not_rolling _ _ _ _ Hd Hm' Hst' Hw' E).
  - exfalso. exact (mapped_not_lag _ _ _ Hd' Hm HL (eq_sym E)).
  - now apply lag_name_inj in E.
  - exfalso. exact (lag_rolling_distinct _ _ _ _ _ E).
  - exfalso. exact (mapped_not_rolling _ _ _ _ Hd' Hm Hst Hw (eq_sym E)).
  - exfalso. exact (lag_rolling_distinct _ _ _ _ _ (eq_sym E)).
  - apply rolling_name_inj in E; try (now apply listed_stats_named).
    tauto.
Qed.

Lemma listed_features_NoDup (m : string) :
  In m (mapped_columns sc) -> NoDup (listed_features sc m).
Proof.
  intros Hm. pose proof (mapped_is_declared m Hm) as Hd.
  unfold listed_features. apply NoDup_app.
  - repeat constructor. intros [].
  - apply NoDup_app.
    + apply NoDup_map_NoDup_ForallPairs; [| exact Hlags].
      intros a b _ _ E. now apply lag_name_inj in E.
    + apply NoDup_flat_map; [exact Hwindows | |].
      * intros w _. apply NoDup_map_NoDup_ForallPairs.
        -- intros a b Ha Hb E.
           apply rolling_name_inj in E; try (now apply listed_stats_named).
           tauto.
        -- unfold listed_stats.
           repeat (constructor;
                   [simpl; intros F;
                    repeat (destruct F as [F | F]; [discriminate |]); exact F |]).
           constructor.
      * intros w w' x _ _ Hx Hx'. apply in_map_iff in Hx, Hx'.
        destruct Hx as [st [<- Hst]]. destruct Hx' as [st' [E Hst']].
        apply rolling_name_inj in E; try (now apply listed_stats_named).
        symmetry. tauto.
    + intros x Hx Hx'. apply in_map_iff in Hx. destruct Hx as [L [<- HL]].
      apply in_flat_map in Hx'. destruct Hx' as [w [Hw Hx']].
      apply in_map_iff in Hx'. destruct Hx' as [st [E Hst]].
      exact (lag_rolling_distinct _ _ _ _ _ (eq_sym E)).
  - intros x [<- | []] Hx. apply in_app_or in Hx. destruct Hx as [Hx | Hx].
    + apply in_map_iff in Hx. destruct Hx as [L [E HL]].
      exact (mapped_not_lag _ _ _ Hd Hm HL (eq_sym E)).
    + apply in_flat_map in Hx. destruct Hx as [w [Hw Hx]].
      apply in_map_iff in Hx. destruct Hx as [st [E Hst]].
      exact (mapped_not_rolling _ _ _ _ Hd Hm Hst Hw (eq_sym E)).
Qed.

Lemma get_all_feature_columns_NoDup : NoDup (get_all_feature_columns sc).
Proof.
  rewrite get_all_feature_columns_eq.
  pose proof Hdeclared as Hnd. unfold declared_columns in Hnd.
  rewrite map_app in Hnd. fold (mapped_columns sc) in Hnd.
  apply NoDup_app.
  - apply NoDup_flat_map.
    + now apply NoDup_app_remove_r in Hnd.
    + apply listed_features_NoDup.
    + intros m m' x. apply listed_features_owner.
  - now apply NoDup_app_remove_l in Hnd.
  - intros x Hx Hb. apply in_flat_map in Hx. destruct Hx as [m [Hm Hx]].
    assert (Hxd : In x (declared_columns sc)).
    { unfold declared_columns. rewrite map_app. apply in_or_app. now right. }
    apply in_listed_features in Hx.
    destruct Hx as [-> | [[L [HL ->]] | [st [w [Hst [Hw ->]]]]]].
    + exact (NoDup_app_disjoint _ _ _ Hnd Hm Hb).
    + exact (mapped_not_lag _ _ _ Hxd Hm HL eq_refl).
    + exact (mapped_not_rolling _ _ _ _ Hxd Hm Hst Hw eq_refl).
Qed.
End Enumeration.

Lemma in_declared_columns (sc : SchemaConfig) (col : string) :
  In col (continuous_columns sc) \/ In col (boolean_columns sc) ->
  In (get_mapped_column sc col) (declared_columns sc).
Proof.
  intros H. unfold declared_columns. apply in_map. apply in_or_app. exact H.
Qed.

(** C1, as the code has it: on a table holding every declared (mapped)
    continuous and boolean column, every name enumerated by
    [get_all_feature_columns] is a column of the table the generator stages
    produce; and the enumeration has no duplicate when the declared mapped
    names, the lags and the windows are pairwise distinct and no declared
    column bears a derived name.  The converse inclusion does not hold: the
    later stages add columns that the enumeration does not list. *)
Theorem feature_enumeration_is_generated (K : Kernels) (cfg : OrganizationConfig)
  (df out : DataFrame) :
  (forall name, In name (declared_columns (schema cfg)) -> In name (columns df)) ->
  run_generators K cfg df = Returns out ->
  (forall name, In name (get_all_feature_columns (schema cfg)) ->
                In name (columns out)) /\
  (NoDup (declared_columns (schema cfg)) ->
   NoDup (lag_seconds (schema cfg)) ->
   NoDup (rolling_windows (schema cfg)) ->
   declared_names_fresh (schema cfg) ->
   NoDup (get_all_feature_columns (schema cfg))).
Proof.
  intros Hdf Hrun. split; [| apply get_all_feature_columns_NoDup].
  pose proof (run_generators_extends K cfg df out Hrun) as Hext.
  apply run_generators_stages in Hrun.
  destruct Hrun as (d1 & d2 & d3 & H1 & H2 & H3 & ->).
  pose proof (create_time_based_features_extends _ _ _ _ H1) as E1.
  pose proof (create_lag_features_extends _ _ _ H2) as E2.
  pose proof (create_rolling_features_extends _ _ _ H3) as E3.
  intros name Hname. unfold get_all_feature_columns in Hname.
  apply in_app_or in Hname. destruct Hname as [Hname | Hname].
  - apply in_flat_map in Hname. destruct Hname as [col [Hcol Hname]].
    assert (Hbase : In (get_mapped_column (schema cfg) col) (columns df))
      by (apply Hdf, in_declared_columns; now left).
    cbv zeta in Hname. apply in_app_or in Hname. destruct Hname as [Hname | Hname];
      [| apply in_app_or in Hname; destruct Hname as [Hname | Hname]].
    + destruct Hname as [<- | []]. now apply Hext.
    + apply in_map_iff in Hname. destruct Hname as [L [<- HL]].
      apply later_stages_extend, E3.
      apply (create_lag_features_names cfg d1 d2 col L H2 Hcol HL).
      now apply E1.
    + apply in_flat_map in Hname. destruct Hname as [w [Hw Hname]].
      apply later_stages_extend.
      assert (Hm : In (get_mapped_column (schema cfg) col) (columns d2))
        by now apply E2, E1.
      assert (Hstat : forall stat, In stat stat_names ->
                In (rolling_name (get_mapped_column (schema cfg) col) stat w)
                   (columns d3)).
      { intros stat Hs.
        exact (create_rolling_features_names cfg d2 d3 col stat w H3 Hcol Hs Hw Hm). }
      simpl in Hname.
      repeat (destruct Hname as [<- | Hname];
              [apply Hstat; unfold stat_names; simpl; tauto |]).
      destruct Hname.
  - apply in_map_iff in Hname. destruct Hname as [col [<- Hcol]].
    apply Hext, Hdf, in_declared_columns. now right.
Qed.

Lemma feature_enumeration_is_generated_witness :
  exists out,
    run_generators example_kernels example_config example_table = Returns out /\
    (forall name, In name (get_all_feature_columns example_schema) ->
                  In name (columns out)) /\
    NoDup (get_all_feature_columns example_schema).
Proof.
  assert (E : exists out,
             run_generators example_kernels example_config example_table
             = Returns out) by (vm_compute; eexists; reflexivity).
  destruct E as [out E]. exists out. split; [exact E |].
  destruct (feature_enumeration_is_generated example_kernels example_config
              example_table out) as [Hin Hnd].
  - intros name [<- | []]. simpl. auto.
  - exact E.
  - split; [exact Hin |]. apply Hnd.
    + repeat constructor. intros [].
    + repeat constructor; simpl; intros F;
        repeat (destruct F as [F | F]; [discriminate |]); exact F.
    + repeat constructor. intros [].
    + intros name col [<- | []] [<- | []]. split.
      * intros L [<- | [<- | []]]; vm_compute; discriminate.
      * intros stat w Hs [<- | []]. unfold listed_stats in Hs. simpl in Hs.
        repeat (destruct Hs as [<- | Hs]; [vm_compute; discriminate |]).
        destruct Hs.
Defined.

(** C1, claim as stated: on a valid schema the generator stages add columns
    that the enumeration does not list (here the first difference), and the
    enumeration lists the base column, which no stage adds. *)
Lemma enumeration_misses_generated_columns :
  validate example_config = Returns [] /\
  exists out,
    run_generators example_kernels example_config example_table = Returns out /\
    In "x_roc" (added_columns example_table out) /\
    ~ In "x_roc" (get_all_feature_columns example_schema) /\
    In "x" (get_all_feature_columns example_schema) /\
    ~ In "x" (added_columns example_table out).
Proof.
  split; [reflexivity |].
  eexists. split; [vm_compute; reflexivity |].
  split; [vm_compute; tauto |].
  split.
  - vm_compute. intros F.
    repeat (destruct F as [F | F]; [discriminate |]). exact F.
  - split; [vm_compute; tauto |].
    vm_compute. intros F.
    repeat (destruct F as [F | F]; [discriminate |]). exact F.
Qed.

(** ** The cleaning step *)

Lemma wf_frame_has_rows (df : DataFrame) : wf_frame df <-> exists n, has_rows n df.
Proof.
  unfold wf_frame, has_rows. split; [eauto |].
  intros [n H]. destruct df as [| [k s] rest]; [constructor |].
  assert (Hs : List.length s = n) by (inversion H; assumption).
  simpl. rewrite Hs. exact H.
Qed.

Lemma has_rows_nrows (n : nat) (df : DataFrame) :
  has_rows n df -> df <> [] -> nrows df = n.
Proof.
  intros H Hne. destruct df as [| [k s] rest]; [contradiction |].
  inversion H; assumption.
Qed.

Lemma columns_keep_rows (mask : list bool) (df : DataFrame) :
  columns (keep_rows mask df) = columns df.
Proof. unfold columns, keep_rows. rewrite map_map. reflexivity. Qed.

Lemma columns_map_cols (f : Series -> Series) (df : DataFrame) :
  columns (map_cols f df) = columns df.
Proof. unfold columns, map_cols. rewrite map_map. reflexivity. Qed.

Lemma columns_clean_data (df : DataFrame) : columns (clean_data df) = columns df.
Proof.
  unfold clean_data, dropna, dropna_thresh.
  now rewrite columns_keep_rows, !columns_map_cols, columns_keep_rows.
Qed.

Lemma length_keep (mask : list bool) (s : Series) :
  List.length s = List.length mask ->
  List.length (keep mask s) = List.length (filter (fun b => b) mask).
Proof.
  revert s. induction mask as [| m mask IH]; intros [| x s] H;
    simpl in *; try discriminate; try reflexivity.
  destruct m; simpl; auto.
Qed.

Lemma has_rows_keep_rows (mask : list bool) (df : DataFrame) :
  has_rows (List.length mask) df ->
  has_rows (List.length (filter (fun b => b) mask)) (keep_rows mask df).
Proof.
  unfold has_rows, keep_rows. intros H. apply Forall_map.
  eapply Forall_impl; [| exact H]. intros c Hc. simpl. now apply length_keep.
Qed.

Lemma has_rows_map_cols (f : Series -> Series) (n : nat) (df : DataFrame) :
  (forall s, List.length (f s) = List.length s) ->
  has_rows n df -> has_rows n (map_cols f df).
Proof.
  unfold has_rows, map_cols. intros Hf H. apply Forall_map.
  eapply Forall_impl; [| exact H]. intros c Hc. simpl. now rewrite Hf.
Qed.

Lemma length_bfill (s : Series) : List.length (bfill s) = List.length s.
Proof.
  unfold bfill, ffill. now rewrite length_rev, length_ffill_from, length_rev.
Qed.

Lemma keep_all_true (mask : list bool) (s : Series) :
  List.length s = List.length mask ->
  Forall (fun b => b = true) mask -> keep mask s = s.
Proof.
  revert s. induction mask as [| m mask IH]; intros [| x s] Hl H;
    simpl in *; try discriminate; try reflexivity.
  inversion H; subst. f_equal. apply IH; [lia | assumption].
Qed.

Lemma keep_all_false (mask : list bool) (s : Series) :
  Forall (fun b => b = false) mask -> keep mask s = [].
Proof.
  revert s. induction mask as [| m mask IH]; intros [| x s] H;
    simpl; try reflexivity.
  inversion H; subst. now apply IH.
Qed.

Lemma keep_forallb (p : float -> bool) (mask : list bool) (s : Series) :
  (forall i, (i < List.length s)%nat -> nth i mask false = true ->
             p (cell s i) = true) ->
  forallb p (keep mask s) = true.
Proof.
  revert s. induction mask as [| m mask IH]; intros [| x s] H;
    simpl; try reflexivity.
  assert (Hrest : forallb p (keep mask s) = true).
  { apply IH. intros i Hi Hm. apply (H (S i)); [simpl; lia | exact Hm]. }
  destruct m; [| exact Hrest].
  simpl. rewrite Hrest, andb_true_r. apply (H 0%nat); [simpl; lia | reflexivity].
Qed.

Lemma nth_map_seq (f : nat -> bool) (n i : nat) :
  (i < n)%nat -> nth i (map f (seq 0 n)) false = f i.
Proof.
  intros Hi. rewrite (nth_indep _ false (f 0%nat)) by (rewrite length_map, length_seq; lia).
  rewrite (map_nth f (seq 0 n) 0%nat i), seq_nth by lia. reflexivity.
Qed.

Lemma map_cols_id (f : Series -> Series) (df : DataFrame) :
  Forall (fun c => f (snd c) = snd c) df -> map_cols f df = df.
Proof.
  unfold map_cols. intros H. induction H as [| [k s] rest Hc _ IH]; simpl;
    [reflexivity |].
  simpl in Hc. now rewrite Hc, IH.
Qed.

Lemma ffill_from_valid (l : float) (s : Series) :
  forallb notna s = true -> ffill_from l s = s.
Proof.
  revert l. induction s as [| x s IH]; intros l H; simpl in *; [reflexivity |].
  apply andb_true_iff in H. destruct H as [Hx Hs].
  unfold notna in Hx. apply negb_true_iff in Hx. rewrite Hx. f_equal. now apply IH.
Qed.

Lemma forallb_rev (p : float -> bool) (s : Series) :
  forallb p (rev s) = forallb p s.
Proof.
  induction s as [| x s IH]; simpl; [reflexivity |].
  rewrite forallb_app. simpl. rewrite IH, andb_true_r. apply andb_comm.
Qed.

Lemma bfill_valid (s : Series) : forallb notna s = true -> bfill s = s.
Proof.
  intros H. unfold bfill, ffill. rewrite ffill_from_valid.
  - apply rev_involutive.
  - now rewrite forallb_rev.
Qed.

(** The cells of a valid rectangular frame: every row is fully populated. *)
Lemma valid_row (n : nat) (df : DataFrame) (i : nat) :
  has_rows n df -> all_valid df -> (i < n)%nat ->
  forallb notna (row df i) = true
  /\ List.length (filter notna (row df i)) = List.length df.
Proof.
  unfold has_rows, all_valid, row. intros Hr Hv Hi.
  induction df as [| [k s] rest IH]; [simpl; auto |].
  assert (Hs : List.length s = n) by (inversion Hr; assumption).
  assert (Hvs : forallb notna s = true) by (inversion Hv; assumption).
  assert (Hr' : Forall (fun c => List.length (snd c) = n) rest)
    by (inversion Hr; assumption).
  assert (Hv' : Forall (fun c => forallb notna (snd c) = true) rest)
    by (inversion Hv; assumption).
  destruct (IH Hr' Hv') as [IH1 IH2].
  assert (Hc : notna (cell s i) = true).
  { rewrite forallb_forall in Hvs. apply Hvs. unfold cell. apply nth_In. lia. }
  simpl. rewrite Hc. simpl. now rewrite IH1, IH2.
Qed.

Lemma keep_rows_all (mask : list bool) (df : DataFrame) :
  has_rows (List.length mask) df ->
  Forall (fun b => b = true) mask -> keep_rows mask df = df.
Proof.
  intros Hr Hm. apply map_cols_id.
  eapply Forall_impl; [| exact Hr]. intros c Hc. now apply keep_all_true.
Qed.

Lemma dropna_valid (n : nat) (df : DataFrame) :
  has_rows n df -> all_valid df -> dropna df = df.
Proof.
  intros Hr Hv. unfold dropna.
  destruct df as [| c0 rest] eqn:Edf; [reflexivity |]. rewrite <- Edf in *.
  assert (Hn : nrows df = n) by (apply has_rows_nrows; [assumption | now subst]).
  rewrite Hn. apply keep_rows_all.
  - now rewrite length_map, length_seq.
  - apply Forall_forall. intros b Hb. apply in_map_iff in Hb.
    destruct Hb as [i [<- Hi]]. apply in_seq in Hi.
    now apply (valid_row n df i Hr Hv).
Qed.

Lemma dropna_all_valid (df : DataFrame) : all_valid (dropna df).
Proof.
  unfold all_valid, dropna, keep_rows. apply Forall_map.
  apply Forall_forall. intros c Hc. simpl.
  apply keep_forallb. intros i Hi Hm.
  destruct (Nat.lt_ge_cases i (nrows df)) as [Hlt | Hge].
  - rewrite nth_map_seq in Hm by assumption.
    rewrite forallb_forall in Hm. apply Hm. unfold row.
    apply in_map_iff. exists c. auto.
  - rewrite nth_overflow in Hm by (rewrite length_map, length_seq; lia).
    discriminate.
Qed.

Lemma dropna_thresh_valid (t : Z) (n : nat) (df : DataFrame) :
  has_rows n df -> all_valid df ->
  t <= Z.of_nat (List.length df) \/ n = 0%nat ->
  dropna_thresh t df = df.
Proof.
  intros Hr Hv Ht. unfold dropna_thresh.
  destruct df as [| c0 rest] eqn:Edf; [reflexivity |]. rewrite <- Edf in *.
  assert (Hn : nrows df = n) by (apply has_rows_nrows; [assumption | now subst]).
  rewrite Hn. apply keep_rows_all.
  - now rewrite length_map, length_seq.
  - apply Forall_forall. intros b Hb. apply in_map_iff in Hb.
    destruct Hb as [i [<- Hi]]. apply in_seq in Hi.
    destruct Ht as [Ht | Ht]; [| lia].
    destruct (valid_row n df i Hr Hv) as [_ Hc]; [lia |].
    rewrite Hc. now apply Z.leb_le.
Qed.

Lemma has_rows_dropna (n : nat) (df : DataFrame) :
  has_rows n df -> exists n', has_rows n' (dropna df) /\ (n = 0%nat -> n' = 0%nat).
Proof.
  intros Hr. unfold dropna.
  destruct df as [| c0 rest] eqn:Edf; [exists 0%nat; split; [constructor | auto] |].
  rewrite <- Edf in *.
  assert (Hn : nrows df = n) by (apply has_rows_nrows; [assumption | now subst]).
  rewrite Hn. eexists. split.
  - apply has_rows_keep_rows. now rewrite length_map, length_seq.
  - intros ->. reflexivity.
Qed.

Lemma has_rows_dropna_thresh (t : Z) (n : nat) (df : DataFrame) :
  has_rows n df ->
  exists n', has_rows n' (dropna_thresh t df)
             /\ (Z.of_nat (List.length df) < t -> n' = 0%nat).
Proof.
  intros Hr. unfold dropna_thresh.
  destruct df as [| c0 rest] eqn:Edf; [exists 0%nat; split; [constructor | auto] |].
  rewrite <- Edf in *.
  assert (Hn : nrows df = n) by (apply has_rows_nrows; [assumption | now subst]).
  rewrite Hn. eexists. split.
  - apply has_rows_keep_rows. now rewrite length_map, length_seq.
  - intros Ht.
    assert (Hall : forall l : list nat,
               filter (fun b : bool => b)
                 (map (fun i => t <=? Z.of_nat (List.length (filter notna (row df i)))) l)
               = []).
    { induction l as [| i l IH]; [reflexivity |]. simpl.
      pose proof (filter_length_le notna (row df i)) as Hle.
      unfold row in Hle at 2. rewrite length_map in Hle.
      destruct (Z.leb_spec t (Z.of_nat (List.length (filter notna (row df i)))));
        [lia | exact IH]. }
    now rewrite Hall.
Qed.

Lemma clean_data_shape (n : nat) (df : DataFrame) :
  has_rows n df ->
  exists n', has_rows n' (clean_data df) /\ all_valid (clean_data df)
             /\ (row_threshold (List.length df) <= Z.of_nat (List.length df)
                 \/ n' = 0%nat).
Proof.
  intros Hr. unfold clean_data.
  replace (List.length (columns df)) with (List.length df)
    by (unfold columns; now rewrite length_map).
  fold (row_threshold (List.length df)).
  destruct (has_rows_dropna_thresh (row_threshold (List.length df)) n df Hr)
    as [n1 [H1 Hz]].
  assert (H3 : has_rows n1
                 (map_cols bfill (map_cols ffill
                    (dropna_thresh (row_threshold (List.length df)) df)))).
  { apply has_rows_map_cols; [apply length_bfill |].
    apply has_rows_map_cols; [intros s; apply length_ffill_from | exact H1]. }
  destruct (has_rows_dropna n1 _ H3) as [n' [H4 Hz']].
  exists n'. split; [exact H4 |]. split; [apply dropna_all_valid |].
  destruct (Z.le_gt_cases (row_threshold (List.length df)) (Z.of_nat (List.length df)));
    [now left | right]. apply Hz', Hz. lia.
Qed.

Lemma clean_data_valid (n : nat) (df : DataFrame) :
  has_rows n df -> all_valid df ->
  row_threshold (List.length df) <= Z.of_nat (List.length df) \/ n = 0%nat ->
  clean_data df = df.
Proof.
  intros Hr Hv Ht. unfold clean_data.
  replace (List.length (columns df)) with (List.length df)
    by (unfold columns; now rewrite length_map).
  fold (row_threshold (List.length df)).
  rewrite (dropna_thresh_valid _ n) by assumption.
  rewrite (map_cols_id ffill), (map_cols_id bfill).
  - now apply (dropna_valid n).
  - eapply Forall_impl; [| exact Hv]. intros c Hc. now apply bfill_valid.
  - eapply Forall_impl; [| exact Hv]. intros c Hc. now apply ffill_from_valid.
Qed.

(** C7: the cleaning policy (drop the rows holding fewer than 70% of the
    columns, forward fill, backward fill, drop the rows still holding a
    missing value) is idempotent: applied to its own output it returns the
    identical table, no step dropping a further row or filling a further
    cell. *)
Theorem clean_data_idempotent (df : DataFrame) :
  wf_frame df ->
  let cleaned := clean_data df in
  clean_data cleaned = cleaned /\
  dropna_thresh (row_threshold (List.length (columns cleaned))) cleaned = cleaned /\
  map_cols ffill cleaned = cleaned /\
  map_cols bfill cleaned = cleaned /\
  dropna cleaned = cleaned.
Proof.
  intros Hwf cleaned. apply wf_frame_has_rows in Hwf. destruct Hwf as [n Hr].
  destruct (clean_data_shape n df Hr) as [n' [Hr' [Hv Ht]]]. fold cleaned in Hr', Hv.
  assert (Hlen : List.length cleaned = List.length df).
  { pose proof (columns_clean_data df) as Hc.
    apply (f_equal (@List.length string)) in Hc.
    unfold columns in Hc. now rewrite !length_map in Hc. }
  rewrite <- Hlen in Ht.
  split; [now apply (clean_data_valid n') |].
  split.
  { unfold columns. rewrite length_map. now apply (dropna_thresh_valid _ n'). }
  split.
  { apply map_cols_id. eapply Forall_impl; [| exact Hv].
    intros c Hc. now apply ffill_from_valid. }
  split.
  { apply map_cols_id. eapply Forall_impl; [| exact Hv].
    intros c Hc. now apply bfill_valid. }
  now apply (dropna_valid n').
Qed.

Lemma clean_data_idempotent_witness :
  wf_frame sparse_table
  /\ clean_data sparse_table
     = [("a", [1; 3; 4]%float); ("b", [5; 5; 5]%float); ("c", [7; 7; 9]%float)]
  /\ clean_data (clean_data sparse_table) = clean_data sparse_table.
Proof.
  split; [repeat constructor |]. split; [reflexivity |].
  apply (clean_data_idempotent sparse_table). repeat constructor.
Defined.

(** ** Selection and orchestration *)

Lemma get_col_in (df : DataFrame) (c : string) (s : Series) :
  get_col df c = Some s -> In (c, s) df.
Proof.
  induction df as [| [k v] rest IH]; simpl; [discriminate |].
  destruct (String.eqb k c) eqn:E.
  - apply String.eqb_eq in E. subst k. intros H. injection H as ->. now left.
  - intros H. right. now apply IH.
Qed.

Lemma select_cols_columns (df d : DataFrame) (names : list string) :
  select_cols df names = Returns d -> columns d = names.
Proof.
  unfold select_cols. revert d.
  induction names as [| c names IH]; intros d H; simpl in H.
  - now injection H as <-.
  - destruct (getitem df c) as [s |]; simpl in H; [| discriminate].
    destruct (map_m _ names) as [d' |]; simpl in H; [| discriminate].
    injection H as <-. simpl. f_equal. now apply IH.
Qed.

Lemma select_cols_valid (df d : DataFrame) (names : list string) :
  all_valid df -> select_cols df names = Returns d -> all_valid d.
Proof.
  unfold select_cols, all_valid. intros Hv. revert d.
  induction names as [| c names IH]; intros d H; simpl in H.
  - injection H as <-. constructor.
  - unfold getitem in H at 1. destruct (get_col df c) as [s |] eqn:E; simpl in H;
      [| discriminate].
    destruct (map_m _ names) as [d' |]; simpl in H; [| discriminate].
    injection H as <-. constructor; [| now apply IH].
    apply get_col_in in E. rewrite Forall_forall in Hv. exact (Hv _ E).
Qed.

Lemma select_cols_exists (df : DataFrame) (names : list string) :
  (forall c, In c names -> In c (columns df)) ->
  exists d, select_cols df names = Returns d.
Proof.
  unfold select_cols. induction names as [| c names IH]; intros H; simpl.
  - eauto.
  - destruct (proj2 (get_col_some_iff df c) (H c (or_introl eq_refl))) as [s Hs].
    unfold getitem at 1. rewrite Hs. simpl.
    destruct IH as [d Hd]; [intros x Hx; apply H; now right |].
    rewrite Hd. simpl. eauto.
Qed.

Lemma take_masked_incl {A : Type} (mask : list bool) (xs : list A) (x : A) :
  In x (take_masked mask xs) -> In x xs.
Proof.
  revert xs. induction mask as [| m mask IH]; intros [| y xs] H;
    simpl in *; try contradiction.
  destruct m; [destruct H as [-> | H] |]; auto.
Qed.

Lemma filter_all {A : Type} (p : A -> bool) (l : list A) :
  (forall x, In x l -> p x = true) -> filter p l = l.
Proof.
  induction l as [| x l IH]; intros H; simpl; [reflexivity |].
  rewrite (H x) by now left. f_equal. apply IH. intros y Hy. apply H. now right.
Qed.

(** The steps a successful [select_features] call went through. *)
Lemma select_features_returns (K : Kernels) (cfg : OrganizationConfig)
  (df d : DataFrame) (target_col : string) (feature_columns sel : list string)
  (k : Z) (method : string) :
  select_features K cfg df target_col feature_columns k method = Returns (d, sel) ->
  exists X y score_func scores,
    select_cols df feature_columns = Returns X /\
    getitem df target_col = Returns y /\
    (method = "f_classif" /\ score_func = f_classif
     \/ method = "mutual_info" /\ score_func = mutual_info_classif K) /\
    let k' := Z.min k (Z.of_nat (List.length feature_columns)) in
    fit score_func k' (keep_rows (eligible_mask X y) X) (keep (eligible_mask X y) y)
    = Returns scores /\
    sel = take_masked (get_support_mask k' scores) feature_columns /\
    select_cols df (sel ++ [target_col; timestamp_column (schema cfg)]) = Returns d.
Proof.
  unfold select_features. intros H.
  destruct (select_cols df feature_columns) as [X |]; simpl in H; [| discriminate].
  destruct (getitem df target_col) as [y |]; simpl in H; [| discriminate].
  fold (eligible_mask X y) in H.
  assert (Hm : exists score_func,
             (method = "f_classif" /\ score_func = f_classif
              \/ method = "mutual_info" /\ score_func = mutual_info_classif K)
             /\ (if String.eqb method "f_classif" then Returns f_classif
                 else if String.eqb method "mutual_info"
                      then Returns (mutual_info_classif K)
                      else Raises ValueError) = Returns score_func).
  { destruct (String.eqb_spec method "f_classif") as [-> | _]; [eauto |].
    destruct (String.eqb_spec method "mutual_info") as [-> | _]; [eauto |].
    discriminate H. }
  destruct Hm as (score_func & Hmethod & Esf). rewrite Esf in H. cbn [bind] in H.
  destruct (fit score_func _ _ _) as [scores |] eqn:Efit; simpl in H; [| discriminate].
  destruct (select_cols df (_ ++ _)) as [d' |] eqn:Esel; simpl in H; [| discriminate].
  injection H as <- <-.
  exists X, y, score_func, scores. cbv zeta. auto 10.
Qed.

Lemma is_candidate_excluded (sc : SchemaConfig) :
  filter (is_candidate sc) [target_column sc; timestamp_column sc] = [].
Proof.
  unfold is_candidate. simpl. rewrite !String.eqb_refl. simpl.
  now rewrite orb_true_r.
Qed.

(** C9: [engineer_features] returns a table and a list of feature names
    that is exactly the list of the table's columns other than the target
    and the timestamp: the selected names when the selection ran (only when
    [include_selection] holds and the candidates outnumber [max_features]),
    otherwise all candidate columns. *)
Theorem engineer_features_names_match_columns (K : Kernels)
  (cfg : OrganizationConfig) (df out : DataFrame) (include_selection : bool)
  (max_features : Z) (feature_names : list string) :
  engineer_features K cfg df include_selection max_features
  = Returns (out, feature_names) ->
  feature_names = filter (is_candidate (schema cfg)) (columns out) /\
  exists generated,
    run_generators K cfg (rename (column_mapping (schema cfg)) df) = Returns generated /\
    let cleaned := clean_data generated in
    let candidates := filter (is_candidate (schema cfg)) (columns cleaned) in
    if include_selection && (max_features <? Z.of_nat (List.length candidates))
    then select_features K cfg cleaned (target_column (schema cfg)) candidates
           max_features "f_classif" = Returns (out, feature_names)
         /\ (forall name, In name feature_names -> In name candidates)
    else out = cleaned /\ feature_names = candidates.
Proof.
  unfold engineer_features. intros H.
  destruct (run_generators K cfg _) as [g |]; simpl in H; [| discriminate].
  fold (is_candidate (schema cfg)) in H.
  set (cands := filter (is_candidate (schema cfg)) (columns (clean_data g))) in *.
  assert (Hmain :
    if include_selection && (max_features <? Z.of_nat (List.length cands))
    then select_features K cfg (clean_data g) (target_column (schema cfg)) cands
           max_features "f_classif" = Returns (out, feature_names)
         /\ (forall name, In name feature_names -> In name cands)
    else out = clean_data g /\ feature_names = cands).
  { destruct (include_selection && _).
    - split; [exact H |].
      apply select_features_returns in H.
      destruct H as (X & y & sf & scores & _ & _ & _ & _ & -> & _).
      intros name. apply take_masked_incl.
    - injection H as <- <-. auto. }
  split; [| exists g; split; [reflexivity | exact Hmain]].
  destruct (include_selection && _).
  - destruct Hmain as [Hsel Hincl].
    apply select_features_returns in Hsel.
    destruct Hsel as (X & y & sf & scores & _ & _ & _ & _ & _ & Hd).
    apply select_cols_columns in Hd. rewrite Hd, filter_app, is_candidate_excluded.
    rewrite app_nil_r. symmetry. apply filter_all.
    intros name Hn. apply Hincl in Hn. unfold cands in Hn.
    now apply filter_In in Hn.
  - destruct Hmain as [-> ->]. reflexivity.
Qed.

(** C10: on every input on which [engineer_features] completes, no cell of
    the returned table is missing, whether or not the selection ran. *)
Theorem engineer_features_output_has_no_missing (K : Kernels)
  (cfg : OrganizationConfig) (df out : DataFrame) (include_selection : bool)
  (max_features : Z) (feature_names : list string) :
  engineer_features K cfg df include_selection max_features
  = Returns (out, feature_names) ->
  forall name col i,
    In (name, col) out -> (i < List.length col)%nat ->
    isna (cell col i) = false.
Proof.
  intros H.
  assert (Hv : all_valid out).
  { unfold engineer_features in H.
    destruct (run_generators K cfg _) as [g |]; simpl in H; [| discriminate].
    assert (Hc : all_valid (clean_data g)) by apply dropna_all_valid.
    destruct (include_selection && _).
    - apply select_features_returns in H.
      destruct H as (X & y & sf & scores & _ & _ & _ & _ & _ & Hd).
      exact (select_cols_valid _ _ _ Hc Hd).
    - now injection H as <- <-. }
  intros name col i Hget Hi.
  unfold all_valid in Hv. rewrite Forall_forall in Hv.
  specialize (Hv _ Hget). simpl in Hv. rewrite forallb_forall in Hv.
  specialize (Hv (cell col i) (nth_In _ _ Hi)).
  unfold notna in Hv. now apply negb_true_iff in Hv.
Qed.

Lemma engineer_features_names_match_columns_witness :
  exists out names,
    engineer_features example_kernels example_config timed_table true 3
    = Returns (out, names) /\
    names = ["x_rolling_std_2"; "x_roc"; "x_pct_change"] /\
    names = filter (is_candidate example_schema) (columns out).
Proof.
  assert (E : exists out names,
             engineer_features example_kernels example_config timed_table true 3
             = Returns (out, names) /\
             names = ["x_rolling_std_2"; "x_roc"; "x_pct_change"])
    by (vm_compute; eexists; eexists; split; reflexivity).
  destruct E as (out & names & E & Hn). exists out, names.
  split; [exact E |]. split; [exact Hn |].
  exact (proj1 (engineer_features_names_match_columns
                  example_kernels example_config timed_table out true 3 names E)).
Defined.

Lemma engineer_features_output_has_no_missing_witness :
  exists out names,
    engineer_features example_kernels example_config timed_table true 3
    = Returns (out, names) /\
    forall name col i,
      In (name, col) out -> (i < List.length col)%nat ->
      isna (cell col i) = false.
Proof.
  assert (E : exists out names,
             engineer_features example_kernels example_config timed_table true 3
             = Returns (out, names))
    by (vm_compute; eexists; eexists; reflexivity).
  destruct E as (out & names & E). exists out, names.
  split; [exact E |].
  exact (engineer_features_output_has_no_missing
           example_kernels example_config timed_table out true 3 names E).
Defined.

(** ** Empty results *)

Lemma has_rows_get_col (n : nat) (df : DataFrame) (c : string) (s : Series) :
  has_rows n df -> get_col df c = Some s -> List.length s = n.
Proof.
  intros Hr Hg. apply get_col_in in Hg.
  unfold has_rows in Hr. rewrite Forall_forall in Hr. exact (Hr _ Hg).
Qed.

(** With no eligible row left after the missing-value filter, the scoring
    library rejects the input. *)
Lemma select_features_no_eligible_rows (K : Kernels) (cfg : OrganizationConfig)
  (df X : DataFrame) (y : Series) (target_col : string)
  (feature_columns : list string) (k : Z) (method : string) :
  select_cols df feature_columns = Returns X ->
  getitem df target_col = Returns y ->
  keep (eligible_mask X y) y = [] ->
  select_features K cfg df target_col feature_columns k method = Raises ValueError.
Proof.
  intros HX Hy Hrows. unfold select_features. rewrite HX, Hy. cbn [bind].
  fold (eligible_mask X y). rewrite Hrows.
  destruct (String.eqb method "f_classif"); [reflexivity |].
  destruct (String.eqb method "mutual_info"); reflexivity.
Qed.

Lemma engineer_features_on_empty_cleaned_table (K : Kernels)
  (cfg : OrganizationConfig) (df generated : DataFrame)
  (include_selection : bool) (max_features : Z) :
  run_generators K cfg (rename (column_mapping (schema cfg)) df) = Returns generated ->
  has_rows 0 (clean_data generated) ->
  let cleaned := clean_data generated in
  let candidates := filter (is_candidate (schema cfg)) (columns cleaned) in
  if include_selection && (max_features <? Z.of_nat (List.length candidates))
  then engineer_features K cfg df include_selection max_features
       = Raises (if has_col cleaned (target_column (schema cfg))
                 then ValueError else KeyError)
  else engineer_features K cfg df include_selection max_features
       = Returns (cleaned, candidates).
Proof.
  intros Hgen Hrows cleaned candidates. unfold engineer_features.
  rewrite Hgen. cbn [bind]. fold (is_candidate (schema cfg)).
  fold cleaned. fold candidates.
  destruct (include_selection && _); [| reflexivity].
  destruct (select_cols_exists cleaned candidates) as [X HX].
  { intros c Hc. unfold candidates in Hc. now apply filter_In in Hc. }
  unfold has_col. destruct (get_col cleaned (target_column (schema cfg))) as [y |] eqn:Ey.
  - assert (Hy : y = []).
    { apply (has_rows_get_col 0 cleaned _ y Hrows) in Ey. now destruct y. }
    apply (select_features_no_eligible_rows K cfg cleaned X y); auto.
    + unfold getitem. now rewrite Ey.
    + now subst y.
  - unfold select_features. rewrite HX. unfold getitem. rewrite Ey. reflexivity.
Qed.

(** C4, as the code has it: when the cleaning step removes every row,
    [engineer_features] returns the empty table with the candidate names
    unless the selection runs, in which case the call fails with the
    [ValueError] of the scoring library's input validation (or with a
    [KeyError] when the target column is absent); and [select_features],
    left with no eligible row by its missing-value filter, fails with that
    [ValueError]. *)
Theorem empty_data_outcomes (K : Kernels) (cfg : OrganizationConfig) :
  (forall (df generated : DataFrame) (include_selection : bool) (max_features : Z),
     run_generators K cfg (rename (column_mapping (schema cfg)) df)
     = Returns generated ->
     has_rows 0 (clean_data generated) ->
     let cleaned := clean_data generated in
     let candidates := filter (is_candidate (schema cfg)) (columns cleaned) in
     if include_selection && (max_features <? Z.of_nat (List.length candidates))
     then engineer_features K cfg df include_selection max_features
          = Raises (if has_col cleaned (target_column (schema cfg))
                    then ValueError else KeyError)
     else engineer_features K cfg df include_selection max_features
          = Returns (cleaned, candidates)) /\
  (forall (df X : DataFrame) (y : Series) (target_col : string)
          (feature_columns : list string) (k : Z) (method : string),
     select_cols df feature_columns = Returns X ->
     getitem df target_col = Returns y ->
     keep (eligible_mask X y) y = [] ->
     select_features K cfg df target_col feature_columns k method
     = Raises ValueError).
Proof.
  split.
  - apply engineer_features_on_empty_cleaned_table.
  - apply select_features_no_eligible_rows.
Qed.

Lemma empty_data_outcomes_witness :
  run_generators example_kernels example_config
    (rename (column_mapping (schema example_config)) single_row_table)
  = Returns single_row_generated
  /\ has_rows 0 (clean_data single_row_generated)
  /\ engineer_features example_kernels example_config single_row_table true 3
     = Raises ValueError
  /\ engineer_features example_kernels example_config single_row_table false 3
     = Returns (clean_data single_row_generated,
                filter (is_candidate example_schema)
                  (columns (clean_data single_row_generated))).
Proof.
  assert (Hg : run_generators example_kernels example_config
                 (rename (column_mapping (schema example_config)) single_row_table)
               = Returns single_row_generated) by (vm_compute; reflexivity).
  assert (Hr : has_rows 0 (clean_data single_row_generated))
    by (vm_compute; repeat constructor).
  split; [exact Hg |]. split; [exact Hr |]. split.
  - pose proof (proj1 (empty_data_outcomes example_kernels example_config)
                  single_row_table single_row_generated true 3 Hg Hr) as H.
    vm_compute in H. vm_compute. exact H.
  - pose proof (proj1 (empty_data_outcomes example_kernels example_config)
                  single_row_table single_row_generated false 3 Hg Hr) as H.
    vm_compute in H. vm_compute. exact H.
Defined.

(** C4, claim as stated: a table whose rows are all removed by the cleaning
    step makes [engineer_features] return an empty table, not fail. *)
Lemma cleaning_all_rows_returns_empty_result :
  exists out names,
    engineer_features example_kernels example_config single_row_table true 100
    = Returns (out, names) /\
    columns out <> [] /\ has_rows 0 out.
Proof.
  eexists. eexists. split; [vm_compute; reflexivity |].
  split; [discriminate | repeat constructor].
Qed.

(** ** Ranking by score *)

Lemma SFcompare_finite_cases (s1 s2 : bool) (m1 m2 : positive) (e1 e2 : Z) :
  SFcompare (S754_finite s1 m1 e1) (S754_finite s2 m2 e2)
  = Some (if s1
          then if s2
               then match e1 ?= e2 with
                    | Eq => CompOpp (Pos.compare m1 m2)
                    | Lt => Gt
                    | Gt => Lt
                    end
               else Lt
          else if s2
               then Gt
               else match e1 ?= e2 with
                    | Eq => Pos.compare m1 m2
                    | Lt => Lt
                    | Gt => Gt
                    end).
Proof. reflexivity. Qed.

Lemma SFleb_total (x y : spec_float) :
  x <> S754_nan -> y <> S754_nan -> SFleb x y = false -> SFleb y x = true.
Proof.
  intros Hx Hy. unfold SFleb.
  destruct x as [s1 | s1 | | s1 m1 e1]; destruct y as [s2 | s2 | | s2 m2 e2];
    try contradiction; rewrite ?SFcompare_finite_cases;
    try (simpl; destruct s1; try destruct s2; simpl; congruence).
  destruct s1, s2; try (simpl; congruence);
    rewrite (Z.compare_antisym e1 e2), (Pos.compare_antisym m1 m2);
    destruct (e1 ?= e2); simpl; try congruence;
    destruct (m1 ?= m2)%positive; simpl; congruence.
Qed.

Lemma SFleb_trans (x y z : spec_float) :
  SFleb x y = true -> SFleb y z = true -> SFleb x z = true.
Proof.
  unfold SFleb.
  destruct x as [s1 | s1 | | s1 m1 e1]; destruct y as [s2 | s2 | | s2 m2 e2];
    destruct z as [s3 | s3 | | s3 m3 e3];
    rewrite ?SFcompare_finite_cases;
    try (simpl; congruence);
    try (simpl; destruct s1; try destruct s2; try destruct s3; simpl; congruence).
  all: destruct s1, s2, s3; try (simpl; congruence).
  all: destruct (Z.compare_spec e1 e2); destruct (Z.compare_spec e2 e3);
    destruct (Z.compare_spec e1 e3); try lia; try (simpl; congruence);
    destruct (Pos.compare_spec m1 m2); destruct (Pos.compare_spec m2 m3);
    destruct (Pos.compare_spec m1 m3); try lia; simpl; congruence.
Qed.

Lemma leb_total (a b : float) :
  a <> nan -> b <> nan -> PrimFloat.leb a b = false -> PrimFloat.leb b a = true.
Proof.
  intros Ha Hb. rewrite !leb_spec. apply SFleb_total.
  - intros E. apply Ha. apply Prim2SF_inj. exact E.
  - intros E. apply Hb. apply Prim2SF_inj. exact E.
Qed.

Lemma leb_trans (a b c : float) :
  PrimFloat.leb a b = true -> PrimFloat.leb b c = true -> PrimFloat.leb a c = true.
Proof. rewrite !leb_spec. apply SFleb_trans. Qed.























(** ** The selector *)


Lemma length_select_cols (df d : DataFrame) (names : list string) :
  select_cols df names = Returns d -> List.length d = List.length names.
Proof.
  intros H. apply select_cols_columns in H.
  apply (f_equal (@List.length string)) in H. unfold columns in H.
  now rewrite length_map in H.
Qed.



(** ** Configuration validation *)



Lemma validate_returns (cfg : OrganizationConfig) :
  aware (start_date (data cfg)) = aware (end_date (data cfg)) ->
  exists errors, validate cfg = Returns errors.
Proof.
  intros Ha. unfold validate, datetime_ge. rewrite Ha, eqb_reflx. cbn [bind].
  eexists. reflexivity.
Qed.




(** An offset-aware start date against the default, naive end date makes
    [validate] raise, whatever the schema. *)
Example validate_mixed_dates :
  validate
    {| organization_id := organization_id example_config;
       scada_db := scada_db example_config;
       schema := schema example_config;
       training := training example_config;
       data := {| start_date := {| seconds := 0; aware := true |};
                  end_date := naive 86400;
                  min_samples := 1000; max_samples := 100000;
                  sampling_interval_minutes := 5 |} |}
  = Raises TypeError.
Proof. reflexivity. Qed.

(** ** Error paths and numeric corner cases on the examples *)

Example lag_stage_zero_interval :
  create_lag_features (with_sampling_interval example_config 0) example_table
  = Raises ZeroDivisionError.
Proof. reflexivity. Qed.

Example rolling_stage_zero_window :
  create_rolling_features (with_rolling_windows example_config [0]) example_table
  = Raises ValueError.
Proof. reflexivity. Qed.

Example select_features_unknown_method :
  select_features example_kernels example_config scored_table "y"
    ["a"; "b"; "c"] 2 "chi2" = Raises ValueError.
Proof. reflexivity. Qed.

Example select_features_missing_target :
  select_features example_kernels example_config scored_table "failure_indicator"
    ["a"; "b"; "c"] 2 "f_classif" = Raises KeyError.
Proof. reflexivity. Qed.

(** [int(90 * 0.7)] is 62 in binary64 arithmetic, not 63. *)
Example row_threshold_of_ninety_columns :
  row_threshold 90 = 62 /\ row_threshold 10 = 7 /\ row_threshold 3 = 2.
Proof. repeat split; reflexivity. Qed.

(** The default schema passes validation; its enumeration has
    [8 * (1 + 3 + 4 * 3) + 4] names. *)
Example default_schema_enumeration :
  List.length
    (get_all_feature_columns
       (init_schema_config
          {| continuousColumns := None; booleanColumns := None;
             columnMapping := None; lagSeconds := None; rollingWindows := None;
             targetColumn := None; timestampColumn := None |}))
  = 132%nat.
Proof. reflexivity. Qed.

(** A lag period or a window of [2^63] rows overflows pandas' indexer. *)
Example lag_stage_period_overflow :
  create_lag_features
    (with_sampling_interval
       {| organization_id := organization_id example_config;
          scada_db := scada_db example_config;
          schema := {| continuous_columns := ["x"];
                       boolean_columns := [];
                       column_mapping := [];
                       lag_seconds := [2 ^ 63 * 60];
                       rolling_windows := [2];
                       target_column := "y";
                       timestamp_column := "timestamp" |};
          training := training example_config;
          data := data example_config |} 1)
    example_table
  = Raises OverflowError.
Proof. reflexivity. Qed.

Example rolling_stage_window_overflow :
  create_rolling_features (with_rolling_windows example_config [2 ^ 63])
    example_table
  = Raises OverflowError.
Proof. reflexivity. Qed.

(** The rolling statistics leave an infinite reading out of the window. *)
Example rolling_ignores_infinity :
  rolling 2 1 agg_max [1; infinity; 3]%float = [1; 1; 3]%float /\
  rolling 2 1 agg_mean [infinity]%float = [nan].
Proof. split; reflexivity. Qed.

(** * Further properties of the feature generators *)

(** ** Names of the derived columns *)

Lemma str_nonempty (z : Z) : chars (str z) <> [].
Proof.
  unfold str. destruct (Z.to_int z) as [d | d]; simpl; [| discriminate].
  destruct d; simpl; discriminate.
Qed.

Lemma last_char_numeric (z : Z) (a : list ascii) (c : ascii) (rest : list ascii) :
  rev (a ++ chars (str z)) = c :: rest -> In c numeric_chars.
Proof.
  rewrite rev_app_distr. intros H.
  pose proof (str_chars z) as Hn. pose proof (str_nonempty z) as Hne.
  destruct (rev (chars (str z))) as [| x r] eqn:E.
  - exfalso. apply Hne. apply (f_equal (@rev ascii)) in E.
    now rewrite rev_involutive in E.
  - simpl in H. injection H as <- _. rewrite Forall_forall in Hn. apply Hn.
    apply in_rev. rewrite E. now left.
Qed.

Lemma lag_roc_distinct (m m' suffix : string) (L : Z) :
  In suffix roc_suffixes -> lag_name m L <> (m' ++ suffix)%string.
Proof.
  intros Hs H. apply (f_equal chars) in H. rewrite chars_lag_name, chars_app in H.
  apply (f_equal (@rev ascii)) in H.
  change ("_"%char :: (chars (str L) ++ chars "s"))
    with (["_"%char] ++ (chars (str L) ++ chars "s")) in H.
  rewrite !rev_app_distr in H.
  unfold roc_suffixes in Hs. simpl in Hs.
  repeat (destruct Hs as [<- | Hs]; [simpl in H; discriminate |]). exact Hs.
Qed.

Lemma rolling_roc_distinct (m m' stat suffix : string) (w : Z) :
  In suffix roc_suffixes -> rolling_name m stat w <> (m' ++ suffix)%string.
Proof.
  intros Hs H. apply (f_equal chars) in H.
  rewrite chars_rolling_name, chars_app in H.
  apply (f_equal (@rev ascii)) in H.
  assert (Hc : forall c rest, rev (chars m' ++ chars suffix) = c :: rest ->
                              In c numeric_chars).
  { intros c rest E. rewrite <- H in E.
    change ("_"%char :: chars (str w)) with (["_"%char] ++ chars (str w)) in E.
    rewrite app_assoc in E. exact (last_char_numeric _ _ _ _ E). }
  rewrite rev_app_distr in Hc.
  unfold roc_suffixes in Hs. simpl in Hs.
  repeat (destruct Hs as [<- | Hs];
          [ specialize (Hc _ _ eq_refl); unfold numeric_chars in Hc; simpl in Hc;
            repeat (destruct Hc as [Hc | Hc]; [discriminate |]); exact Hc |]).
  exact Hs.
Qed.

Lemma NoDup_map_on {A B : Type} (f : A -> B) (l : list A) :
  (forall x y, In x l -> In y l -> f x = f y -> x = y) ->
  NoDup l -> NoDup (map f l).
Proof.
  intros Hinj Hnd. induction Hnd as [| x l Hx Hnd IH]; [constructor |].
  cbn [map]. constructor.
  - intros Hin. apply in_map_iff in Hin. destruct Hin as [y [E Hy]].
    apply Hinj in E; [| now right | now left]. subst y. contradiction.
  - apply IH. intros a b Ha Hb. apply Hinj; now right.
Qed.

Lemma NoDup_map_eq {A B : Type} (f : A -> B) (l : list A) (x y : A) :
  NoDup (map f l) -> In x l -> In y l -> f x = f y -> x = y.
Proof.
  induction l as [| a l IH]; intros Hnd Hx Hy E; [destruct Hx |].
  cbn [map] in Hnd. inversion Hnd as [| ? ? Ha Hnd']; subst.
  destruct Hx as [-> | Hx], Hy as [-> | Hy].
  - reflexivity.
  - exfalso. apply Ha. rewrite E. now apply in_map.
  - exfalso. apply Ha. rewrite <- E. now apply in_map.
  - now apply IH.
Qed.

Lemma stat_names_NoDup : NoDup stat_names.
Proof.
  unfold stat_names. simpl.
  repeat constructor; simpl; intros F;
    repeat (destruct F as [F | F]; [discriminate |]); exact F.
Qed.

Lemma roc_suffixes_NoDup : NoDup roc_suffixes.
Proof.
  unfold roc_suffixes. simpl.
  repeat constructor; simpl; intros F;
    repeat (destruct F as [F | F]; [discriminate |]); exact F.
Qed.

Lemma roc_suffix_inj (m m' suffix suffix' : string) :
  In suffix roc_suffixes -> In suffix' roc_suffixes ->
  (m ++ suffix = m' ++ suffix')%string -> m = m' /\ suffix = suffix'.
Proof.
  intros H H0 H1. unfold roc_suffixes in H, H0. apply in_map_iff in H, H0.
  destruct H as [st [<- Hst]]. destruct H0 as [st' [<- Hst']].
  apply roc_name_inj in H1; [| assumption | assumption].
  destruct H1 as [-> ->]. auto.
Qed.

Lemma in_lag_names (sc : SchemaConfig) (x : string) :
  In x (lag_names sc) ->
  exists col L, In col (continuous_columns sc) /\ In L (lag_seconds sc) /\
                x = lag_name (get_mapped_column sc col) L.
Proof.
  unfold lag_names. intros H. apply in_flat_map in H. destruct H as [col [Hc H]].
  apply in_map_iff in H. destruct H as [L [<- HL]]. eauto.
Qed.

Lemma in_rolling_names (sc : SchemaConfig) (x : string) :
  In x (rolling_names sc) ->
  exists col w stat,
    In col (continuous_columns sc) /\ In w (rolling_windows sc) /\
    In stat stat_names /\ x = rolling_name (get_mapped_column sc col) stat w.
Proof.
  unfold rolling_names. intros H. apply in_flat_map in H. destruct H as [col [Hc H]].
  apply in_flat_map in H. destruct H as [w [Hw H]].
  apply in_map_iff in H. destruct H as [stat [<- Hs]].
  exists col, w, stat. auto.
Qed.

Lemma in_roc_names (sc : SchemaConfig) (x : string) :
  In x (roc_names sc) ->
  exists col suffix, In col (continuous_columns sc) /\ In suffix roc_suffixes /\
                     x = (get_mapped_column sc col ++ suffix)%string.
Proof.
  unfold roc_names. intros H. apply in_flat_map in H. destruct H as [col [Hc H]].
  apply in_map_iff in H. destruct H as [suffix [<- Hs]]. eauto.
Qed.

Lemma derived_names_NoDup (sc : SchemaConfig) :
  NoDup (mapped_columns sc) ->
  NoDup (lag_seconds sc) ->
  NoDup (rolling_windows sc) ->
  NoDup (lag_names sc ++ rolling_names sc ++ roc_names sc).
Proof.
  intros Hm Hl Hw.
  assert (Hcols : NoDup (continuous_columns sc))
    by (exact (NoDup_map_inv _ _ Hm)).
  assert (Hinj : forall c c', In c (continuous_columns sc) ->
                   In c' (continuous_columns sc) ->
                   get_mapped_column sc c = get_mapped_column sc c' -> c = c')
    by (intros c c'; apply NoDup_map_eq; exact Hm).
  apply NoDup_app; [| apply NoDup_app |].
  - unfold lag_names. apply NoDup_flat_map; [exact Hcols | |].
    + intros c _. apply NoDup_map_on; [| exact Hl].
      intros L L' _ _ E. now apply lag_name_inj in E.
    + intros c c' b Hc Hc' Hb Hb'. apply in_map_iff in Hb, Hb'.
      destruct Hb as [L [<- _]]. destruct Hb' as [L' [E _]].
      apply lag_name_inj in E. destruct E as [E _]. symmetry. now apply Hinj.
  - unfold rolling_names. apply NoDup_flat_map; [exact Hcols | |].
    + intros c _. apply NoDup_flat_map; [exact Hw | |].
      * intros w _. apply NoDup_map_on; [| exact stat_names_NoDup].
        intros st st' Hs Hs' E. now apply rolling_name_inj in E.
      * intros w w' b _ _ Hb Hb'. apply in_map_iff in Hb, Hb'.
        destruct Hb as [st [<- Hs]]. destruct Hb' as [st' [E Hs']].
        apply rolling_name_inj in E; [| assumption | assumption].
        destruct E as [_ [_ E]]. now symmetry.
    + intros c c' b Hc Hc' Hb Hb'. apply in_flat_map in Hb, Hb'.
      destruct Hb as [w [_ Hb]]. destruct Hb' as [w' [_ Hb']].
      apply in_map_iff in Hb, Hb'.
      destruct Hb as [st [<- Hs]]. destruct Hb' as [st' [E Hs']].
      apply rolling_name_inj in E; [| assumption | assumption].
      destruct E as [E _]. symmetry. now apply Hinj.
  - unfold roc_names. apply NoDup_flat_map; [exact Hcols | |].
    + intros c _. apply NoDup_map_on; [| exact roc_suffixes_NoDup].
      intros s s' Hs Hs' E. now apply roc_suffix_inj in E.
    + intros c c' b Hc Hc' Hb Hb'. apply in_map_iff in Hb, Hb'.
      destruct Hb as [s [<- Hs]]. destruct Hb' as [s' [E Hs']].
      apply roc_suffix_inj in E; [| assumption | assumption].
      destruct E as [E _]. symmetry. now apply Hinj.
  - intros x Hx Hx'. apply in_rolling_names in Hx. apply in_roc_names in Hx'.
    destruct Hx as (c & w & st & _ & _ & _ & ->).
    destruct Hx' as (c' & s & _ & Hs & E).
    exact (rolling_roc_distinct _ _ _ _ _ Hs E).
  - intros x Hx Hx'. apply in_lag_names in Hx.
    destruct Hx as (c & L & _ & _ & ->).
    apply in_app_or in Hx'. destruct Hx' as [Hx' | Hx'].
    + apply in_rolling_names in Hx'. destruct Hx' as (c' & w & st & _ & _ & _ & E).
      exact (lag_rolling_distinct _ _ _ _ _ E).
    + apply in_roc_names in Hx'. destruct Hx' as (c' & s & _ & Hs & E).
      exact (lag_roc_distinct _ _ _ _ Hs E).
Qed.

Lemma NoDup_flat_map_inv {A B : Type} (g : A -> list B) (xs : list A) :
  (forall x, g x <> []) -> NoDup (flat_map g xs) -> NoDup xs.
Proof.
  intros Hne. induction xs as [| a l IH]; intros H; [constructor |].
  cbn [flat_map] in H. constructor.
  - intros Hin. destruct (g a) as [| b r] eqn:Eg; [now apply (Hne a) |].
    apply (NoDup_app_disjoint _ _ b H); [now left |].
    apply in_flat_map. exists a. split; [exact Hin |]. rewrite Eg. now left.
  - apply IH. now apply NoDup_app_remove_l in H.
Qed.

Lemma roc_names_NoDup_inv (sc : SchemaConfig) :
  NoDup (roc_names sc) -> NoDup (mapped_columns sc).
Proof.
  unfold roc_names, mapped_columns.
  induction (continuous_columns sc) as [| c cs IH]; intros H; [constructor |].
  cbn [flat_map map] in *. constructor.
  - intros Hin. apply in_map_iff in Hin. destruct Hin as [c' [E Hc']].
    apply NoDup_app_disjoint with (x := (get_mapped_column sc c ++ "_roc")%string) in H.
    + exact H.
    + unfold roc_suffixes. simpl. auto.
    + apply in_flat_map. exists c'. split; [exact Hc' |]. rewrite E.
      unfold roc_suffixes. simpl. auto.
  - apply IH. now apply NoDup_app_remove_l in H.
Qed.

(** X1.  The f-strings naming the lag, rolling and rate-of-change columns
    are injective: a name determines the mapped column it was derived from
    together with its lag, its statistic and window, or its suffix, and
    names of different kinds differ.  Hence the derived names of a schema
    are pairwise distinct as soon as its mapped continuous names, its lags
    and its windows are, and only then: when two raw columns are mapped to
    one name, or a lag or a window is configured twice, the same name is
    derived, and the same column written, twice. *)
Theorem derived_feature_names_are_distinct :
  (forall m m' L L', lag_name m L = lag_name m' L' -> m = m' /\ L = L') /\
  (forall m m' stat stat' w w',
      In stat stat_names -> In stat' stat_names ->
      rolling_name m stat w = rolling_name m' stat' w' ->
      m = m' /\ stat = stat' /\ w = w') /\
  (forall m m' suffix suffix',
      In suffix roc_suffixes -> In suffix' roc_suffixes ->
      (m ++ suffix = m' ++ suffix')%string -> m = m' /\ suffix = suffix') /\
  (forall m m' stat L w, lag_name m L <> rolling_name m' stat w) /\
  (forall m m' suffix L,
      In suffix roc_suffixes -> lag_name m L <> (m' ++ suffix)%string) /\
  (forall m m' stat suffix w,
      In suffix roc_suffixes -> rolling_name m stat w <> (m' ++ suffix)%string) /\
  (forall sc,
      NoDup (mapped_columns sc) -> NoDup (lag_seconds sc) ->
      NoDup (rolling_windows sc) ->
      NoDup (lag_names sc ++ rolling_names sc ++ roc_names sc)) /\
  (forall sc,
      NoDup (lag_names sc ++ rolling_names sc ++ roc_names sc) ->
      NoDup (mapped_columns sc) /\
      (continuous_columns sc <> [] ->
       NoDup (lag_seconds sc) /\ NoDup (rolling_windows sc))).
Proof.
  split; [intros m m' L L' H; now apply lag_name_inj in H |].
  split; [intros m m' stat stat' w w' Hs Hs' H; now apply rolling_name_inj in H |].
  split; [intros m m' suffix suffix'; apply roc_suffix_inj |].
  split; [apply lag_rolling_distinct |].
  split; [intros m m' suffix L; apply lag_roc_distinct |].
  split; [intros m m' stat suffix w; apply rolling_roc_distinct |].
  split; [apply derived_names_NoDup |].
  intros sc H. split.
  - apply NoDup_app_remove_l in H. apply NoDup_app_remove_l in H.
    now apply roc_names_NoDup_inv.
  - intros Hne. destruct (continuous_columns sc) as [| c cs] eqn:Ec;
      [contradiction |]. split.
    + apply NoDup_app_remove_r in H. unfold lag_names in H. rewrite Ec in H.
      cbn [flat_map] in H. apply NoDup_app_remove_r in H.
      exact (NoDup_map_inv _ _ H).
    + apply NoDup_app_remove_l in H. apply NoDup_app_remove_r in H.
      unfold rolling_names in H. rewrite Ec in H.
      cbn [flat_map] in H. apply NoDup_app_remove_r in H.
      apply NoDup_flat_map_inv in H; [exact H |].
      intros w. unfold stat_names. simpl. discriminate.
Qed.

(** ** When the lag and rolling stages raise *)

Lemma map_m_lag_periods_zero (ls : list Z) :
  ls <> [] ->
  map_m (fun lag_sec => q <- floordiv lag_sec 0 ;; Returns (Z.max 1 q)) ls
  = Raises ZeroDivisionError.
Proof. destruct ls as [| l ls]; [contradiction | reflexivity]. Qed.

Lemma for_each_skip {A St : Type} (xs : list A) (body : A -> St -> outcome St)
  (st : St) :
  (forall x, In x xs -> body x st = Returns st) -> for_each xs body st = Returns st.
Proof.
  induction xs as [| x xs IH]; intros H; simpl; [reflexivity |].
  rewrite H by now left. simpl. apply IH. intros y Hy. apply H. now right.
Qed.

(** A loop over the declared columns whose body leaves the table alone on
    some columns and raises on the others: the loop raises at the first of
    the latter, and returns the table when there is none. *)
Lemma guarded_loop_raises {A : Type} (cols : list A)
  (body : A -> DataFrame -> outcome DataFrame) (p : A -> bool) (e : exn)
  (df : DataFrame) :
  (forall col, p col = false -> body col df = Returns df) ->
  (forall col, p col = true -> body col df = Raises e) ->
  existsb p cols = true ->
  for_each cols body df = Raises e.
Proof.
  intros Hskip Hraise. induction cols as [| c cols IH]; intros Hp; [discriminate |].
  cbn [for_each existsb] in *.
  destruct (p c) eqn:E.
  - now rewrite Hraise.
  - rewrite Hskip by exact E. cbn [bind]. apply IH. exact Hp.
Qed.

Lemma guarded_loop_skips {A : Type} (cols : list A)
  (body : A -> DataFrame -> outcome DataFrame) (p : A -> bool) (df : DataFrame) :
  (forall col, p col = false -> body col df = Returns df) ->
  existsb p cols = false ->
  for_each cols body df = Returns df.
Proof.
  intros Hskip Hp. apply for_each_skip. intros col Hcol. apply Hskip.
  destruct (p col) eqn:E; [| reflexivity].
  assert (Ht : existsb p cols = true) by (apply existsb_exists; eauto).
  congruence.
Qed.

Lemma lag_inner_loop_overflows (itv : Z) (m : string) (ls : list Z) (df : DataFrame) :
  existsb (fun lag_sec => int64_max <? lag_sec / itv) ls = true ->
  for_each
    (combine ls (map (fun lag_sec => Z.max 1 (lag_sec / itv)) ls))
    (fun '(lag_sec, lag_period) df =>
       periods <- check_period lag_period ;;
       Returns (set_col df (lag_name m lag_sec) (shift periods (loc df m))))
    df
  = Raises OverflowError.
Proof.
  revert df. induction ls as [| l ls IH]; intros df Hex; [discriminate |].
  cbn [map combine for_each existsb] in *.
  destruct (Z.ltb_spec int64_max (l / itv)) as [Hbad | Hok].
  - rewrite check_period_overflows by lia. reflexivity.
  - rewrite check_period_fits by (unfold int64_max in *; lia).
    cbn [bind]. apply IH. exact Hex.
Qed.

Lemma lag_periods_fit_iff (cfg : OrganizationConfig) :
  lag_period_overflows cfg = false <-> lag_periods_fit cfg.
Proof.
  unfold lag_period_overflows, lag_periods_fit.
  induction (lag_seconds (schema cfg)) as [| l ls IH]; cbn [existsb].
  - split; [constructor | reflexivity].
  - rewrite orb_false_iff, IH, Z.ltb_ge. split.
    + intros [H1 H2]. now constructor.
    + intros H. inversion H. auto.
Qed.

(** The three outcomes of the lag stage. *)
Lemma create_lag_features_cases (cfg : OrganizationConfig) (df : DataFrame) :
  create_lag_features cfg df
  = if (sampling_interval_minutes (data cfg) =? 0)
    then (if list_falsy (lag_seconds (schema cfg)) then Returns df
          else Raises ZeroDivisionError)
    else if declared_column_present (schema cfg) df
    then (if lag_period_overflows cfg then Raises OverflowError
          else Returns (exec_writes (lag_writes cfg) df))
    else Returns df.
Proof.
  destruct (Z.eqb_spec (sampling_interval_minutes (data cfg)) 0) as [Hi | Hi].
  - unfold create_lag_features. cbv zeta. rewrite Hi. change (0 * 60) with 0.
    destruct (lag_seconds (schema cfg)) as [| l ls] eqn:El; cbn [list_falsy].
    + cbn [map_m bind combine].
      apply for_each_skip. intros col _. now destruct (has_col df _).
    + now rewrite map_m_lag_periods_zero.
  - destruct (declared_column_present (schema cfg) df) eqn:Ep.
    + destruct (lag_period_overflows cfg) eqn:Eo.
      * unfold create_lag_features. cbv zeta.
        rewrite map_m_lag_periods by lia. cbn [bind].
        apply (guarded_loop_raises _ _
                 (fun col => has_col df (get_mapped_column (schema cfg) col)));
          [| | exact Ep].
        { intros col Hp. now rewrite Hp. }
        intros col Hp. rewrite Hp. apply lag_inner_loop_overflows. exact Eo.
      * apply create_lag_features_writes; [exact Hi |].
        now apply lag_periods_fit_iff.
    + unfold create_lag_features. cbv zeta.
      rewrite map_m_lag_periods by lia. cbn [bind].
      apply (guarded_loop_skips _ _
               (fun col => has_col df (get_mapped_column (schema cfg) col)));
        [| exact Ep].
      intros col Hp. now rewrite Hp.
Qed.








(** ** Size of the enumeration *)

(** X4.  [get_all_feature_columns] lists, for every continuous column, its
    own name, one name per lag and four names per rolling window, followed
    by one name per boolean column. *)
Theorem get_all_feature_columns_length (sc : SchemaConfig) :
  List.length (get_all_feature_columns sc)
  = (List.length (continuous_columns sc)
       * (1 + List.length (lag_seconds sc) + 4 * List.length (rolling_windows sc))
     + List.length (boolean_columns sc))%nat.
Proof.
  unfold get_all_feature_columns. rewrite length_app, length_map. f_equal.
  assert (Hw : forall m : string,
             List.length
               (flat_map (fun window =>
                            [rolling_name m "mean" window; rolling_name m "std" window;
                             rolling_name m "min" window; rolling_name m "max" window])
                         (rolling_windows sc))
             = (4 * List.length (rolling_windows sc))%nat).
  { intros m. induction (rolling_windows sc) as [| w ws IHw]; [reflexivity |].
    cbn [flat_map]. rewrite length_app, IHw. cbn [List.length]. lia. }
  induction (continuous_columns sc) as [| c cols IH]; [reflexivity |].
  cbn [flat_map]. rewrite length_app, IH.
  rewrite !length_app, length_map, Hw. cbn [List.length]. lia.
Qed.

(** ** The generator stages keep the rows *)

Lemma has_rows_set (n : nat) (df : DataFrame) (c : string) (s : Series) :
  has_rows n df -> List.length s = n -> has_rows n (set_col df c s).
Proof.
  unfold has_rows. intros H Hs. induction H as [| [k v] rest Hk Hrest IH]; simpl.
  - constructor; [exact Hs | constructor].
  - destruct (String.eqb k c); constructor; assumption.
Qed.

Lemma length_loc (n : nat) (df : DataFrame) (c : string) :
  has_rows n df -> has_col df c = true -> List.length (loc df c) = n.
Proof.
  unfold has_col, loc. intros Hr Hc.
  destruct (get_col df c) as [s |] eqn:E; [| discriminate].
  exact (has_rows_get_col n df c s Hr E).
Qed.

Lemma has_col_set_same (df : DataFrame) (c : string) (s : Series) :
  has_col (set_col df c s) c = true.
Proof. unfold has_col. now rewrite get_set_same. Qed.

Lemma nrows_has_col (n : nat) (df : DataFrame) (c : string) :
  has_rows n df -> has_col df c = true -> nrows df = n.
Proof.
  intros Hr Hc. apply has_rows_nrows; [exact Hr |]. intros ->. discriminate.
Qed.

Lemma length_row_agg (agg : list float -> float) (df : DataFrame)
  (cols : list string) : List.length (row_agg agg df cols) = nrows df.
Proof. unfold row_agg. now rewrite length_map, length_seq. Qed.

Lemma for_each_invariant {A St : Type} (P : St -> Prop) (xs : list A)
  (body : A -> St -> outcome St) (st out : St) :
  (forall x d d', P d -> body x d = Returns d' -> P d') ->
  P st -> for_each xs body st = Returns out -> P out.
Proof.
  intros Hbody. revert st. induction xs as [| x xs IH]; intros st Hp H; simpl in H.
  - now injection H as <-.
  - destruct (body x st) as [d' |] eqn:E; simpl in H; [| discriminate].
    eapply IH; [eapply Hbody; eassumption | exact H].
Qed.

Lemma fold_left_invariant {A St : Type} (P : St -> Prop) (xs : list A)
  (body : St -> A -> St) (st : St) :
  (forall x d, P d -> P (body d x)) -> P st -> P (fold_left body xs st).
Proof.
  intros Hbody. revert st. induction xs as [| x xs IH]; intros st Hp; simpl; auto.
Qed.

(** The length of a derived column, given the row count of the frame. *)
Ltac solve_length n :=
  rewrite ?length_map, ?length_zip_with, ?length_rolling, ?length_shift,
    ?length_diff, ?length_pct_change, ?length_map, ?length_row_agg;
  rewrite ?(length_loc n) by assumption;
  try (erewrite nrows_has_col by eassumption);
  rewrite ?Nat.min_id; reflexivity.

(** Row-count preservation along a chain of [let]-bound assignments, the
    columns known to be present being carried along. *)
Ltac zeta_head :=
  lazymatch goal with
  | |- has_rows ?n (let x := ?v in @?body x) =>
      change (has_rows n (body v)); cbv beta
  end.

Ltac solve_rows n :=
  cbv beta;
  lazymatch goal with
  | |- has_rows n (let x := set_col ?d ?c ?s in @?body x) =>
      let Hr := fresh "Hr" in
      assert (Hr : has_rows n (set_col d c s))
        by (apply has_rows_set; [assumption | solve_length n]);
      let Hc := fresh "Hc" in
      pose proof (has_col_set_same d c s) as Hc;
      repeat match goal with
             | H : has_col d ?c' = true |- _ => apply (has_col_set d c c' s) in H
             end;
      change (has_rows n (body (set_col d c s))); cbv beta;
      let d' := fresh "d" in
      let E := fresh "E" in
      remember (set_col d c s) as d' eqn:E; clear E;
      solve_rows n
  | |- has_rows n (let x := (if ?b then ?t else ?e) in @?body x) =>
      let Hr := fresh "Hr" in
      assert (Hr : has_rows n (if b then t else e)) by solve_rows n;
      change (has_rows n (body (if b then t else e))); cbv beta;
      let d' := fresh "d" in
      let E := fresh "E" in
      remember (if b then t else e) as d' eqn:E; clear E;
      solve_rows n
  | |- has_rows n (let x := ?v in @?body x) =>
      change (has_rows n (body v)); cbv beta; solve_rows n
  | |- has_rows n (if has_col ?d ?a && has_col ?d ?b then _ else _) =>
      let Ha := fresh "Ha" in
      let Hb := fresh "Hb" in
      destruct (has_col d a) eqn:Ha; [destruct (has_col d b) eqn:Hb |];
      cbv beta iota delta [andb]; solve_rows n
  | |- has_rows n (if has_col ?d ?a then _ else _) =>
      let Ha := fresh "Ha" in
      destruct (has_col d a) eqn:Ha; solve_rows n
  | |- has_rows n (set_col _ _ _) =>
      apply has_rows_set; [solve_rows n | solve_length n]
  | |- has_rows n _ => assumption
  end.

Lemma create_time_based_features_rows (K : Kernels) (cfg : OrganizationConfig)
  (n : nat) (df out : DataFrame) :
  has_rows n df -> create_time_based_features K cfg df = Returns out ->
  has_rows n out.
Proof.
  intros Hr. cbv beta delta [create_time_based_features].
  lazymatch goal with
  | |- (let x := ?v in @?b x) = ?r -> ?G => change (b v = r -> G); cbv beta
  end.
  destruct (has_col df (timestamp_column (schema cfg))) eqn:Hts;
    [| intros H; injection H as <-; exact Hr].
  match goal with
  | |- bind ?m _ = _ -> _ =>
      assert (Hconv : forall d, m = Returns d ->
                 has_rows n d /\ has_col d (timestamp_column (schema cfg)) = true);
      [| destruct m as [d |]; [destruct (Hconv d eq_refl) as [Hd Hdts] | discriminate]]
  end.
  { intros d. destruct (negb (is_datetime64 K _)).
    - destruct (map_m (to_datetime K) _) as [ts |] eqn:E; simpl; [| discriminate].
      intros H. injection H as <-. split; [| apply has_col_set_same].
      apply has_rows_set; [exact Hr |].
      rewrite (map_m_length _ _ _ E). now apply length_loc.
    - intros H. injection H as <-. auto. }
  cbv beta iota delta [bind].
  lazymatch goal with
  | |- Returns ?t = Returns _ -> _ =>
      intros H; enough (Hx : has_rows n t) by (injection H as <-; exact Hx)
  end.
  clear H Hconv Hr Hts df.
  solve_rows n.
Qed.

Lemma create_lag_features_rows (cfg : OrganizationConfig) (n : nat)
  (df out : DataFrame) :
  has_rows n df -> create_lag_features cfg df = Returns out -> has_rows n out.
Proof.
  intros Hr. unfold create_lag_features.
  destruct (map_m _ _) as [periods |]; simpl; [| discriminate].
  apply (for_each_invariant (has_rows n)); [| exact Hr]. intros col d d' Hd.
  destruct (has_col d (get_mapped_column (schema cfg) col)) eqn:Hm;
    [| intros H; now injection H as <-].
  intros H.
  enough (Hinv : has_rows n d' /\
                 has_col d' (get_mapped_column (schema cfg) col) = true) by tauto.
  revert H.
  apply (for_each_invariant
           (fun d => has_rows n d /\
                     has_col d (get_mapped_column (schema cfg) col) = true));
    [| auto].
  intros [l p] e e' [He Hm'] H.
  apply lag_step_returns in H. destruct H as [periods' ->]. split.
  - apply has_rows_set; [exact He | solve_length n].
  - now apply has_col_set.
Qed.

Lemma rows_write (n : nat) (d : DataFrame) (m c : string)
  (f : Series -> Series) :
  (forall s, List.length (f s) = List.length s) ->
  has_rows n d /\ has_col d m = true ->
  has_rows n (set_col d c (f (loc d m))) /\
  has_col (set_col d c (f (loc d m))) m = true.
Proof.
  intros Hf [Hd Hm]. split; [| now apply has_col_set].
  apply has_rows_set; [exact Hd |]. rewrite Hf. now apply length_loc.
Qed.

Lemma create_rolling_features_rows (cfg : OrganizationConfig) (n : nat)
  (df out : DataFrame) :
  has_rows n df -> create_rolling_features cfg df = Returns out -> has_rows n out.
Proof.
  intros Hr. unfold create_rolling_features.
  apply (for_each_invariant (has_rows n)); [| exact Hr]. intros col d d' Hd.
  destruct (has_col d (get_mapped_column (schema cfg) col)) eqn:Hm;
    [| intros H; now injection H as <-].
  intros H.
  enough (Hinv : has_rows n d' /\
                 has_col d' (get_mapped_column (schema cfg) col) = true) by tauto.
  revert H.
  apply (for_each_invariant
           (fun d => has_rows n d /\
                     has_col d (get_mapped_column (schema cfg) col) = true));
    [| auto].
  intros window e e' He.
  destruct (check_window window) as [w |]; cbn [bind]; [| discriminate].
  intros H. injection H as <-.
  repeat (apply (rows_write n _ _ _ (rolling w 1 _));
          [intros s; apply length_rolling |]).
  exact He.
Qed.

Lemma create_rate_of_change_features_rows (cfg : OrganizationConfig) (n : nat)
  (df : DataFrame) :
  has_rows n df -> has_rows n (create_rate_of_change_features cfg df).
Proof.
  intros Hr. cbv beta delta [create_rate_of_change_features]. zeta_head.
  apply (fold_left_invariant (has_rows n)); [| exact Hr].
  intros col d Hd. solve_rows n.
Qed.

Lemma create_interaction_features_rows (cfg : OrganizationConfig) (n : nat)
  (df : DataFrame) :
  has_rows n df -> has_rows n (create_interaction_features cfg df).
Proof.
  intros Hr. cbv beta delta [create_interaction_features]. zeta_head.
  apply (fold_left_invariant (has_rows n)); [| exact Hr].
  intros [c1 c2] d Hd. solve_rows n.
Qed.

Lemma create_statistical_features_rows (cfg : OrganizationConfig) (n : nat)
  (df : DataFrame) :
  has_rows n df -> has_rows n (create_statistical_features cfg df).
Proof.
  intros Hr. cbv beta delta [create_statistical_features]. zeta_head. zeta_head.
  set (cols := filter (has_col df) _).
  destruct (2 <=? List.length cols)%nat eqn:E; [| exact Hr].
  assert (Hc : exists c, has_col df c = true).
  { destruct cols as [| c cols'] eqn:Ec; [discriminate |]. exists c.
    assert (Hin : In c cols) by (rewrite Ec; now left).
    subst cols. apply filter_In in Hin. tauto. }
  destruct Hc as [c Hc]. clearbody cols. solve_rows n.
Qed.

Lemma create_anomaly_features_rows (cfg : OrganizationConfig) (n : nat)
  (df : DataFrame) :
  has_rows n df -> has_rows n (create_anomaly_features cfg df).
Proof.
  intros Hr. cbv beta delta [create_anomaly_features]. zeta_head.
  apply (fold_left_invariant (has_rows n)); [| exact Hr].
  intros col d Hd. solve_rows n.
Qed.

Lemma create_domain_specific_features_rows (K : Kernels)
  (cfg : OrganizationConfig) (n : nat) (df : DataFrame) :
  has_rows n df -> has_rows n (create_domain_specific_features K cfg df).
Proof.
  intros Hr. cbv beta delta [create_domain_specific_features].
  solve_rows n.
Qed.

(** X5.  The eight generator stages only add or overwrite columns: when
    they complete on a table whose columns all have [n] rows, every column
    of the result, old or new, has [n] rows, and every column label of the
    input is still a label of the result.  Rows are removed by the cleaning
    step only. *)
Theorem run_generators_keeps_rows_and_labels (K : Kernels)
  (cfg : OrganizationConfig) (n : nat) (df out : DataFrame) :
  has_rows n df ->
  run_generators K cfg df = Returns out ->
  has_rows n out /\ forall c, In c (columns df) -> In c (columns out).
Proof.
  intros Hr H. split; [| exact (run_generators_extends K cfg df out H)].
  apply run_generators_stages in H.
  destruct H as (d1 & d2 & d3 & H1 & H2 & H3 & ->).
  apply create_domain_specific_features_rows, create_anomaly_features_rows,
    create_statistical_features_rows, create_interaction_features_rows,
    create_rate_of_change_features_rows.
  eapply create_rolling_features_rows; [| exact H3].
  eapply create_lag_features_rows; [| exact H2].
  eapply create_time_based_features_rows; [exact Hr | exact H1].
Qed.

Lemma run_generators_keeps_rows_and_labels_witness :
  exists out,
    run_generators example_kernels example_config timed_table = Returns out /\
    has_rows 6 out /\
    forall c, In c (columns timed_table) -> In c (columns out).
Proof.
  assert (E : exists out,
             run_generators example_kernels example_config timed_table = Returns out)
    by (vm_compute; eexists; reflexivity).
  destruct E as [out E]. exists out. split; [exact E |].
  apply (run_generators_keeps_rows_and_labels
           example_kernels example_config 6 timed_table out); [| exact E].
  repeat constructor.
Defined.

(** * Further properties of the cleaning step *)

Lemma keep_incl (mask : list bool) (s : Series) (x : float) :
  In x (keep mask s) -> In x s.
Proof.
  revert s. induction mask as [| m mask IH]; intros [| y s] H; simpl in H;
    try contradiction.
  destruct m; [destruct H as [-> | H] |]; simpl; auto.
Qed.

Lemma ffill_from_in (l : float) (s : Series) (x : float) :
  In x (ffill_from l s) -> In x s \/ (x = l /\ In nan s).
Proof.
  revert l. induction s as [| h s IH]; intros l H; simpl in H; [contradiction |].
  destruct (isna h) eqn:E.
  - apply isna_true_iff in E. subst h.
    destruct H as [<- | H]; [right; split; [reflexivity | now left] |].
    destruct (IH _ H) as [Hin | [-> Hin]]; simpl; auto.
  - destruct H as [<- | H]; [left; now left |].
    destruct (IH _ H) as [Hin | [-> Hin]]; simpl; auto.
Qed.

Lemma ffill_incl (s : Series) (x : float) : In x (ffill s) -> In x s.
Proof.
  intros H. apply ffill_from_in in H. destruct H as [H | [-> H]]; exact H.
Qed.

Lemma bfill_incl (s : Series) (x : float) : In x (bfill s) -> In x s.
Proof.
  unfold bfill. intros H. apply in_rev in H. apply ffill_incl in H.
  now apply in_rev in H.
Qed.

Lemma length_filter_true_le (mask : list bool) :
  (List.length (filter (fun b : bool => b) mask) <= List.length mask)%nat.
Proof. apply filter_length_le. Qed.

Lemma has_rows_dropna_le (n : nat) (df : DataFrame) :
  has_rows n df -> exists n', has_rows n' (dropna df) /\ (n' <= n)%nat.
Proof.
  intros Hr. unfold dropna.
  destruct df as [| c0 rest] eqn:Edf; [exists 0%nat; split; [constructor | lia] |].
  rewrite <- Edf in *.
  assert (Hn : nrows df = n) by (apply has_rows_nrows; [assumption | now subst]).
  rewrite Hn. eexists. split.
  - apply has_rows_keep_rows. now rewrite length_map, length_seq.
  - etransitivity; [apply length_filter_true_le |].
    now rewrite length_map, length_seq.
Qed.

Lemma has_rows_dropna_thresh_le (t : Z) (n : nat) (df : DataFrame) :
  has_rows n df -> exists n', has_rows n' (dropna_thresh t df) /\ (n' <= n)%nat.
Proof.
  intros Hr. unfold dropna_thresh.
  destruct df as [| c0 rest] eqn:Edf; [exists 0%nat; split; [constructor | lia] |].
  rewrite <- Edf in *.
  assert (Hn : nrows df = n) by (apply has_rows_nrows; [assumption | now subst]).
  rewrite Hn. eexists. split.
  - apply has_rows_keep_rows. now rewrite length_map, length_seq.
  - etransitivity; [apply length_filter_true_le |].
    now rewrite length_map, length_seq.
Qed.

Lemma in_keep_rows (mask : list bool) (df : DataFrame) (name : string)
  (s' : Series) :
  In (name, s') (keep_rows mask df) ->
  exists s, In (name, s) df /\ s' = keep mask s.
Proof.
  unfold keep_rows. intros H. apply in_map_iff in H.
  destruct H as [[k s] [E Hin]]. simpl in E. injection E as <- <-. eauto.
Qed.

Lemma in_map_cols (f : Series -> Series) (df : DataFrame) (name : string)
  (s' : Series) :
  In (name, s') (map_cols f df) -> exists s, In (name, s) df /\ s' = f s.
Proof.
  unfold map_cols. intros H. apply in_map_iff in H.
  destruct H as [[k s] [E Hin]]. simpl in E. injection E as <- <-. eauto.
Qed.

(** X6.  The cleaning step keeps the column labels and their order, never
    adds a row, and never invents a value: every cell of a cleaned column
    is a value the same column of the input already held. *)
Theorem clean_data_keeps_labels_and_values (n : nat) (df : DataFrame) :
  has_rows n df ->
  columns (clean_data df) = columns df /\
  (exists n', has_rows n' (clean_data df) /\ (n' <= n)%nat) /\
  forall name s', In (name, s') (clean_data df) ->
                  exists s, In (name, s) df /\ incl s' s.
Proof.
  intros Hr. split; [apply columns_clean_data |]. split.
  - unfold clean_data.
    destruct (has_rows_dropna_thresh_le
                (int_of_float
                   (PrimFloat.mul (float_of_nat (List.length (columns df))) 0.7%float))
                n df Hr) as [n1 [H1 Hle1]].
    assert (H3 : has_rows n1 (map_cols bfill (map_cols ffill (dropna_thresh
                   (int_of_float
                      (PrimFloat.mul (float_of_nat (List.length (columns df)))
                         0.7%float)) df)))).
    { apply has_rows_map_cols; [apply length_bfill |].
      apply has_rows_map_cols; [intros s; apply length_ffill_from | exact H1]. }
    destruct (has_rows_dropna_le n1 _ H3) as [n' [H4 Hle]].
    exists n'. split; [exact H4 | lia].
  - intros name s' H. unfold clean_data, dropna, dropna_thresh in H.
    apply in_keep_rows in H. destruct H as [s3 [H ->]].
    apply in_map_cols in H. destruct H as [s2 [H ->]].
    apply in_map_cols in H. destruct H as [s1 [H ->]].
    apply in_keep_rows in H. destruct H as [s [H ->]].
    exists s. split; [exact H |]. intros x Hx.
    apply keep_incl, bfill_incl, ffill_incl, keep_incl in Hx. exact Hx.
Qed.

Lemma clean_data_keeps_labels_and_values_witness :
  columns (clean_data sparse_table) = columns sparse_table /\
  (exists n', has_rows n' (clean_data sparse_table) /\ (n' <= 4)%nat) /\
  forall name s', In (name, s') (clean_data sparse_table) ->
                  exists s, In (name, s) sparse_table /\ incl s' s.
Proof.
  apply (clean_data_keeps_labels_and_values 4 sparse_table). repeat constructor.
Defined.

(** ** Filling is all or nothing *)

Lemma ffill_from_defined (l : float) (s : Series) :
  notna l = true -> forallb notna (ffill_from l s) = true.
Proof.
  revert l. induction s as [| h s IH]; intros l Hl; simpl; [reflexivity |].
  destruct (isna h) eqn:E.
  - rewrite Hl. now apply IH.
  - unfold notna at 1. rewrite E. simpl. apply IH. unfold notna. now rewrite E.
Qed.

Lemma ffill_shape (s : Series) :
  exists k t, ffill s = repeat nan k ++ t /\ forallb notna t = true /\
              (existsb notna s = true -> t <> []).
Proof.
  unfold ffill. induction s as [| h s IH]; simpl.
  - exists 0%nat, []. repeat split. discriminate.
  - destruct (isna h) eqn:E.
    + destruct IH as (k & t & Ht & Hv & Hne). exists (S k), t.
      simpl. rewrite Ht. unfold notna at 2. rewrite E. auto.
    + exists 0%nat, (h :: ffill_from h s). simpl.
      assert (Hh : notna h = true) by (unfold notna; now rewrite E).
      rewrite Hh, (ffill_from_defined h s Hh). repeat split. discriminate.
Qed.

Lemma rev_repeat {A : Type} (x : A) (k : nat) : rev (repeat x k) = repeat x k.
Proof.
  induction k as [| k IH]; [reflexivity |]. simpl. rewrite IH.
  change [x] with (repeat x 1). rewrite <- repeat_app.
  now rewrite Nat.add_1_r.
Qed.

(** A column holding at least one value has none missing once it was
    filled forward and then backward. *)
Lemma fill_defined (s : Series) :
  existsb notna s = true -> forallb notna (bfill (ffill s)) = true.
Proof.
  intros H. destruct (ffill_shape s) as (k & t & Ht & Hv & Hne).
  specialize (Hne H). unfold bfill. rewrite forallb_rev, Ht.
  rewrite rev_app_distr, rev_repeat.
  destruct (rev t) as [| h r] eqn:Er.
  - exfalso. apply Hne. apply (f_equal (@rev float)) in Er.
    now rewrite rev_involutive in Er.
  - assert (Hr : forallb notna (h :: r) = true)
      by (rewrite <- Er, forallb_rev; exact Hv).
    simpl in Hr. apply andb_true_iff in Hr. destruct Hr as [Hh _].
    unfold ffill. simpl. unfold notna in Hh. apply negb_true_iff in Hh.
    rewrite Hh. simpl. unfold notna at 1. rewrite Hh. simpl.
    apply ffill_from_defined. unfold notna. now rewrite Hh.
Qed.

(** A column without any value stays empty of values. *)
Lemma fill_undefined (s : Series) (i : nat) :
  existsb notna s = false -> cell (bfill (ffill s)) i = nan.
Proof.
  intros H.
  assert (Hall : forall x, In x (bfill (ffill s)) -> x = nan).
  { intros x Hx. apply bfill_incl, ffill_incl in Hx.
    apply isna_true_iff. destruct (isna x) eqn:E; [reflexivity |].
    assert (Ht : existsb notna s = true)
      by (apply existsb_exists; exists x; unfold notna; now rewrite E).
    congruence. }
  unfold cell. destruct (Nat.lt_ge_cases i (List.length (bfill (ffill s)))) as [Hi | Hi].
  - apply Hall. now apply nth_In.
  - now apply nth_overflow.
Qed.

Lemma dropna_empties (df : DataFrame) :
  (exists name s, In (name, s) df /\ forall i, cell s i = nan) ->
  has_rows 0 (dropna df).
Proof.
  intros (name & s & Hin & Hs). unfold dropna, has_rows, keep_rows.
  apply Forall_map. apply Forall_forall. intros c _. simpl.
  rewrite keep_all_false; [reflexivity |].
  apply Forall_forall. intros b Hb. apply in_map_iff in Hb.
  destruct Hb as [i [<- _]].
  destruct (forallb notna (row df i)) eqn:E; [| reflexivity].
  rewrite forallb_forall in E.
  assert (Hc : notna (cell s i) = true).
  { apply E. unfold row. apply in_map_iff. exists (name, s). auto. }
  rewrite Hs in Hc. discriminate.
Qed.

Lemma all_valid_fill (df : DataFrame) :
  Forall (fun c => existsb notna (snd c) = true) df ->
  all_valid (map_cols bfill (map_cols ffill df)).
Proof.
  unfold all_valid, map_cols. intros H. rewrite map_map. apply Forall_map.
  eapply Forall_impl; [| exact H]. intros c Hc. simpl. now apply fill_defined.
Qed.

(** X7.  After the row threshold, filling is all or nothing.  If every
    column of the remaining rows holds at least one value, the forward and
    backward fills leave no gap and the final [dropna] removes nothing; if
    one column holds no value at all, the final [dropna] removes every
    row. *)
Theorem clean_data_fills_all_or_nothing (n : nat) (df : DataFrame) :
  has_rows n df ->
  let kept := dropna_thresh (row_threshold (List.length (columns df))) df in
  (Forall (fun c => existsb notna (snd c) = true) kept ->
   clean_data df = map_cols bfill (map_cols ffill kept)) /\
  (Exists (fun c => existsb notna (snd c) = false) kept ->
   has_rows 0 (clean_data df)).
Proof.
  intros Hr kept. unfold clean_data. fold (row_threshold (List.length (columns df))).
  fold kept. split.
  - intros Hall.
    destruct (has_rows_dropna_thresh_le
                (row_threshold (List.length (columns df))) n df Hr) as [n1 [H1 _]].
    fold kept in H1. apply (dropna_valid n1).
    + apply has_rows_map_cols; [apply length_bfill |].
      apply has_rows_map_cols; [intros s; apply length_ffill_from | exact H1].
    + now apply all_valid_fill.
  - intros Hex. apply Exists_exists in Hex. destruct Hex as [[name s] [Hin Hs]].
    simpl in Hs. apply dropna_empties.
    exists name, (bfill (ffill s)). split.
    + unfold map_cols. rewrite map_map. apply in_map_iff.
      exists (name, s). auto.
    + intros i. now apply fill_undefined.
Qed.

Lemma clean_data_fills_all_or_nothing_witness :
  clean_data sparse_table
  = map_cols bfill (map_cols ffill
      (dropna_thresh (row_threshold (List.length (columns sparse_table)))
         sparse_table)) /\
  has_rows 0 (clean_data empty_column_table).
Proof.
  split.
  - apply (proj1 (clean_data_fills_all_or_nothing 4 sparse_table
                    ltac:(repeat constructor))).
    vm_compute. repeat constructor.
  - apply (proj2 (clean_data_fills_all_or_nothing 2 empty_column_table
                    ltac:(repeat constructor))).
    apply Exists_exists. exists ("b", [nan; nan]%float).
    split; [vm_compute; tauto | reflexivity].
Defined.

(** ** Complete tables *)

Lemma row_threshold_bounded :
  forallb (fun k => row_threshold k <=? Z.of_nat k) (seq 0 2001) = true.
Proof. vm_compute. reflexivity. Qed.

(** X8.  A table without any missing value, of up to 2000 columns, passes
    through the cleaning step unchanged: the row threshold
    [int(len(df.columns) * 0.7)] never exceeds the number of columns, so no
    row is dropped and nothing is filled. *)
Theorem clean_data_complete_table_unchanged (n : nat) (df : DataFrame) :
  has_rows n df -> all_valid df -> (List.length (columns df) <= 2000)%nat ->
  clean_data df = df.
Proof.
  intros Hr Hv Hk. apply (clean_data_valid n); [exact Hr | exact Hv |]. left.
  pose proof row_threshold_bounded as Hb. rewrite forallb_forall in Hb.
  apply Z.leb_le. apply Hb. apply in_seq.
  unfold columns in Hk. rewrite length_map in Hk. lia.
Qed.

Lemma clean_data_complete_table_unchanged_witness :
  clean_data timed_table = timed_table.
Proof.
  apply (clean_data_complete_table_unchanged 6 timed_table).
  - repeat constructor.
  - repeat constructor.
  - vm_compute. lia.
Defined.

(** * From the raw table to the engineered one *)

Lemma columns_rename (mapping : list (string * string)) (df : DataFrame) :
  columns (rename mapping df) = map (fun c => dict_get mapping c c) (columns df).
Proof. unfold columns, rename. now rewrite !map_map. Qed.

Lemma exec_writes_dst_in (ws : list write) (df : DataFrame) (w : write) :
  In w ws -> In (w_src w) (columns df) -> In (w_dst w) (columns (exec_writes ws df)).
Proof.
  revert df. induction ws as [| w0 ws IH]; intros df Hin Hsrc; [destruct Hin |].
  simpl. destruct Hin as [-> | Hin].
  - apply exec_writes_columns.
    apply get_col_some_iff in Hsrc. destruct Hsrc as [s Hs]. rewrite Hs.
    apply in_set_col.
  - apply IH; [exact Hin |].
    destruct (get_col df (w_src w0)); [| exact Hsrc].
    apply in_columns_set. now right.
Qed.

Lemma create_rate_of_change_features_names (cfg : OrganizationConfig)
  (df : DataFrame) (col suffix : string) :
  In col (continuous_columns (schema cfg)) ->
  In suffix roc_suffixes ->
  In (get_mapped_column (schema cfg) col) (columns df) ->
  In (get_mapped_column (schema cfg) col ++ suffix)%string
     (columns (create_rate_of_change_features cfg df)).
Proof.
  intros Hcol Hs Hin. rewrite create_rate_of_change_features_writes.
  unfold roc_suffixes in Hs. apply in_map_iff in Hs. destruct Hs as [st [<- Hst]].
  apply (exec_writes_dst_in (roc_writes (schema cfg)) df
           {| w_src := get_mapped_column (schema cfg) col;
              w_dst := (get_mapped_column (schema cfg) col ++ fst st)%string;
              w_fun := snd st |}); [| exact Hin].
  apply in_roc_writes. exists col, st. auto.
Qed.

(** X9.  End to end, without selection: for every declared continuous
    column that the raw table holds under its original name, the
    engineered table holds the column under its mapped name, one lag
    column per configured lag, the five rolling statistics (mean, std, min,
    max, median) per configured window, and the three rate-of-change
    columns. *)
Theorem engineer_features_provides_declared_features (K : Kernels)
  (cfg : OrganizationConfig) (df out : DataFrame) (max_features : Z)
  (feature_names : list string) (col : string) :
  engineer_features K cfg df false max_features = Returns (out, feature_names) ->
  In col (continuous_columns (schema cfg)) ->
  In col (columns df) ->
  let mapped_col := get_mapped_column (schema cfg) col in
  In mapped_col (columns out) /\
  (forall lag_sec, In lag_sec (lag_seconds (schema cfg)) ->
                   In (lag_name mapped_col lag_sec) (columns out)) /\
  (forall stat window,
      In stat ["mean"; "std"; "min"; "max"; "median"] ->
      In window (rolling_windows (schema cfg)) ->
      In (rolling_name mapped_col stat window) (columns out)) /\
  (forall suffix, In suffix ["_roc"; "_acceleration"; "_pct_change"] ->
                  In (mapped_col ++ suffix)%string (columns out)).
Proof.
  intros H Hcol Hin mapped_col. unfold engineer_features in H.
  destruct (run_generators K cfg _) as [g |] eqn:E; simpl in H; [| discriminate].
  injection H as <- _. rewrite columns_clean_data.
  apply run_generators_stages in E.
  destruct E as (d1 & d2 & d3 & H1 & H2 & H3 & ->).
  assert (H0 : In mapped_col (columns (rename (column_mapping (schema cfg)) df))).
  { rewrite columns_rename. apply in_map_iff. exists col. auto. }
  assert (M1 : In mapped_col (columns d1))
    by (exact (create_time_based_features_extends K cfg _ _ H1 _ H0)).
  assert (M2 : In mapped_col (columns d2))
    by (exact (create_lag_features_extends cfg _ _ H2 _ M1)).
  assert (M3 : In mapped_col (columns d3))
    by (exact (create_rolling_features_extends cfg _ _ H3 _ M2)).
  assert (L1 : extends (create_rate_of_change_features cfg d3)
                 (create_domain_specific_features K cfg
                    (create_anomaly_features cfg
                       (create_statistical_features cfg
                          (create_interaction_features cfg
                             (create_rate_of_change_features cfg d3)))))).
  { eapply extends_trans; [apply create_interaction_features_extends |].
    eapply extends_trans; [apply create_statistical_features_extends |].
    eapply extends_trans; [apply create_anomaly_features_extends |].
    apply create_domain_specific_features_extends. }
  assert (L3 : extends d3 (create_rate_of_change_features cfg d3))
    by apply create_rate_of_change_features_extends.
  split; [apply L1, L3, M3 |]. split; [| split].
  - intros lag_sec Hl. apply L1, L3.
    apply (create_rolling_features_extends cfg _ _ H3).
    exact (create_lag_features_names cfg _ _ col lag_sec H2 Hcol Hl M1).
  - intros stat window Hs Hw. apply L1, L3.
    exact (create_rolling_features_names cfg _ _ col stat window H3 Hcol Hs Hw M2).
  - intros suffix Hs. apply L1.
    exact (create_rate_of_change_features_names cfg d3 col suffix Hcol Hs M3).
Qed.

Lemma engineer_features_provides_declared_features_witness :
  exists out names,
    engineer_features example_kernels example_config timed_table false 3
    = Returns (out, names) /\
    In "x" (columns out) /\
    In "x_lag_900s" (columns out) /\
    In "x_rolling_median_2" (columns out) /\
    In "x_acceleration" (columns out).
Proof.
  assert (E : exists out names,
             engineer_features example_kernels example_config timed_table false 3
             = Returns (out, names))
    by (vm_compute; eexists; eexists; reflexivity).
  destruct E as (out & names & E). exists out, names. split; [exact E |].
  destruct (engineer_features_provides_declared_features
              example_kernels example_config timed_table out 3 names "x" E)
    as (Hm & Hl & Hr & Hc).
  - simpl. auto.
  - simpl. auto.
  - split; [exact Hm |]. split; [apply (Hl 900); simpl; auto |].
    split; [apply (Hr "median" 2); simpl; auto 6 |].
    apply (Hc "_acceleration"). simpl. auto.
Defined.

(** * Rolling minimum and maximum *)

Lemma ltb_leb (a b : float) : PrimFloat.ltb a b = true -> PrimFloat.leb a b = true.
Proof.
  rewrite ltb_spec, leb_spec. unfold SFltb, SFleb.
  destruct (SFcompare (Prim2SF a) (Prim2SF b)) as [[| |] |]; congruence.
Qed.

Lemma SFltb_false_leb (x y : spec_float) :
  x <> S754_nan -> y <> S754_nan -> SFltb x y = false -> SFleb y x = true.
Proof.
  intros Hx Hy. unfold SFltb, SFleb.
  destruct x as [s1 | s1 | | s1 m1 e1]; destruct y as [s2 | s2 | | s2 m2 e2];
    try contradiction; rewrite ?SFcompare_finite_cases;
    try (simpl; destruct s1; try destruct s2; simpl; congruence).
  destruct s1, s2; try (simpl; congruence);
    rewrite (Z.compare_antisym e1 e2), (Pos.compare_antisym m1 m2);
    destruct (e1 ?= e2); simpl; try congruence;
    destruct (m1 ?= m2)%positive; simpl; congruence.
Qed.

Lemma ltb_false_leb (a b : float) :
  a <> nan -> b <> nan -> PrimFloat.ltb a b = false -> PrimFloat.leb b a = true.
Proof.
  intros Ha Hb. rewrite ltb_spec, leb_spec. apply SFltb_false_leb.
  - intros E. apply Ha. apply Prim2SF_inj. exact E.
  - intros E. apply Hb. apply Prim2SF_inj. exact E.
Qed.

Lemma leb_refl (a : float) : a <> nan -> PrimFloat.leb a a = true.
Proof.
  intros Ha. destruct (PrimFloat.leb a a) eqn:E; [reflexivity |].
  rewrite <- E. now apply leb_total.
Qed.

Lemma fmin_spec (a b : float) :
  a <> nan -> b <> nan ->
  (fmin a b = a \/ fmin a b = b) /\
  PrimFloat.leb (fmin a b) a = true /\ PrimFloat.leb (fmin a b) b = true.
Proof.
  intros Ha Hb. unfold fmin. destruct (PrimFloat.ltb b a) eqn:E.
  - split; [now right |]. split; [now apply ltb_leb | now apply leb_refl].
  - split; [now left |]. split; [now apply leb_refl | now apply ltb_false_leb].
Qed.

Lemma fmax_spec (a b : float) :
  a <> nan -> b <> nan ->
  (fmax a b = a \/ fmax a b = b) /\
  PrimFloat.leb a (fmax a b) = true /\ PrimFloat.leb b (fmax a b) = true.
Proof.
  intros Ha Hb. unfold fmax. destruct (PrimFloat.ltb a b) eqn:E.
  - split; [now right |]. split; [now apply ltb_leb | now apply leb_refl].
  - split; [now left |]. split; [now apply leb_refl | now apply ltb_false_leb].
Qed.

Lemma fold_fmin_spec (rest : list float) (x : float) :
  x <> nan -> Forall (fun y => y <> nan) rest ->
  In (fold_left fmin rest x) (x :: rest) /\
  forall y, In y (x :: rest) -> PrimFloat.leb (fold_left fmin rest x) y = true.
Proof.
  revert x. induction rest as [| z rest IH]; intros x Hx Hr.
  - simpl. split; [now left |]. intros y [<- | []]. now apply leb_refl.
  - assert (Hz : z <> nan) by (inversion Hr; assumption).
    assert (Hr' : Forall (fun y => y <> nan) rest) by (inversion Hr; assumption).
    destruct (fmin_spec x z Hx Hz) as (Hm & Hlx & Hlz).
    assert (Hmn : fmin x z <> nan) by (destruct Hm as [-> | ->]; assumption).
    destruct (IH (fmin x z) Hmn Hr') as [Hin Hle]. cbn [fold_left]. split.
    + destruct Hin as [Hin | Hin]; [| right; now right].
      rewrite <- Hin. destruct Hm as [-> | ->]; [now left | right; now left].
    + assert (H0 : PrimFloat.leb (fold_left fmin rest (fmin x z)) (fmin x z) = true)
        by (apply Hle; now left).
      intros y [<- | [<- | Hy]].
      * exact (leb_trans _ _ _ H0 Hlx).
      * exact (leb_trans _ _ _ H0 Hlz).
      * apply Hle. now right.
Qed.

Lemma fold_fmax_spec (rest : list float) (x : float) :
  x <> nan -> Forall (fun y => y <> nan) rest ->
  In (fold_left fmax rest x) (x :: rest) /\
  forall y, In y (x :: rest) -> PrimFloat.leb y (fold_left fmax rest x) = true.
Proof.
  revert x. induction rest as [| z rest IH]; intros x Hx Hr.
  - simpl. split; [now left |]. intros y [<- | []]. now apply leb_refl.
  - assert (Hz : z <> nan) by (inversion Hr; assumption).
    assert (Hr' : Forall (fun y => y <> nan) rest) by (inversion Hr; assumption).
    destruct (fmax_spec x z Hx Hz) as (Hm & Hlx & Hlz).
    assert (Hmn : fmax x z <> nan) by (destruct Hm as [-> | ->]; assumption).
    destruct (IH (fmax x z) Hmn Hr') as [Hin Hle]. cbn [fold_left]. split.
    + destruct Hin as [Hin | Hin]; [| right; now right].
      rewrite <- Hin. destruct Hm as [-> | ->]; [now left | right; now left].
    + assert (H0 : PrimFloat.leb (fmax x z) (fold_left fmax rest (fmax x z)) = true)
        by (apply Hle; now left).
      intros y [<- | [<- | Hy]].
      * exact (leb_trans _ _ _ Hlx H0).
      * exact (leb_trans _ _ _ Hlz H0).
      * apply Hle. now right.
Qed.

Lemma valid_obs_defined (w : nat) (s : Series) (i : nat) :
  Forall (fun y => y <> nan) (valid_obs w s i).
Proof.
  unfold valid_obs. apply Forall_forall. intros y Hy. apply filter_In in Hy.
  apply notna_true_iff. apply is_finite_notna. tauto.
Qed.

Lemma agg_min_max_spec (obs : list float) :
  Forall (fun y => y <> nan) obs -> obs <> [] ->
  In (agg_min obs) obs /\ In (agg_max obs) obs /\
  (forall y, In y obs -> PrimFloat.leb (agg_min obs) y = true
                         /\ PrimFloat.leb y (agg_max obs) = true).
Proof.
  intros Hv Hne. destruct obs as [| x rest]; [contradiction |].
  assert (Hx : x <> nan) by (inversion Hv; assumption).
  assert (Hr : Forall (fun y => y <> nan) rest) by (inversion Hv; assumption).
  destruct (fold_fmin_spec rest x Hx Hr) as [Hmin Hlo].
  destruct (fold_fmax_spec rest x Hx Hr) as [Hmax Hhi].
  unfold agg_min, agg_max. auto.
Qed.

(** X10.  On a table with distinct labels, under a collision-free schema
    whose windows are row counts between 1 and [2^63 - 1], the rolling
    minimum and maximum of a continuous column are, at every row whose
    trailing window holds a finite value, finite values of that window
    bounding all of its finite values (so minimum <= maximum); at a row
    whose window holds no finite value (only missing or infinite readings)
    both are missing. *)
Theorem rolling_min_max_bound_the_window (cfg : OrganizationConfig)
  (df : DataFrame) (col : string) (window : Z) (base : Series) :
  NoDup (columns df) ->
  windows_fit (schema cfg) ->
  rolling_names_fresh (schema cfg) ->
  In col (continuous_columns (schema cfg)) ->
  In window (rolling_windows (schema cfg)) ->
  get_col df (get_mapped_column (schema cfg) col) = Some base ->
  let mapped_col := get_mapped_column (schema cfg) col in
  exists out min_col max_col,
    create_rolling_features cfg df = Returns out /\
    get_col out (rolling_name mapped_col "min" window) = Some min_col /\
    get_col out (rolling_name mapped_col "max" window) = Some max_col /\
    forall i, (i < List.length base)%nat ->
      let obs := valid_obs (Z.to_nat window) base i in
      (obs = [] -> isna (cell min_col i) = true /\ isna (cell max_col i) = true) /\
      (obs <> [] ->
       In (cell min_col i) obs /\ In (cell max_col i) obs /\
       is_finite (cell min_col i) = true /\ is_finite (cell max_col i) = true /\
       PrimFloat.leb (cell min_col i) (cell max_col i) = true /\
       forall x, In x obs ->
                 PrimFloat.leb (cell min_col i) x = true /\
                 PrimFloat.leb x (cell max_col i) = true).
Proof.
  intros _ Hws Hfresh Hcol Hwin Hbase mapped_col.
  exists (exec_writes (rolling_writes (schema cfg)) df),
    (rolling (Z.to_nat window) 1 agg_min base),
    (rolling (Z.to_nat window) 1 agg_max base).
  split; [now apply create_rolling_features_writes |].
  split; [apply (rolling_feature_column cfg df col window ("min", agg_min));
          unfold rolling_stats; simpl; auto |].
  split; [apply (rolling_feature_column cfg df col window ("max", agg_max));
          unfold rolling_stats; simpl; auto 6 |].
  intros i Hi obs. rewrite !cell_rolling by assumption. fold obs. split.
  - intros ->. split; reflexivity.
  - intros Hne.
    assert (Hlen : (List.length obs <? 1)%nat = false).
    { destruct obs; [contradiction | reflexivity]. }
    rewrite Hlen.
    destruct (agg_min_max_spec obs (valid_obs_defined _ _ _) Hne)
      as (Hmin & Hmax & Hb).
    assert (Hfin : forall y, In y obs -> is_finite y = true).
    { intros y Hy. subst obs. unfold valid_obs in Hy.
      apply filter_In in Hy. tauto. }
    repeat split; try assumption; try (now apply Hb); now apply Hfin.
Qed.

Lemma rolling_min_max_bound_the_window_witness :
  exists out min_col max_col,
    create_rolling_features example_config example_table = Returns out /\
    get_col out "x_rolling_min_2" = Some min_col /\
    get_col out "x_rolling_max_2" = Some max_col /\
    PrimFloat.leb (cell min_col 3) (cell max_col 3) = true.
Proof.
  destruct (rolling_min_max_bound_the_window example_config example_table
              "x" 2 [1; 2; 4; 0; 3]%float)
    as (out & min_col & max_col & Hout & Hmin & Hmax & Hb).
  - repeat constructor; simpl; intuition discriminate.
  - repeat constructor; vm_compute; discriminate.
  - intros col stat window [<- | []] Hstat [<- | []].
    unfold stat_names in Hstat. simpl in Hstat.
    repeat (destruct Hstat as [<- | Hstat]; [vm_compute; intros [H | []]; discriminate |]).
    destruct Hstat.
  - simpl. auto.
  - simpl. auto.
  - reflexivity.
  - exists out, min_col, max_col.
    split; [exact Hout |]. split; [exact Hmin |]. split; [exact Hmax |].
    destruct (Hb 3%nat) as [_ Hd]; [simpl; lia |].
    destruct Hd as (_ & _ & _ & _ & Hle & _); [vm_compute; discriminate | exact Hle].
Defined.

(** * Anomaly flags *)

Lemma suffix_distinct (m m' a b : string) :
  (forall x y, rev (chars a) = x -> rev (chars b) = y ->
               match x, y with
               | c :: _, c' :: _ => c <> c'
               | _, _ => False
               end) ->
  (m ++ a)%string <> (m' ++ b)%string.
Proof.
  intros H E. apply (f_equal chars) in E. rewrite !chars_app in E.
  apply (f_equal (@rev ascii)) in E. rewrite !rev_app_distr in E.
  specialize (H _ _ eq_refl eq_refl).
  destruct (rev (chars a)) as [| c ra]; [contradiction |].
  destruct (rev (chars b)) as [| c' rb]; [contradiction |].
  simpl in E. injection E as Ec _. contradiction.
Qed.

Lemma fold_left_establishes {A : Type} (xs : list A)
  (body : DataFrame -> A -> DataFrame) (pre post : DataFrame -> Prop)
  (x : A) (df : DataFrame) :
  (forall y d, pre d -> pre (body d y)) ->
  (forall y d, post d -> post (body d y)) ->
  (forall d, pre d -> post (body d x)) ->
  In x xs -> pre df -> post (fold_left body xs df).
Proof.
  intros Hpre Hpost Hx. revert df.
  induction xs as [| y xs IH]; intros df Hin Hp; [destruct Hin |].
  simpl. destruct Hin as [-> | Hin].
  - apply fold_left_invariant; auto.
  - apply IH; auto.
Qed.

(** X11.  On a table with distinct labels, the anomaly flag of a
    continuous column present in the table is a column of zeros and ones
    with one entry per row: the comparison [abs(z) > 3] is false on a
    missing z-score, so a flag is never missing. *)
Theorem anomaly_flags_are_zero_or_one (cfg : OrganizationConfig) (n : nat)
  (df : DataFrame) (col : string) :
  NoDup (columns df) ->
  has_rows n df ->
  In col (continuous_columns (schema cfg)) ->
  In (get_mapped_column (schema cfg) col) (columns df) ->
  exists flags,
    get_col (create_anomaly_features cfg df)
      (get_mapped_column (schema cfg) col ++ "_anomaly")%string = Some flags /\
    List.length flags = n /\
    forall x, In x flags -> x = 0%float \/ x = 1%float.
Proof.
  intros _ Hr Hcol Hin.
  set (A := (get_mapped_column (schema cfg) col ++ "_anomaly")%string).
  assert (Hflag : forall zs x,
             In x (map (fun z => if PrimFloat.ltb 3 (PrimFloat.abs z)
                                 then 1%float else 0%float) zs) ->
             x = 0%float \/ x = 1%float).
  { intros zs x Hx. apply in_map_iff in Hx. destruct Hx as [z [<- _]].
    destruct (PrimFloat.ltb 3 (PrimFloat.abs z)); auto. }
  assert (Hz : forall m', (m' ++ "_z_score")%string <> A).
  { intros m'. apply suffix_distinct. intros x y <- <-. simpl. discriminate. }
  assert (Hd : forall m', (m' ++ "_distance_from_mean")%string <> A).
  { intros m'. apply suffix_distinct. intros x y <- <-. simpl. discriminate. }
  assert (Hq : exists flags,
             get_col (create_anomaly_features cfg df) A = Some flags /\
             forall x, In x flags -> x = 0%float \/ x = 1%float).
  { unfold create_anomaly_features. cbv zeta.
    apply (fold_left_establishes _ _
             (fun d => In (get_mapped_column (schema cfg) col) (columns d))
             (fun d => exists flags, get_col d A = Some flags /\
                         forall x, In x flags -> x = 0%float \/ x = 1%float)
             col df); [| | | exact Hcol | exact Hin].
    - intros c d Hp. destruct (has_col d _); [| exact Hp].
      now repeat apply extends_set.
    - intros c d (flags & Hg & Hf). destruct (has_col d _); [| eauto].
      rewrite get_set_other by apply Hd.
      destruct (string_dec (get_mapped_column (schema cfg) c ++ "_anomaly") A)
        as [E | N].
      + rewrite E, get_set_same. eexists. split; [reflexivity | apply Hflag].
      + rewrite get_set_other by exact N. rewrite get_set_other by apply Hz.
        eauto.
    - intros d Hp. apply has_col_iff in Hp. rewrite Hp.
      rewrite get_set_other by apply Hd. fold A. rewrite get_set_same.
      eexists. split; [reflexivity | apply Hflag]. }
  destruct Hq as (flags & Hg & Hf). exists flags.
  split; [exact Hg |]. split; [| exact Hf].
  exact (has_rows_get_col n _ _ _ (create_anomaly_features_rows cfg n df Hr) Hg).
Qed.

Lemma anomaly_flags_are_zero_or_one_witness :
  exists flags,
    get_col (create_anomaly_features example_config example_table) "x_anomaly"
    = Some flags /\
    List.length flags = 5%nat /\
    forall x, In x flags -> x = 0%float \/ x = 1%float.
Proof.
  apply (anomaly_flags_are_zero_or_one example_config 5 example_table "x").
  - repeat constructor; simpl; intuition discriminate.
  - repeat constructor.
  - simpl. auto.
  - simpl. auto.
Defined.

(** * When the selection succeeds *)

Lemma select_cols_present (df d : DataFrame) (names : list string) :
  select_cols df names = Returns d -> forall c, In c names -> In c (columns df).
Proof.
  unfold select_cols. revert d. induction names as [| a names IH]; intros d H c Hc;
    [destruct Hc |].
  simpl in H. unfold getitem in H at 1.
  destruct (get_col df a) as [s |] eqn:E; simpl in H; [| discriminate].
  destruct (map_m _ names) as [r |]; simpl in H; [| discriminate].
  destruct Hc as [<- | Hc].
  - apply get_col_some_iff. eauto.
  - now apply (IH r).
Qed.

Lemma forallb_finite_frame (X : DataFrame) :
  forallb (fun c => forallb is_finite (snd c)) X = true <->
  forall c x, In c X -> In x (snd c) -> is_finite x = true.
Proof.
  rewrite forallb_forall. split.
  - intros H c x Hc Hx. specialize (H c Hc). rewrite forallb_forall in H. auto.
  - intros H c Hc. apply forallb_forall. intros x Hx. eauto.
Qed.

Lemma select_features_returns_inputs (K : Kernels) (cfg : OrganizationConfig)
  (df : DataFrame) (target_col : string) (feature_columns : list string)
  (k : Z) (method : string) (d : DataFrame) (sel : list string) :
  select_features K cfg df target_col feature_columns k method = Returns (d, sel) ->
  (method = "f_classif" \/ method = "mutual_info") /\
  selection_inputs_ok cfg df target_col feature_columns k.
Proof.
  intros H. apply select_features_returns in H.
  destruct H as (X & y & sf & scores & HX & Hy & Hm & Hfit & Hsel & Hd).
  split; [destruct Hm as [[-> _] | [-> _]]; auto |].
  exists X, y. split; [exact HX |]. split; [exact Hy |].
  split.
  { apply (select_cols_present _ _ _ Hd). apply in_or_app. right. simpl. auto. }
  unfold fit in Hfit.
  destruct (List.length (keep (eligible_mask X y) y) =? 0)%nat eqn:E1;
    [discriminate |].
  destruct (list_falsy (keep_rows (eligible_mask X y) X)) eqn:E2;
    [discriminate |].
  destruct (forallb (fun c => forallb is_finite (snd c))
              (keep_rows (eligible_mask X y) X)) eqn:E3; [| discriminate].
  destruct (forallb is_finite (keep (eligible_mask X y) y)) eqn:E4;
    [| discriminate].
  cbn [orb andb negb] in Hfit.
  destruct (Z.ltb_spec (Z.min k (Z.of_nat (List.length feature_columns))) 0)
    as [Hlt | Hge]; [discriminate |].
  split.
  { intros ->. simpl in HX. injection HX as <-. discriminate. }
  split; [lia |]. split.
  { intros E. rewrite E in E1. discriminate. }
  split; [now apply forallb_finite_frame |].
  now apply forallb_forall.
Qed.

Lemma select_features_f_classif_returns (K : Kernels) (cfg : OrganizationConfig)
  (df : DataFrame) (target_col : string) (feature_columns : list string) (k : Z) :
  selection_inputs_ok cfg df target_col feature_columns k ->
  exists d sel,
    select_features K cfg df target_col feature_columns k "f_classif"
    = Returns (d, sel).
Proof.
  intros (X & y & HX & Hy & Hts & Hne & Hk & Hrows & HfX & Hfy).
  unfold select_features. rewrite HX, Hy. cbn [bind]. fold (eligible_mask X y).
  change (if String.eqb "f_classif" "f_classif" then Returns f_classif
          else if String.eqb "f_classif" "mutual_info"
               then Returns (mutual_info_classif K)
               else Raises ValueError) with (Returns f_classif).
  cbn [bind]. set (sf := f_classif).
  assert (HlenX : List.length (keep_rows (eligible_mask X y) X)
                  = List.length feature_columns).
  { unfold keep_rows. rewrite length_map. exact (length_select_cols _ _ _ HX). }
  assert (Hfit : fit sf (Z.min k (Z.of_nat (List.length feature_columns)))
                   (keep_rows (eligible_mask X y) X) (keep (eligible_mask X y) y)
                 = Returns (map (fun c => sf (snd c) (keep (eligible_mask X y) y))
                              (keep_rows (eligible_mask X y) X))).
  { unfold fit.
    destruct (keep (eligible_mask X y) y) as [| y0 yr] eqn:Ey; [contradiction |].
    destruct (keep_rows (eligible_mask X y) X) as [| c0 cr] eqn:EX.
    { simpl in HlenX. destruct feature_columns; [contradiction | discriminate]. }
    cbn [List.length Nat.eqb list_falsy orb].
    rewrite (proj2 (forallb_finite_frame (c0 :: cr)) HfX).
    rewrite (proj2 (forallb_forall is_finite (y0 :: yr)) Hfy).
    cbn [andb negb].
    destruct (Z.ltb_spec (Z.min k (Z.of_nat (List.length feature_columns))) 0);
      [lia |].
    simpl in HlenX.
    destruct (Z.ltb_spec (Z.of_nat (S (List.length cr)))
                (Z.min k (Z.of_nat (List.length feature_columns)))); [lia |].
    cbn [orb]. reflexivity. }
  rewrite Hfit. cbn [bind].
  destruct (select_cols_exists df
              (take_masked
                 (get_support_mask (Z.min k (Z.of_nat (List.length feature_columns)))
                    (map (fun c => sf (snd c) (keep (eligible_mask X y) y))
                       (keep_rows (eligible_mask X y) X)))
                 feature_columns
               ++ [target_col; timestamp_column (schema cfg)])) as [d Hd].
  { intros c Hc. apply in_app_or in Hc. destruct Hc as [Hc | Hc].
    - apply take_masked_incl in Hc. exact (select_cols_present _ _ _ HX c Hc).
    - destruct Hc as [<- | [<- | []]]; [| exact Hts].
      apply get_col_some_iff. unfold getitem in Hy.
      destruct (get_col df target_col) as [s |]; [eauto | discriminate]. }
  rewrite Hd. cbn [bind]. eauto.
Qed.

(** X12.  On a table with distinct labels, [select_features] returns only
    when the method is one of the two known ones and: every candidate and
    the target are columns of the table, and so is the timestamp column;
    there is at least one candidate; [k] is not negative; at least one row
    has no missing candidate and no missing target; and no infinity occurs
    in those rows.  With the default method, [f_classif], these conditions
    are also sufficient.  (With [mutual_info] the scoring routine can still
    reject the target.) *)
Theorem select_features_returns_iff (K : Kernels) (cfg : OrganizationConfig)
  (df : DataFrame) (target_col : string) (feature_columns : list string)
  (k : Z) (method : string) :
  NoDup (columns df) ->
  ((exists d sel,
       select_features K cfg df target_col feature_columns k method
       = Returns (d, sel)) ->
   (method = "f_classif" \/ method = "mutual_info") /\
   selection_inputs_ok cfg df target_col feature_columns k) /\
  ((exists d sel,
       select_features K cfg df target_col feature_columns k "f_classif"
       = Returns (d, sel)) <->
   selection_inputs_ok cfg df target_col feature_columns k).
Proof.
  intros _. split; [| split].
  - intros (d & sel & H). exact (select_features_returns_inputs _ _ _ _ _ _ _ _ _ H).
  - intros (d & sel & H).
    exact (proj2 (select_features_returns_inputs _ _ _ _ _ _ _ _ _ H)).
  - apply select_features_f_classif_returns.
Qed.

Lemma select_features_returns_iff_witness :
  (exists d sel,
     select_features example_kernels example_config scored_table "y"
       ["a"; "b"; "c"] 2 "f_classif" = Returns (d, sel)) /\
  selection_inputs_ok example_config scored_table "y" ["a"; "b"; "c"] 2.
Proof.
  assert (Hrun : exists d sel,
             select_features example_kernels example_config scored_table "y"
               ["a"; "b"; "c"] 2 "f_classif" = Returns (d, sel))
    by (vm_compute; eexists; eexists; reflexivity).
  split; [exact Hrun |].
  apply (select_features_returns_iff example_kernels example_config scored_table
           "y" ["a"; "b"; "c"] 2 "f_classif").
  - repeat constructor; simpl; intuition discriminate.
  - exact Hrun.
Defined.

(** * Lags shorter than two sampling intervals *)

Lemma lag_feature_column (cfg : OrganizationConfig) (df : DataFrame)
  (col : string) (lag_sec : Z) (base : Series) :
  lag_names_fresh cfg ->
  In col (continuous_columns (schema cfg)) ->
  In lag_sec (lag_seconds (schema cfg)) ->
  get_col df (get_mapped_column (schema cfg) col) = Some base ->
  get_col (exec_writes (lag_writes cfg) df)
    (lag_name (get_mapped_column (schema cfg) col) lag_sec)
  = Some (shift (lag_period cfg lag_sec) base).
Proof.
  intros Hfresh Hcol Hlag Hbase.
  set (w := {| w_src := get_mapped_column (schema cfg) col;
               w_dst := lag_name (get_mapped_column (schema cfg) col) lag_sec;
               w_fun := shift (lag_period cfg lag_sec) |}).
  change (get_col (exec_writes (lag_writes cfg) df) (w_dst w) = Some (w_fun w base)).
  apply exec_writes_get.
  - intros a b Ha Hb E. apply in_lag_writes in Ha, Hb.
    destruct Ha as [c [l [Hc [Hl ->]]]]. destruct Hb as [c' [l' [Hc' [Hl' ->]]]].
    simpl in E. apply (Hfresh c l Hc Hl). rewrite E.
    unfold mapped_columns. now apply in_map.
  - intros a b Ha Hb E. apply in_lag_writes in Ha, Hb.
    destruct Ha as [c [l [Hc [Hl ->]]]]. destruct Hb as [c' [l' [Hc' [Hl' ->]]]].
    simpl in *. apply lag_name_inj in E. destruct E as [-> ->]. auto.
  - apply in_lag_writes. exists col, lag_sec. auto.
  - exact Hbase.
Qed.

(** X13.  The lag in seconds is turned into a number of rows by an integer
    division floored at one row, so every lag shorter than two sampling
    intervals becomes a shift by exactly one row: two different such lags
    yield columns with different names and identical contents.  The table's
    labels are distinct, the sampling interval is positive, every
    configured lag gives a period below [2^63], and no derived name is the
    name of a declared column. *)
Theorem short_lags_give_identical_columns (cfg : OrganizationConfig)
  (df : DataFrame) (col : string) (lag_sec lag_sec' : Z) (base : Series) :
  NoDup (columns df) ->
  0 < sampling_interval_minutes (data cfg) ->
  lag_periods_fit cfg ->
  lag_names_fresh cfg ->
  In col (continuous_columns (schema cfg)) ->
  In lag_sec (lag_seconds (schema cfg)) ->
  In lag_sec' (lag_seconds (schema cfg)) ->
  lag_sec < 2 * (sampling_interval_minutes (data cfg) * 60) ->
  lag_sec' < 2 * (sampling_interval_minutes (data cfg) * 60) ->
  get_col df (get_mapped_column (schema cfg) col) = Some base ->
  let mapped_col := get_mapped_column (schema cfg) col in
  exists out,
    create_lag_features cfg df = Returns out /\
    get_col out (lag_name mapped_col lag_sec) = Some (shift 1 base) /\
    get_col out (lag_name mapped_col lag_sec') = Some (shift 1 base) /\
    (lag_sec <> lag_sec' ->
     lag_name mapped_col lag_sec <> lag_name mapped_col lag_sec').
Proof.
  intros _ Hpos Hfit Hfresh Hcol Hl Hl' Hs Hs' Hbase mapped_col.
  assert (Hp : forall l, l < 2 * (sampling_interval_minutes (data cfg) * 60) ->
                         lag_period cfg l = 1%nat).
  { intros l Hlt. unfold lag_period.
    assert (l / (sampling_interval_minutes (data cfg) * 60) < 2)
      by (apply Z.div_lt_upper_bound; lia).
    lia. }
  exists (exec_writes (lag_writes cfg) df).
  split; [apply create_lag_features_writes; [lia | exact Hfit] |].
  split; [| split].
  - rewrite <- (Hp lag_sec Hs). now apply lag_feature_column.
  - rewrite <- (Hp lag_sec' Hs'). now apply lag_feature_column.
  - intros Hne E. apply lag_name_inj in E. now destruct E.
Qed.

Lemma short_lags_give_identical_columns_witness :
  exists out,
    create_lag_features short_lag_config example_table = Returns out /\
    get_col out "x_lag_60s" = Some [nan; 1; 2; 4; 0]%float /\
    get_col out "x_lag_300s" = Some [nan; 1; 2; 4; 0]%float /\
    (60 <> 300 -> "x_lag_60s" <> "x_lag_300s").
Proof.
  apply (short_lags_give_identical_columns short_lag_config example_table
           "x" 60 300 [1; 2; 4; 0; 3]%float).
  - repeat constructor; simpl; intuition discriminate.
  - reflexivity.
  - repeat constructor; vm_compute; discriminate.
  - intros col l [<- | []] [<- | [<- | [<- | []]]]; vm_compute;
      intros [H | []]; discriminate.
  - simpl. auto.
  - simpl. auto.
  - simpl. auto.
  - vm_compute. reflexivity.
  - vm_compute. reflexivity.
  - reflexivity.
Defined.

(** * Configuration files *)

Lemma is_prefix_refl (p : list ascii) : is_prefix p p = true.
Proof.
  induction p as [| a p IH]; simpl; [reflexivity |].
  now rewrite Ascii.eqb_refl, IH.
Qed.

Lemma is_prefix_app (p s : list ascii) : is_prefix p (p ++ s) = true.
Proof.
  induction p as [| a p IH]; simpl; [reflexivity |].
  now rewrite Ascii.eqb_refl, IH.
Qed.

Lemma is_prefix_app_long (p t u : list ascii) :
  (List.length p <= List.length t)%nat -> is_prefix p (t ++ u) = is_prefix p t.
Proof.
  revert t. induction p as [| a p IH]; intros t H; [reflexivity |].
  destruct t as [| b t]; simpl in *; [lia |].
  rewrite IH by lia. reflexivity.
Qed.

Lemma replace_chars_skip (old new : list ascii) (skip : nat) (s : list ascii) :
  (List.length s <= skip)%nat -> replace_chars old new skip s = [].
Proof.
  revert skip. induction s as [| c s IH]; intros skip H; [reflexivity |].
  simpl in *. destruct skip as [| k]; [lia |]. apply IH. lia.
Qed.

Lemma str_endswith_app (a suffix : string) : str_endswith (a ++ suffix) suffix = true.
Proof.
  unfold str_endswith. rewrite chars_app, rev_app_distr. apply is_prefix_app.
Qed.

Lemma string_of_chars (s : string) : string_of_list_ascii (chars s) = s.
Proof. apply string_of_list_ascii_of_string. Qed.

(** The suffix [_config.json] does not overlap itself: it cannot start in
    the last characters of an identifier and end in the suffix. *)
Lemma config_suffix_no_overlap (t : list ascii) :
  (0 < List.length t < 12)%nat ->
  is_prefix (chars "_config.json") (t ++ chars "_config.json") = false.
Proof.
  intros [Hpos Hlt].
  do 12 (destruct t as [| ? t]; [simpl in *; try lia;
    repeat match goal with
           | |- context [Ascii.eqb ?a ?c] =>
               is_var c; destruct (Ascii.eqb a c); cbn [andb]
           end; reflexivity |]).
  simpl in Hlt. lia.
Qed.

Lemma is_prefix_config_suffix (t : list ascii) :
  contains_chars (chars "_config.json") t = false -> t <> [] ->
  is_prefix (chars "_config.json") (t ++ chars "_config.json") = false.
Proof.
  intros Hc Hne.
  destruct (Nat.lt_ge_cases (List.length t) 12) as [Hlt | Hge].
  - apply config_suffix_no_overlap. destruct t; [contradiction | simpl in *; lia].
  - rewrite is_prefix_app_long by exact Hge.
    destruct t as [| c t]; [contradiction |].
    cbn [contains_chars] in Hc. apply orb_false_iff in Hc. tauto.
Qed.

Lemma replace_config_suffix (t : list ascii) :
  contains_chars (chars "_config.json") t = false ->
  replace_chars (chars "_config.json") [] 0 (t ++ chars "_config.json") = t.
Proof.
  induction t as [| c t IH]; intros Hc; [reflexivity |].
  pose proof (is_prefix_config_suffix (c :: t) Hc ltac:(discriminate)) as Hp.
  cbn [app replace_chars]. cbn [app] in Hp. rewrite Hp. f_equal. apply IH.
  cbn [contains_chars] in Hc. apply orb_false_iff in Hc. tauto.
Qed.

(** X14.  Listing the organizations inverts the naming of the configuration
    files: for identifiers that do not contain [_config.json],
    [list_organizations] returns exactly the identifiers whose files
    [<id>_config.json] the directory holds, in the order of the listing,
    and skips every entry that does not end in [_config.json]. *)
Theorem list_organizations_recovers_identifiers (entries : list (string + string)) :
  (forall org, In (inl org) entries -> str_contains "_config.json" org = false) ->
  (forall other, In (inr other) entries -> str_endswith other "_config.json" = false) ->
  list_organizations
    (map (fun e => match e with
                   | inl org => config_file_name org
                   | inr other => other
                   end) entries)
  = flat_map (fun e => match e with
                       | inl org => [org]
                       | inr _ => []
                       end) entries.
Proof.
  unfold list_organizations.
  induction entries as [| e entries IH]; intros Horg Hother; [reflexivity |].
  assert (IH' := IH (fun o H => Horg o (or_intror H)) (fun o H => Hother o (or_intror H))).
  cbn [map filter flat_map]. destruct e as [org | other].
  - unfold config_file_name at 1. rewrite str_endswith_app. cbn [map app].
    rewrite IH'. f_equal.
    unfold str_replace, config_file_name.
    destruct (chars "_config.json") as [| c0 cs] eqn:E; [discriminate |].
    rewrite <- E, chars_app.
    change (chars "") with (@nil ascii).
    rewrite replace_config_suffix by (apply Horg; now left).
    apply string_of_chars.
  - rewrite (Hother other) by now left. exact IH'.
Qed.

Lemma list_organizations_recovers_identifiers_witness :
  list_organizations ["plant_a_config.json"; "README.md"; "plant_b_config.json"]
  = ["plant_a"; "plant_b"].
Proof.
  apply (list_organizations_recovers_identifiers
           [inl "plant_a"; inr "README.md"; inl "plant_b"]).
  - intros org [H | [H | [H | []]]]; inversion H; reflexivity.
  - intros other [H | [H | [H | []]]]; inversion H; reflexivity.
Defined.

(** An identifier that contains [_config.json] is not recovered, and an
    identifier starting with [/] is saved outside the configuration
    directory. *)
Example list_organizations_garbles_identifier :
  list_organizations [config_file_name "a_config.json.bak"] = ["a.bak"]
  /\ get_config_path "configs" "plant_a" = "configs/plant_a_config.json"
  /\ get_config_path "configs" "/tmp/x" = "/tmp/x_config.json".
Proof. repeat split; reflexivity. Qed.

(** * Saving and loading configurations *)





(** The power-generation defaults, once saved and loaded, have become the
    hard-coded schema: [temperature] instead of [generator_temp]. *)
Example reloaded_defaults_lose_their_schema :
  exists cfg log fs,
    create_default_config example_environment "configs" "plant"
      (Some (get_default_config_for_type "power_generation")) []
    = Loaded (cfg, log, fs) /\
    continuous_columns (schema cfg)
    = ["generator_temp"; "turbine_speed"; "power_output"; "fuel_flow";
       "exhaust_temp"; "oil_pressure"; "coolant_temp"] /\
    exists reloaded,
      load_config example_environment "configs" "plant" fs = Loaded reloaded /\
      continuous_columns (schema reloaded)
      = ["temperature"; "pressure"; "flow_rate"; "vibration";
         "current"; "voltage"; "rpm"; "power_consumption"].
Proof.
  eexists. eexists. eexists. split; [reflexivity |]. split; [reflexivity |].
  eexists. split; reflexivity.
Qed.

(** X20.  For an organization without a configuration file, and with no
    [SCADA_DB_*] variable set, [load_config] returns the built-in defaults:
    the hard-coded schema, a date range of exactly 365 days ending now, and
    a configuration on which [validate] reports no error. *)
Theorem load_config_without_file_gives_valid_defaults (E : Environment)
  (config_dir organization_id : string) (fs : files) (p : Z) :
  read_file fs (get_config_path config_dir organization_id) = None ->
  (forall name, getenv E name = None) ->
  py_int E "5432" = Returns p ->
  exists cfg,
    load_config E config_dir organization_id fs = Loaded cfg /\
    cfg = {| organization_id := organization_id;
             scada_db := {| host := "localhost"; port := p; database := "scada";
                            user := "postgres"; password := "";
                            ssl_mode := "prefer"; connection_timeout := 30 |};
             schema := init_schema_config no_overrides;
             training := default_training;
             data := default_data E |} /\
    validate cfg = Returns [] /\
    get_date_range_days (data cfg) = Returns 365.
Proof.
  intros Hfile Henv Hp. unfold load_config. rewrite Hfile.
  unfold organization_config_of, init_scada_db_config, init_schema_config_of,
    init_training_config, init_data_config, getenv_or.
  rewrite !Henv. cbn -[init_schema_config]. rewrite Hp. cbn -[init_schema_config].
  eexists. split; [reflexivity |]. split; [reflexivity |]. split.
  - unfold validate, datetime_ge. cbn -[Z.leb Z.sub].
    match goal with
    | |- context [now E <=? ?b] => destruct (Z.leb_spec (now E) b) as [H | _]
    end; [lia | reflexivity].
  - unfold get_date_range_days, days_between, default_data, naive, seconds_per_day.
    cbn [end_date start_date data seconds aware Bool.eqb].
    replace (now E - (now E - 31536000)) with (365 * 86400) by lia.
    reflexivity.
Qed.

Lemma load_config_without_file_gives_valid_defaults_witness :
  exists cfg,
    load_config example_environment "configs" "plant" [] = Loaded cfg /\
    validate cfg = Returns [] /\
    get_date_range_days (data cfg) = Returns 365.
Proof.
  destruct (load_config_without_file_gives_valid_defaults example_environment
              "configs" "plant" [] 5432 eq_refl (fun _ => eq_refl) eq_refl)
    as (cfg & Hc & _ & Hv & Hd).
  exists cfg. auto.
Defined.

(** * Configurations on which the generators are well defined *)

Lemma names_fresh_b_spec (sc : SchemaConfig) (names : list string) (n : string) :
  names_fresh_b sc names = true -> In n names -> ~ In n (mapped_columns sc).
Proof.
  unfold names_fresh_b. rewrite forallb_forall. intros H Hn Hin.
  specialize (H n Hn). apply negb_true_iff in H.
  assert (Ht : existsb (String.eqb n) (mapped_columns sc) = true).
  { apply existsb_exists. exists n. split; [exact Hin | apply String.eqb_refl]. }
  congruence.
Qed.

Lemma distinct_b_NoDup (l : list string) : distinct_b l = true -> NoDup l.
Proof.
  induction l as [| x l IH]; intros H; [constructor |].
  simpl in H. apply andb_true_iff in H. destruct H as [Hx Hl].
  constructor; [| now apply IH].
  intros Hin. apply negb_true_iff in Hx.
  assert (Ht : existsb (String.eqb x) l = true).
  { apply existsb_exists. exists x. split; [exact Hin | apply String.eqb_refl]. }
  congruence.
Qed.

Lemma in_error_if (cond : bool) (msg m : string) :
  In m (error_if cond msg) -> cond = true /\ m = msg.
Proof.
  unfold error_if. destruct cond; [| intros []].
  intros [<- | []]. auto.
Qed.

(** What [well_formed_b] decides. *)
Lemma well_formed_b_spec (cfg : OrganizationConfig) :
  well_formed_b cfg = true ->
  (forall errors, validate cfg = Returns errors ->
     ~ In "At least one continuous or boolean column must be specified" errors /\
     ~ In "Target column is required" errors) /\
  lag_names_fresh cfg /\
  rolling_names_fresh (schema cfg) /\
  roc_names_fresh (schema cfg) /\
  NoDup (get_all_feature_columns (schema cfg)) /\
  (forall df, NoDup (columns df) ->
              exists out, create_lag_features cfg df = Returns out) /\
  (forall df, NoDup (columns df) ->
              exists out, create_rolling_features cfg df = Returns out).
Proof.
  unfold well_formed_b. cbv zeta. rewrite !andb_true_iff.
  intros [[[[[[[[Hc Ht] Hi] Hp] Hw] Hl] Hr] Ho] Hd].
  apply negb_true_iff in Hc, Ht. apply Z.ltb_lt in Hi.
  split.
  { intros errors Hv. unfold validate in Hv.
    destruct (datetime_ge _ _) as [ge | e]; cbn [bind] in Hv; [| discriminate].
    injection Hv as <-.
    split; intros Hm; rewrite !in_app_iff in Hm;
      repeat (destruct Hm as [Hm | Hm]);
      apply in_error_if in Hm; destruct Hm as [Hcond Hm];
      try discriminate Hm.
    - destruct (continuous_columns (schema cfg)); discriminate.
    - rewrite Ht in Hcond. discriminate. }
  split.
  { intros col l Hcol Hlag. apply (names_fresh_b_spec _ _ _ Hl).
    unfold lag_names. apply in_flat_map. exists col. split; [exact Hcol |].
    now apply in_map. }
  split.
  { intros col stat w Hcol Hs Hwin. apply (names_fresh_b_spec _ _ _ Hr).
    unfold rolling_names. apply in_flat_map. exists col. split; [exact Hcol |].
    apply in_flat_map. exists w. split; [exact Hwin |].
    apply in_map_iff. exists stat. auto. }
  split.
  { intros col suffix Hcol Hs. apply (names_fresh_b_spec _ _ _ Ho).
    unfold roc_names. apply in_flat_map. exists col. split; [exact Hcol |].
    apply in_map_iff. exists suffix. auto. }
  split; [now apply distinct_b_NoDup |].
  split.
  - intros df _. eexists. apply create_lag_features_writes; [lia |].
    unfold lag_periods_fit. rewrite forallb_forall in Hp.
    apply Forall_forall. intros l Hin. apply Z.leb_le. now apply Hp.
  - intros df _. eexists. apply create_rolling_features_writes.
    unfold windows_fit. rewrite forallb_forall in Hw.
    apply Forall_forall. intros w Hin. specialize (Hw w Hin).
    apply andb_true_iff in Hw. destruct Hw as [H1 H2].
    apply Z.leb_le in H1, H2. lia.
Qed.

(** X16.  Every built-in default, and the manufacturing default that
    stands in for an unknown organization type, builds a configuration
    whose dates [validate] can compare and in which it reports no schema
    problem; [create_default_config] returns that configuration exactly
    when the file can be written, and raises the error of [open]
    otherwise.  On a table with distinct labels the lag and rolling stages
    cannot raise under such a configuration; its derived names collide
    neither with declared columns nor with each other; and, the sampling
    interval being five minutes, every default lag below 600 seconds is a
    shift by a single row. *)
Theorem built_in_defaults_are_well_formed (E : Environment)
  (config_dir organization_id organization_type : string) (fs : files) (p : Z) :
  py_int E (getenv_or E "SCADA_DB_PORT" "5432") = Returns p ->
  exists cfg errors,
    organization_config_of E organization_id
      (get_default_config_for_type organization_type) = Loaded cfg /\
    validate cfg = Returns errors /\
    ~ In "At least one continuous or boolean column must be specified" errors /\
    ~ In "Target column is required" errors /\
    create_default_config E config_dir organization_id
      (Some (get_default_config_for_type organization_type)) fs
    = match save_config E config_dir cfg fs with
      | Returns fs' => Loaded (cfg, if list_falsy errors then [] else [errors], fs')
      | Raises e => LoadRaises e
      end /\
    lag_names_fresh cfg /\
    rolling_names_fresh (schema cfg) /\
    roc_names_fresh (schema cfg) /\
    NoDup (get_all_feature_columns (schema cfg)) /\
    (forall df, NoDup (columns df) ->
                exists out, create_lag_features cfg df = Returns out) /\
    (forall df, NoDup (columns df) ->
                exists out, create_rolling_features cfg df = Returns out) /\
    (forall lag_sec, In lag_sec (lag_seconds (schema cfg)) -> lag_sec < 600 ->
                     lag_period cfg lag_sec = 1%nat).
Proof.
  intros Hp.
  assert (Hcases : get_default_config_for_type organization_type = manufacturing_defaults
                   \/ get_default_config_for_type organization_type
                      = power_generation_defaults
                   \/ get_default_config_for_type organization_type
                      = water_treatment_defaults).
  { unfold get_default_config_for_type, DEFAULT_CONFIGS. cbn [find fst snd].
    destruct (String.eqb "manufacturing" organization_type); [auto |].
    destruct (String.eqb "power_generation" organization_type); [auto |].
    destruct (String.eqb "water_treatment" organization_type); auto. }
  assert (Hbuild : forall cfg,
             organization_config_of E organization_id
               (get_default_config_for_type organization_type) = Loaded cfg ->
             data cfg = default_data E ->
             well_formed_b cfg = true ->
             exists cfg errors,
               organization_config_of E organization_id
                 (get_default_config_for_type organization_type) = Loaded cfg /\
               validate cfg = Returns errors /\
               ~ In "At least one continuous or boolean column must be specified"
                    errors /\
               ~ In "Target column is required" errors /\
               create_default_config E config_dir organization_id
                 (Some (get_default_config_for_type organization_type)) fs
               = match save_config E config_dir cfg fs with
                 | Returns fs' =>
                     Loaded (cfg, if list_falsy errors then [] else [errors], fs')
                 | Raises e => LoadRaises e
                 end /\
               lag_names_fresh cfg /\
               rolling_names_fresh (schema cfg) /\
               roc_names_fresh (schema cfg) /\
               NoDup (get_all_feature_columns (schema cfg)) /\
               (forall df, NoDup (columns df) ->
                           exists out, create_lag_features cfg df = Returns out) /\
               (forall df, NoDup (columns df) ->
                           exists out, create_rolling_features cfg df = Returns out) /\
               (forall lag_sec, In lag_sec (lag_seconds (schema cfg)) ->
                                lag_sec < 600 -> lag_period cfg lag_sec = 1%nat)).
  { intros cfg Hcfg Hdata Hwf.
    destruct (validate_returns cfg) as [errors Hv]; [now rewrite Hdata |].
    destruct (well_formed_b_spec cfg Hwf) as (H1 & H2 & H3 & H4 & H5 & H6 & H7).
    destruct (H1 errors Hv) as [Hc Ht].
    exists cfg, errors.
    split; [exact Hcfg |]. split; [exact Hv |].
    split; [exact Hc |]. split; [exact Ht |].
    split.
    { unfold create_default_config. cbn [dict_get_or]. rewrite Hcfg.
      cbn [lbind]. rewrite Hv. cbn [of_outcome lbind].
      now destruct (save_config E config_dir cfg fs). }
    repeat (split; [assumption |]).
    intros l _ Hl. unfold lag_period. rewrite Hdata.
    change (sampling_interval_minutes (default_data E)) with 5.
    assert (l / (5 * 60) < 2) by (apply Z.div_lt_upper_bound; lia). lia. }
  destruct Hcases as [Hd | [Hd | Hd]]; rewrite Hd in *.
  all: eapply Hbuild;
    [ unfold organization_config_of, init_scada_db_config; cbn;
      rewrite Hp; cbn; reflexivity
    | reflexivity
    | vm_compute; reflexivity ].
Qed.

Lemma built_in_defaults_are_well_formed_witness :
  exists cfg log fs',
    create_default_config example_environment "configs" "plant"
      (Some (get_default_config_for_type "water_treatment")) []
    = Loaded (cfg, log, fs') /\
    log = [] /\
    lag_seconds (schema cfg) = [120; 300; 600] /\
    NoDup (get_all_feature_columns (schema cfg)) /\
    lag_period cfg 300 = 1%nat.
Proof.
  destruct (built_in_defaults_are_well_formed example_environment "configs" "plant"
              "water_treatment" [] 5432 eq_refl)
    as (cfg & errors & Hcfg & Hv & _ & _ & Hc & _ & _ & _ & Hn & _ & _ & Hl).
  assert (Hs : lag_seconds (schema cfg) = [120; 300; 600]).
  { vm_compute in Hcfg. injection Hcfg as Hcfg. now subst cfg. }
  assert (He : errors = []).
  { vm_compute in Hcfg. injection Hcfg as Hcfg. subst cfg.
    vm_compute in Hv. now injection Hv as <-. }
  subst errors.
  exists cfg, [], ((get_config_path "configs" (organization_id cfg),
                    to_dict example_environment cfg) :: []).
  split; [exact Hc |]. split; [reflexivity |].
  split; [exact Hs |]. split; [exact Hn |].
  apply Hl; [rewrite Hs; simpl; auto | lia].
Defined.

(** * The feature summary *)

Lemma zero_share_not_positive (y : float) :
  PrimFloat.ltb 0 (PrimFloat.mul (PrimFloat.div 0 y) 100) = false.
Proof.
  rewrite ltb_spec, mul_spec, div_spec.
  change (Prim2SF 0) with (S754_zero false).
  destruct (Prim2SF y) as [s | s | | s m e]; try reflexivity;
    destruct s; reflexivity.
Qed.

Lemma filter_isna_valid (s : Series) :
  forallb notna s = true -> filter isna s = [].
Proof.
  induction s as [| x s IH]; intros H; [reflexivity |].
  simpl in H. apply andb_true_iff in H. destruct H as [Hx Hs].
  unfold notna in Hx. apply negb_true_iff in Hx. simpl. rewrite Hx. now apply IH.
Qed.

Lemma missing_values_of_valid (df : DataFrame) (names : list string)
  (acc : list (string * float)) :
  all_valid df -> (forall c, In c names -> In c (columns df)) ->
  for_each names
    (fun col missing =>
       s <- getitem df col ;;
       Returns (if PrimFloat.ltb 0 (missing_pct s (nrows df))
                then dict_insert missing col (missing_pct s (nrows df))
                else missing))
    acc
  = Returns acc.
Proof.
  intros Hv. induction names as [| c names IH]; intros Hin; [reflexivity |].
  cbn [for_each].
  destruct (proj2 (get_col_some_iff df c) (Hin c (or_introl eq_refl))) as [s Hs].
  unfold getitem at 1. rewrite Hs. cbn [bind].
  assert (Hvs : forallb notna s = true).
  { apply get_col_in in Hs. unfold all_valid in Hv. rewrite Forall_forall in Hv.
    exact (Hv _ Hs). }
  unfold missing_pct. rewrite (filter_isna_valid s Hvs).
  change (float_of_nat (List.length (@nil float))) with 0%float.
  rewrite zero_share_not_positive. apply IH. intros x Hx. apply Hin. now right.
Qed.

Lemma engineer_features_result (K : Kernels) (cfg : OrganizationConfig)
  (df out : DataFrame) (include_selection : bool) (max_features : Z)
  (feature_names : list string) :
  engineer_features K cfg df include_selection max_features
  = Returns (out, feature_names) ->
  all_valid out /\ forall c, In c feature_names -> In c (columns out).
Proof.
  unfold engineer_features. intros H.
  destruct (run_generators K cfg _) as [g |]; simpl in H; [| discriminate].
  assert (Hc : all_valid (clean_data g)) by apply dropna_all_valid.
  destruct (include_selection && _).
  - apply select_features_returns in H.
    destruct H as (X & y & sf & scores & _ & _ & _ & _ & Hsel & Hd).
    split; [exact (select_cols_valid _ _ _ Hc Hd) |].
    intros c Hin. rewrite (select_cols_columns _ _ _ Hd).
    apply in_or_app. now left.
  - injection H as <- <-. split; [exact Hc |].
    intros c Hin. apply filter_In in Hin. tauto.
Qed.

(** X17.  The summary of an engineered table with distinct labels exists
    and reports no missing value: on the table and the feature names that
    [engineer_features] returned, [create_feature_summary] raises no
    [KeyError], counts every returned name and every row, and leaves its
    [missing_values] entry empty, also when the table has no row left
    (the share [0 / 0] is not a number, which is not greater than 0). *)
Theorem summary_of_engineered_table_reports_nothing_missing (K : Kernels)
  (cfg : OrganizationConfig) (value_counts : Series -> list (float * nat))
  (df out : DataFrame) (include_selection : bool) (max_features : Z)
  (feature_names : list string) (target_col : string) :
  engineer_features K cfg df include_selection max_features
  = Returns (out, feature_names) ->
  NoDup (columns out) ->
  exists summary,
    create_feature_summary value_counts out feature_names target_col
    = Returns summary /\
    total_features summary = List.length feature_names /\
    total_samples summary = nrows out /\
    missing_values summary = [].
Proof.
  intros H _. apply engineer_features_result in H. destruct H as [Hv Hin].
  eexists. split.
  - unfold create_feature_summary.
    rewrite (missing_values_of_valid out feature_names [] Hv Hin). cbn [bind].
    reflexivity.
  - repeat split.
Qed.

Lemma summary_of_engineered_table_reports_nothing_missing_witness :
  exists out names summary,
    engineer_features example_kernels example_config timed_table true 3
    = Returns (out, names) /\
    create_feature_summary (fun _ => []) out names "y" = Returns summary /\
    total_features summary = 3%nat /\
    missing_values summary = [].
Proof.
  assert (E : exists out names,
             engineer_features example_kernels example_config timed_table true 3
             = Returns (out, names) /\ List.length names = 3%nat /\
             distinct_b (columns out) = true)
    by (vm_compute; eexists; eexists; repeat split; reflexivity).
  destruct E as (out & names & E & Hn & Hd).
  destruct (summary_of_engineered_table_reports_nothing_missing
              example_kernels example_config (fun _ => []) timed_table out true 3
              names "y" E (distinct_b_NoDup _ Hd)) as (summary & Hs & Ht & _ & Hm).
  exists out, names, summary. rewrite Hn in Ht. auto.
Defined.

Lemma contains_chars_app (sub a b : list ascii) :
  contains_chars sub (a ++ sub ++ b) = true.
Proof.
  induction a as [| c a IH].
  - destruct (sub ++ b) eqn:E; cbn [app contains_chars]; rewrite <- ?E;
      rewrite is_prefix_app; reflexivity.
  - cbn [app contains_chars]. rewrite IH. apply orb_true_r.
Qed.

Lemma str_contains_app (sub a b : string) :
  str_contains sub (a ++ sub ++ b) = true.
Proof.
  unfold str_contains. rewrite !chars_app. apply contains_chars_app.
Qed.

Lemma every_feature_has_a_category (col : string) :
  existsb (fun cat => snd cat col) feature_categories = true.
Proof.
  unfold feature_categories. cbn [existsb snd].
  destruct (any_word base_words col) eqn:E;
    [| cbn [negb]; rewrite ?orb_true_r; reflexivity].
  unfold any_word, base_words in E. cbn [existsb] in E.
  unfold any_word, time_words, domain_words. cbn [existsb].
  repeat (apply orb_true_iff in E; destruct E as [E | E];
          [rewrite E; cbn [orb]; rewrite ?orb_true_r; reflexivity |]).
  discriminate.
Qed.

Lemma category_counts_cover (cats : list (string * (string -> bool)))
  (names : list string) :
  (forall col, existsb (fun cat : string * (string -> bool) => snd cat col) cats = true) ->
  (List.length names
   <= list_sum (map (fun cat : string * (string -> bool) => List.length (filter (snd cat) names)) cats))%nat.
Proof.
  intros Hall. induction names as [| x names IH]; [simpl; lia |].
  assert (Hcons : forall a l, list_sum (a :: l) = (a + list_sum l)%nat)
    by reflexivity.
  assert (Hsplit : forall cs : list (string * (string -> bool)),
             list_sum (map (fun cat : string * (string -> bool) => List.length (filter (snd cat) (x :: names))) cs)
             = (list_sum (map (fun cat : string * (string -> bool) => if snd cat x then 1%nat else 0%nat) cs)
                + list_sum (map (fun cat : string * (string -> bool) => List.length (filter (snd cat) names)) cs))%nat).
  { induction cs as [| c cs IHc]; [reflexivity |].
    cbn [map]. rewrite !Hcons, IHc. cbn [filter].
    destruct (snd c x); cbn [List.length]; lia. }
  assert (Hone : forall cs : list (string * (string -> bool)),
             existsb (fun cat : string * (string -> bool) => snd cat x) cs = true ->
             (1 <= list_sum (map (fun cat : string * (string -> bool) => if snd cat x then 1%nat else 0%nat) cs))%nat).
  { induction cs as [| c cs IHc]; [discriminate |].
    cbn [existsb map]. rewrite Hcons. destruct (snd c x); [lia |].
    intros H. specialize (IHc H). lia. }
  rewrite Hsplit. specialize (Hone cats (Hall x)). cbn [List.length]. lia.
Qed.

(** X18.  In the summary every feature is counted in at least one
    category, [base] being the features that contain none of the sixteen
    category words, so the category counts add up to at least the number
    of features; the categories overlap.  Every lag column is counted as
    [lag] and every rolling column as [rolling], whatever the name of
    their base column. *)
Theorem feature_summary_categories_cover (value_counts : Series -> list (float * nat))
  (df : DataFrame) (feature_columns : list string) (target_col : string)
  (summary : FeatureSummary) :
  create_feature_summary value_counts df feature_columns target_col
  = Returns summary ->
  (total_features summary <= list_sum (map snd (feature_types summary)))%nat /\
  (forall cat count, In (cat, count) (feature_types summary) ->
                     (count <= total_features summary)%nat) /\
  (forall m lag_sec, str_contains "_lag_" (lag_name m lag_sec) = true) /\
  (forall m stat window,
      str_contains "_rolling_" (rolling_name m stat window) = true).
Proof.
  unfold create_feature_summary. intros H.
  destruct (for_each feature_columns _ []) as [missing |]; cbn [bind] in H;
    [| discriminate].
  injection H as <-. cbn [total_features feature_types]. split; [| split; [| split]].
  - change (List.length feature_columns
            <= list_sum
                 (map snd
                    (map (fun cat : string * (string -> bool) =>
                            (fst cat, List.length (filter (snd cat) feature_columns)))
                         feature_categories)))%nat.
    rewrite map_map. cbn [snd].
    apply (category_counts_cover feature_categories feature_columns).
    apply every_feature_has_a_category.
  - intros cat count Hin.
    change (In (cat, count)
              (map (fun c : string * (string -> bool) =>
                      (fst c, List.length (filter (snd c) feature_columns)))
                   feature_categories)) in Hin.
    apply in_map_iff in Hin.
    destruct Hin as [c [E _]]. injection E as _ <-. apply filter_length_le.
  - intros m lag_sec. unfold lag_name. apply str_contains_app.
  - intros m stat window. unfold rolling_name. apply str_contains_app.
Qed.

Lemma feature_summary_categories_cover_witness :
  exists summary,
    create_feature_summary (fun _ => []) timed_table ["x"; "timestamp"] "y"
    = Returns summary /\
    feature_types summary
    = [("lag", 0%nat); ("rolling", 0%nat); ("interaction", 0%nat); ("time", 0%nat);
       ("anomaly", 0%nat); ("domain", 0%nat); ("base", 2%nat)] /\
    (total_features summary <= list_sum (map snd (feature_types summary)))%nat.
Proof.
  assert (E : exists summary,
             create_feature_summary (fun _ => []) timed_table ["x"; "timestamp"] "y"
             = Returns summary /\
             feature_types summary
             = [("lag", 0%nat); ("rolling", 0%nat); ("interaction", 0%nat);
                ("time", 0%nat); ("anomaly", 0%nat); ("domain", 0%nat);
                ("base", 2%nat)])
    by (vm_compute; eexists; split; reflexivity).
  destruct E as (summary & E & Ht). exists summary.
  split; [exact E |]. split; [exact Ht |].
  exact (proj1 (feature_summary_categories_cover (fun _ => []) timed_table
                  ["x"; "timestamp"] "y" summary E)).
Defined.

(** Names are matched by substring: [time_since_start] counts as a time
    feature through the [sin] of [since], and the declared column
    [power_consumption] as a domain feature, not a base one. *)
Example feature_categories_by_substring :
  any_word time_words "time_since_start" = true
  /\ any_word domain_words "power_consumption" = true
  /\ any_word base_words "power_consumption" = true
  /\ any_word base_words "x_pct_change" = false.
Proof. repeat split; reflexivity. Qed.

(** * Scaling *)

Lemma assign_fold_columns (kvs : list (string * Series)) (df : DataFrame) :
  (forall k, In k (map fst kvs) -> In k (columns df)) ->
  columns (fold_left (fun d kv => set_col d (fst kv) (snd kv)) kvs df) = columns df.
Proof.
  revert df. induction kvs as [| [k v] kvs IH]; intros df H; [reflexivity |].
  cbn [fold_left fst snd].
  assert (Hk : has_col df k = true) by (apply has_col_iff, H; now left).
  assert (Hc : columns (set_col df k v) = columns df)
    by (rewrite columns_set; now rewrite Hk).
  rewrite IH; [exact Hc |].
  intros x Hx. rewrite Hc. apply H. now right.
Qed.

Lemma assign_fold_frame (kvs : list (string * Series)) (df : DataFrame)
  (c : string) :
  ~ In c (map fst kvs) ->
  get_col (fold_left (fun d kv => set_col d (fst kv) (snd kv)) kvs df) c
  = get_col df c.
Proof.
  revert df. induction kvs as [| [k v] kvs IH]; intros df H; [reflexivity |].
  cbn [fold_left fst snd]. rewrite IH by (intros Hin; apply H; now right).
  apply get_set_other. intros ->. apply H. now left.
Qed.

Lemma assign_fold_get (kvs : list (string * Series)) (df : DataFrame)
  (k : string) (v : Series) :
  NoDup (map fst kvs) -> In (k, v) kvs ->
  get_col (fold_left (fun d kv => set_col d (fst kv) (snd kv)) kvs df) k = Some v.
Proof.
  revert df. induction kvs as [| [k0 v0] kvs IH]; intros df Hnd Hin; [destruct Hin |].
  cbn [fold_left fst snd]. cbn [map fst] in Hnd.
  assert (Hnd' : NoDup (map fst kvs)) by (inversion Hnd; assumption).
  assert (Hk0 : ~ In k0 (map fst kvs)) by (inversion Hnd; assumption).
  destruct Hin as [E | Hin].
  - injection E as -> ->. rewrite assign_fold_frame by exact Hk0.
    apply get_set_same.
  - now apply IH.
Qed.

(** X19.  [apply_feature_scaling] rejects an unknown scaler type with
    [ValueError] before it looks at the table, so also when a feature
    column is missing.  When it returns, the table has the same column
    labels in the same order, every column outside [feature_columns]
    (the target, the timestamp) is untouched, and, the feature names being
    distinct, each feature column holds the column the scaler produced for
    it. *)
Theorem apply_feature_scaling_touches_features_only
  (fit_transform : string -> DataFrame -> outcome (list Series))
  (df : DataFrame) (feature_columns : list string) (scaler_type : string) :
  (scaler_type <> "standard" -> scaler_type <> "minmax" ->
   scaler_type <> "robust" ->
   apply_feature_scaling fit_transform df feature_columns scaler_type
   = Raises ValueError) /\
  (forall df_scaled scaler,
      apply_feature_scaling fit_transform df feature_columns scaler_type
      = Returns (df_scaled, scaler) ->
      scaler = scaler_type /\
      columns df_scaled = columns df /\
      (forall c, ~ In c feature_columns -> get_col df_scaled c = get_col df c) /\
      exists X scaled,
        select_cols df feature_columns = Returns X /\
        fit_transform scaler X = Returns scaled /\
        List.length scaled = List.length feature_columns /\
        (NoDup feature_columns ->
         forall c s, In (c, s) (combine feature_columns scaled) ->
                     get_col df_scaled c = Some s)).
Proof.
  unfold apply_feature_scaling. split.
  - intros H1 H2 H3. apply String.eqb_neq in H1, H2, H3. now rewrite H1, H2, H3.
  - intros df_scaled scaler H.
    assert (Hs : exists k,
               (if String.eqb scaler_type "standard" then Returns "standard"
                else if String.eqb scaler_type "minmax" then Returns "minmax"
                     else if String.eqb scaler_type "robust" then Returns "robust"
                          else Raises ValueError) = Returns k /\ k = scaler_type).
    { destruct (String.eqb_spec scaler_type "standard") as [-> | _]; [eauto |].
      destruct (String.eqb_spec scaler_type "minmax") as [-> | _]; [eauto |].
      destruct (String.eqb_spec scaler_type "robust") as [-> | _]; [eauto |].
      discriminate H. }
    destruct Hs as (k & Ek & Hk). rewrite Ek in H. cbn [bind] in H.
    destruct (select_cols df feature_columns) as [X |] eqn:EX; cbn [bind] in H;
      [| discriminate].
    destruct (fit_transform k X) as [scaled |] eqn:Ef; cbn [bind] in H;
      [| discriminate].
    unfold assign_columns in H.
    destruct (Nat.eqb_spec (List.length feature_columns) (List.length scaled))
      as [Hlen | _]; cbn [negb orb] in H; [| discriminate].
    match type of H with
    | context [negb (forallb ?f scaled)] => destruct (negb (forallb f scaled))
    end; cbn [bind] in H; [discriminate |].
    injection H as <- <-.
    assert (Hfst : map fst (combine feature_columns scaled) = feature_columns).
    { clear -Hlen. revert scaled Hlen.
      induction feature_columns as [| c cs IH]; intros [| s ss] Hlen;
        simpl in *; try discriminate; try reflexivity.
      f_equal. apply IH. lia. }
    split; [exact Hk |]. split.
    { apply assign_fold_columns. rewrite Hfst.
      exact (select_cols_present _ _ _ EX). }
    split.
    { intros c Hc. apply assign_fold_frame. now rewrite Hfst. }
    exists X, scaled. split; [reflexivity |]. split; [exact Ef |].
    split; [now symmetry |].
    intros Hnd c s Hin. apply assign_fold_get; [now rewrite Hfst | exact Hin].
Qed.

(** * Feature importance *)

Lemma dict_insert_fresh {V : Type} (d : list (string * V)) (k : string) (v : V) :
  ~ In k (map fst d) -> dict_insert d k v = d ++ [(k, v)].
Proof.
  induction d as [| [k' v'] d IH]; intros H; [reflexivity |].
  simpl. destruct (String.eqb_spec k' k) as [-> | _].
  - exfalso. apply H. now left.
  - f_equal. apply IH. intros Hin. apply H. now right.
Qed.

Lemma dict_of_pairs_distinct_from {V : Type} (pairs acc : list (string * V)) :
  NoDup (map fst (acc ++ pairs)) ->
  fold_left (fun d kv => dict_insert d (fst kv) (snd kv)) pairs acc = acc ++ pairs.
Proof.
  revert acc. induction pairs as [| [k v] pairs IH]; intros acc H.
  - now rewrite app_nil_r.
  - cbn [fold_left fst snd]. rewrite dict_insert_fresh.
    + rewrite IH; rewrite <- app_assoc; [reflexivity | exact H].
    + rewrite map_app in H. apply NoDup_remove_2 in H.
      intros Hin. apply H. apply in_or_app. now left.
Qed.

(** A list of pairs with distinct keys is its own dict. *)
Lemma dict_of_pairs_distinct {V : Type} (pairs : list (string * V)) :
  NoDup (map fst pairs) -> dict_of_pairs pairs = pairs.
Proof. intros H. unfold dict_of_pairs. now rewrite dict_of_pairs_distinct_from. Qed.

Lemma insert_by_importance_perm (p : string * float) (l : list (string * float)) :
  Permutation (insert_by_importance p l) (p :: l).
Proof.
  induction l as [| q l IH]; simpl; [reflexivity |].
  destruct (PrimFloat.ltb (snd p) (snd q)); [| reflexivity].
  rewrite IH. apply perm_swap.
Qed.

Lemma sorted_by_importance_perm (l : list (string * float)) :
  Permutation (sorted_by_importance l) l.
Proof.
  unfold sorted_by_importance. induction l as [| p l IH]; simpl; [reflexivity |].
  rewrite insert_by_importance_perm. now constructor.
Qed.

Lemma insert_by_importance_sorted (p : string * float) (l : list (string * float)) :
  snd p <> nan -> Forall (fun q => snd q <> nan) l ->
  StronglySorted importance_ge l ->
  StronglySorted importance_ge (insert_by_importance p l).
Proof.
  intros Hp Hl Hs. induction l as [| q l IH]; simpl.
  - repeat constructor.
  - assert (Hq : snd q <> nan) by (inversion Hl; assumption).
    assert (Hl' : Forall (fun q => snd q <> nan) l) by (inversion Hl; assumption).
    assert (Hs' : StronglySorted importance_ge l) by (inversion Hs; assumption).
    assert (Hql : Forall (importance_ge q) l) by (inversion Hs; assumption).
    destruct (PrimFloat.ltb (snd p) (snd q)) eqn:E.
    + constructor; [now apply IH |].
      apply Forall_forall. intros r Hr.
      apply (Permutation_in _ (insert_by_importance_perm p l)) in Hr.
      destruct Hr as [<- | Hr].
      * unfold importance_ge. now apply ltb_leb.
      * rewrite Forall_forall in Hql. now apply Hql.
    + assert (Hpq : importance_ge p q)
        by (unfold importance_ge; now apply ltb_false_leb).
      constructor; [exact Hs |]. constructor; [exact Hpq |].
      eapply Forall_impl; [| exact Hql]. intros r Hr.
      unfold importance_ge in *. eapply leb_trans; eassumption.
Qed.

Lemma sorted_by_importance_sorted (l : list (string * float)) :
  Forall (fun q => snd q <> nan) l ->
  StronglySorted importance_ge (sorted_by_importance l).
Proof.
  unfold sorted_by_importance.
  intros Hl. induction l as [| p l IH]; simpl; [constructor |].
  assert (Hp : snd p <> nan) by (inversion Hl; assumption).
  assert (Hl' : Forall (fun q => snd q <> nan) l) by (inversion Hl; assumption).
  apply insert_by_importance_sorted; [assumption | | now apply IH].
  apply Forall_forall. intros q Hq.
  apply (Permutation_in _ (sorted_by_importance_perm l)) in Hq.
  rewrite Forall_forall in Hl'. now apply Hl'.
Qed.

Lemma map_fst_combine_eq {A B : Type} (a : list A) (b : list B) :
  List.length a = List.length b -> map fst (combine a b) = a.
Proof.
  revert b. induction a as [| x a IH]; intros [| y b] H; simpl in *;
    try discriminate; try reflexivity.
  f_equal. apply IH. lia.
Qed.

(** X21.  For a model that exposes importances (either attribute), distinct
    feature names, one importance per name and no NaN among them,
    [get_feature_importance] returns every feature with its importance,
    once, ordered by decreasing importance; a model without importances
    yields the empty dict. *)
Theorem get_feature_importance_is_sorted (model : trained_model)
  (feature_names : list string) (importances : list float) :
  model = SklearnModel importances \/ model = LightGBMModel importances ->
  NoDup feature_names ->
  List.length feature_names = List.length importances ->
  Forall (fun x => x <> nan) importances ->
  Permutation (get_feature_importance model feature_names)
    (combine feature_names importances) /\
  StronglySorted importance_ge (get_feature_importance model feature_names) /\
  get_feature_importance OtherModel feature_names = [].
Proof.
  intros Hm Hnd Hlen Hv.
  assert (Hkeys : map fst (combine feature_names importances) = feature_names)
    by now apply map_fst_combine_eq.
  assert (Hd : dict_of_pairs (combine feature_names importances)
               = combine feature_names importances)
    by (apply dict_of_pairs_distinct; now rewrite Hkeys).
  assert (Hs : dict_of_pairs (sorted_by_importance (combine feature_names importances))
               = sorted_by_importance (combine feature_names importances)).
  { apply dict_of_pairs_distinct.
    apply (Permutation_NoDup
             (l := map fst (combine feature_names importances)));
      [| now rewrite Hkeys].
    apply Permutation_map. symmetry. apply sorted_by_importance_perm. }
  assert (Hr : get_feature_importance model feature_names
               = sorted_by_importance (combine feature_names importances)).
  { destruct Hm as [-> | ->]; cbn [get_feature_importance]; cbv zeta;
      now rewrite Hd, Hs. }
  rewrite Hr. split; [apply sorted_by_importance_perm |].
  split; [| reflexivity].
  apply sorted_by_importance_sorted.
  apply Forall_forall. intros [k v] Hin. apply in_combine_r in Hin.
  rewrite Forall_forall in Hv. now apply Hv.
Qed.

Lemma get_feature_importance_is_sorted_witness :
  get_feature_importance (LightGBMModel [0.5; 2; 1]%float) ["a"; "b"; "c"]
  = [("b", 2%float); ("c", 1%float); ("a", 0.5%float)]
  /\ StronglySorted importance_ge
       (get_feature_importance (LightGBMModel [0.5; 2; 1]%float) ["a"; "b"; "c"]).
Proof.
  split; [reflexivity |].
  apply (get_feature_importance_is_sorted (LightGBMModel [0.5; 2; 1]%float)
           ["a"; "b"; "c"] [0.5; 2; 1]%float).
  - now right.
  - repeat constructor; simpl; intuition discriminate.
  - reflexivity.
  - repeat constructor; discriminate.
Defined.

(** * Declared columns that the table does not hold *)

Lemma fold_left_skip {A St : Type} (xs : list A) (body : St -> A -> St) (st : St) :
  (forall x, In x xs -> body st x = st) -> fold_left body xs st = st.
Proof.
  induction xs as [| x xs IH]; intros H; simpl; [reflexivity |].
  rewrite H by now left. apply IH. intros y Hy. apply H. now right.
Qed.

(** X22.  Declared continuous columns that the table does not hold are
    skipped without any error or warning: when none of them is present,
    the rolling, rate-of-change, statistical and anomaly stages return the
    table unchanged, and so does the lag stage unless it fails on a zero
    sampling interval. *)
Theorem absent_columns_are_skipped_silently (cfg : OrganizationConfig)
  (df : DataFrame) :
  (forall col, In col (continuous_columns (schema cfg)) ->
               has_col df (get_mapped_column (schema cfg) col) = false) ->
  create_lag_features cfg df
  = (if (sampling_interval_minutes (data cfg) =? 0)
        && negb (list_falsy (lag_seconds (schema cfg)))
     then Raises ZeroDivisionError else Returns df) /\
  create_rolling_features cfg df = Returns df /\
  create_rate_of_change_features cfg df = df /\
  create_statistical_features cfg df = df /\
  create_anomaly_features cfg df = df.
Proof.
  intros Habs. split; [| split; [| split; [| split]]].
  - rewrite create_lag_features_cases.
    assert (Hp : declared_column_present (schema cfg) df = false).
    { unfold declared_column_present.
      destruct (existsb _ (continuous_columns (schema cfg))) eqn:Ex; [| reflexivity].
      apply existsb_exists in Ex. destruct Ex as [col [Hcol Hc]].
      rewrite (Habs col Hcol) in Hc. discriminate. }
    rewrite Hp.
    destruct (sampling_interval_minutes (data cfg) =? 0); [| reflexivity].
    now destruct (lag_seconds (schema cfg)).
  - unfold create_rolling_features. apply for_each_skip. intros col Hcol.
    now rewrite (Habs col Hcol).
  - rewrite create_rate_of_change_features_writes.
    apply exec_writes_absent. intros w Hw. apply in_roc_writes in Hw.
    destruct Hw as (col & st & Hcol & _ & ->). cbn [w_src].
    specialize (Habs col Hcol). unfold has_col in Habs.
    now destruct (get_col df _).
  - unfold create_statistical_features. cbv zeta.
    assert (Hnone : filter (has_col df)
                      (map (get_mapped_column (schema cfg))
                         (continuous_columns (schema cfg))) = []).
    { induction (continuous_columns (schema cfg)) as [| c cs IH]; [reflexivity |].
      cbn [map filter]. rewrite (Habs c) by now left.
      apply IH. intros col Hcol. apply Habs. now right. }
    rewrite Hnone. reflexivity.
  - unfold create_anomaly_features. apply fold_left_skip. intros col Hcol.
    cbv zeta. now rewrite (Habs col Hcol).
Qed.

Lemma absent_columns_are_skipped_silently_witness :
  create_lag_features example_config [("z", [1; 2]%float)]
  = Returns [("z", [1; 2]%float)]
  /\ create_rolling_features example_config [("z", [1; 2]%float)]
     = Returns [("z", [1; 2]%float)]
  /\ create_anomaly_features example_config [("z", [1; 2]%float)]
     = [("z", [1; 2]%float)].
Proof.
  destruct (absent_columns_are_skipped_silently example_config [("z", [1; 2]%float)])
    as (Hl & Hr & _ & _ & Ha).
  - intros col [<- | []]. reflexivity.
  - split; [exact Hl |]. split; [exact Hr | exact Ha].
Defined.
